(** * hiclassprompt: the batch execution pipeline

    A shallow embedding of the TypeScript sources
      - [src/core/retry-logic.ts]          (RetryLogic, CircuitBreaker,
                                            CircuitBreakerManager)
      - [src/core/cost-tracker.ts]         (CostTracker, the parts the budget reads
                                            and the statistics by provider)
      - [src/core/budget-manager.ts]       (BudgetManager)
      - [src/core/batch-result-manager.ts] (BatchResultManager)
      - [src/core/resource-manager.ts]     (ResourceManager, the shutdown)
      - [src/core/progress-tracker.ts]     (ConcurrencyController.getQueue)
      - [src/cli/commands/batch.ts]        (batchCommand)
    followed by the properties of the pipeline that are proved about them.

    Conventions.  A JavaScript [number] is a binary64 float where the code
    computes with it (the money of the budget, the delays of the backoff,
    the confidence) and an integer [Z] where it counts (attempts, failures,
    items, milliseconds of the clock).  A string is a string of bytes.  A
    promise that resolves or rejects is a value of [T + JsError].  Mutable
    objects are passed explicitly: every method takes the object and
    returns the updated one; [Date.now()] and [new Date()] read a clock
    that is passed in the same way.

    What the code calls and the repository does not hold is a parameter of
    the definition that calls it: [Math.pow], [parseInt], [parseFloat],
    [Date.prototype.toISOString], the timer behind [setTimeout], the
    provider, and the constructor of the queues of p-queue.  [PQueue] and
    [Sample] hold instances of them, on which the definitions are run. *)

From Stdlib Require Import ZArith Floats Bool List Sorted Lia.
From Stdlib Require Import Ascii String DecimalString.
From stdpp Require Import base option list gmap strings.

Import ListNotations.

Local Open Scope string_scope.
Local Open Scope list_scope.
Local Open Scope Z_scope.

(* ===================================================================== *)
(** * Part I: definitions                                                 *)
(* ===================================================================== *)

(** ** JavaScript strings and errors *)

Module Js.

(** [String.prototype.toUpperCase], on the ASCII letters: every other
    character is left as it is. *)
Definition upperChar (c : ascii) : ascii :=
  let n := nat_of_ascii c in
  if ((97 <=? n)%nat && (n <=? 122)%nat)%bool then ascii_of_nat (n - 32) else c.

Fixpoint toUpperCase (s : string) : string :=
  match s with
  | EmptyString => EmptyString
  | String c r => String (upperChar c) (toUpperCase r)
  end.

(** [s.includes(pat)]: [pat] occurs in [s] as a contiguous substring. *)
Fixpoint includes (s pat : string) : bool :=
  String.prefix pat s
  || match s with
     | EmptyString => false
     | String _ r => includes r pat
     end.

(** The two properties of a thrown [Error] that the pipeline reads. *)
Record JsError : Type := mkError {
  message : string;
  code : option string
}.

(** [new Error(msg)] *)
Definition newError (msg : string) : JsError :=
  {| message := msg; code := None |}.

(** The outcome of awaiting a promise of a [T]. *)
Definition Outcome (T : Type) : Type := (T + JsError)%type.

(** An async function run against the mutable state [S] of the program. *)
Definition Async (S T : Type) : Type := S -> Outcome T * S.

End Js.

Export Js.

(** ** [Math.min] and [Math.max] of two numbers *)

Module JsMath.

Definition isPositiveZero (x : float) : bool := is_zero x && negb (get_sign x).

Definition isNegativeZero (x : float) : bool := is_zero x && get_sign x.

(** [Math.max(a, b)]: NaN when one of the two is NaN; [+0] counts as
    larger than [-0]. *)
Definition max (a b : float) : float :=
  if is_nan a || is_nan b then nan
  else if isPositiveZero b && isNegativeZero a then b
  else if (a <? b)%float then b
  else a.

(** [Math.min(a, b)]: NaN when one of the two is NaN; [-0] counts as
    smaller than [+0]. *)
Definition min (a b : float) : float :=
  if is_nan a || is_nan b then nan
  else if isNegativeZero b && isPositiveZero a then b
  else if (b <? a)%float then b
  else a.

End JsMath.

(** ** retry-logic.ts: RetryLogic *)

Module RetryLogic.

(** [RetryOptions]: every field is optional.  [maxAttempts] is a whole
    number of attempts, as the one caller in the repository gives it (a
    number that is not whole and a key given as [undefined] are not
    covered); the delays and the multiplier are numbers. *)
Record RetryOptions : Type := {
  maxAttempts : option Z;
  initialDelayMs : option float;
  maxDelayMs : option float;
  backoffMultiplier : option float;
  retryableErrors : option (list string)
}.

(** [Required<RetryOptions>] *)
Record ResolvedOptions : Type := {
  r_maxAttempts : Z;
  r_initialDelayMs : float;
  r_maxDelayMs : float;
  r_backoffMultiplier : float;
  r_retryableErrors : list string
}.

Definition noOptions : RetryOptions :=
  {| maxAttempts := None; initialDelayMs := None; maxDelayMs := None;
     backoffMultiplier := None; retryableErrors := None |}.

Definition defaultOptions : ResolvedOptions :=
  {| r_maxAttempts := 3;
     r_initialDelayMs := 1000%float;
     r_maxDelayMs := 30000%float;
     r_backoffMultiplier := 2%float;
     r_retryableErrors :=
       ["RATE_LIMIT"; "TIMEOUT"; "NETWORK_ERROR"; "ECONNRESET"; "ETIMEDOUT"] |}.

(** [{ ...this.defaultOptions, ...options }] *)
Definition resolve (options : RetryOptions) : ResolvedOptions :=
  {| r_maxAttempts := default (r_maxAttempts defaultOptions) (maxAttempts options);
     r_initialDelayMs :=
       default (r_initialDelayMs defaultOptions) (initialDelayMs options);
     r_maxDelayMs := default (r_maxDelayMs defaultOptions) (maxDelayMs options);
     r_backoffMultiplier :=
       default (r_backoffMultiplier defaultOptions) (backoffMultiplier options);
     r_retryableErrors :=
       default (r_retryableErrors defaultOptions) (retryableErrors options) |}.

(** What [execute] hands to the logger. *)
Inductive LogEntry : Type :=
| RetrySucceeded (attempt : Z)
| RequestFailed (attempt : Z) (error : string) (retryable : bool)
| RequestFailedRetrying (attempt maxAttempts : Z) (delayMs : float) (error : string).

Definition isRetryableError (error : JsError) (retryableErrors : list string) : bool :=
  let errorMessage := toUpperCase (message error) in
  let errorCode := toUpperCase <$> code error in
  existsb
    (fun retryableError =>
       let pattern := toUpperCase retryableError in
       includes errorMessage pattern
       || bool_decide (errorCode = Some pattern))
    retryableErrors.

Section Backoff.

(** [Math.pow(base, e)] for a whole number [e]: the language leaves the
    accuracy of [Math.pow] to the implementation, so it is taken as it
    comes. *)
Variable pow : float -> Z -> float.

(** [calculateDelay]: in binary64, as the code computes it. *)
Definition calculateDelay (attempt : Z) (options : ResolvedOptions) : float :=
  let delay :=
    (r_initialDelayMs options * pow (r_backoffMultiplier options) (attempt - 1)%Z)%float in
  JsMath.min delay (r_maxDelayMs options).

Section Execute.

(** [S] is the state of everything the retried function, the timer and
    the logger act on; [T] is what the function resolves to. *)
Context {S T : Type}.
Variable sleep : float -> S -> S.
Variable logger : LogEntry -> S -> S.

(** The [for] loop of [execute], entered with [attempt] and [lastError];
    [remaining] counts the iterations left, [maxAttempts - attempt + 1]. *)
Fixpoint attemptLoop (remaining : nat) (attempt : Z) (opts : ResolvedOptions)
    (fn : Async S T) (lastError : option JsError) (s : S) : Outcome T * S :=
  match remaining with
  | O => (inr (default (newError "Max retry attempts exceeded") lastError), s)
  | Datatypes.S remaining' =>
      match fn s with
      | (inl result, s1) =>
          (inl result, if 1 <? attempt then logger (RetrySucceeded attempt) s1 else s1)
      | (inr error, s1) =>
          let isRetryable := isRetryableError error (r_retryableErrors opts) in
          if negb isRetryable || (r_maxAttempts opts <=? attempt) then
            (inr error, logger (RequestFailed attempt (message error) isRetryable) s1)
          else
            let delay := calculateDelay attempt opts in
            let s2 :=
              logger (RequestFailedRetrying attempt (r_maxAttempts opts) delay
                        (message error)) s1 in
            attemptLoop remaining' (attempt + 1) opts fn (Some error) (sleep delay s2)
      end
  end.

Definition execute (fn : Async S T) (options : RetryOptions) (s : S) : Outcome T * S :=
  let opts := resolve options in
  attemptLoop (Z.to_nat (r_maxAttempts opts)) 1 opts fn None s.

End Execute.

End Backoff.

(** *** An observer for [execute]

    To state how often a function was invoked and what happened in
    between, [execute] is run against a state that only records: the
    number of invocations so far and the trace of everything done. *)

Inductive Event : Type :=
| Invoked
| Slept (ms : float)
| Logged (entry : LogEntry).

Record Probe : Type := {
  invocations : nat;
  events : list Event
}.

Definition freshProbe : Probe := {| invocations := 0; events := [] |}.

Definition probeSleep (ms : float) (p : Probe) : Probe :=
  {| invocations := invocations p; events := events p ++ [Slept ms] |}.

Definition probeLog (entry : LogEntry) (p : Probe) : Probe :=
  {| invocations := invocations p; events := events p ++ [Logged entry] |}.

(** The function under retry: its [k]-th invocation (counted from 1)
    settles as [behaviour k]. *)
Definition scripted {T : Type} (behaviour : nat -> Outcome T) : Async Probe T :=
  fun p =>
    (behaviour (Datatypes.S (invocations p)),
     {| invocations := Datatypes.S (invocations p); events := events p ++ [Invoked] |}).

Definition run {T : Type} (pow : float -> Z -> float) (behaviour : nat -> Outcome T)
    (options : RetryOptions) : Outcome T * Probe :=
  execute pow probeSleep probeLog (scripted behaviour) options freshProbe.

(** The delays slept, in order. *)
Definition sleeps (evs : list Event) : list float :=
  omap (fun ev => match ev with Slept ms => Some ms | _ => None end) evs.

(** The message of the error that invocation [k] rejects with. *)
Definition errorAt {T : Type} (behaviour : nat -> Outcome T) (k : nat) : string :=
  match behaviour k with
  | inr e => message e
  | inl _ => ""
  end.

(** What a failed attempt [k] that is retried leaves in the trace: the
    invocation, the warning and the backoff sleep. *)
Definition retriedAttempt {T : Type} (pow : float -> Z -> float)
    (opts : ResolvedOptions) (behaviour : nat -> Outcome T) (k : nat) : list Event :=
  let delay := calculateDelay pow (Z.of_nat k) opts in
  [Invoked;
   Logged (RequestFailedRetrying (Z.of_nat k) (r_maxAttempts opts) delay
             (errorAt behaviour k));
   Slept delay].

(** The trace of the retried attempts [n+1 .. n+j]. *)
Definition backoffTrace {T : Type} (pow : float -> Z -> float)
    (opts : ResolvedOptions) (behaviour : nat -> Outcome T) (n j : nat) : list Event :=
  flat_map (retriedAttempt pow opts behaviour) (seq (Datatypes.S n) j).

(** Invocation [k] rejects with an error that [execute] retries. *)
Definition failsTransiently {T : Type} (opts : ResolvedOptions)
    (behaviour : nat -> Outcome T) (k : nat) : Prop :=
  exists e, behaviour k = inr e /\ isRetryableError e (r_retryableErrors opts) = true.

(** The backoff formula in the words of the specification,
    [min(maxDelay, initialDelay * multiplier^(attempt-1))], evaluated in
    the numbers of the language. *)
Definition specifiedDelay (pow : float -> Z -> float) (attempt : Z)
    (d0 m dMax : float) : float :=
  JsMath.min dMax (d0 * pow m (attempt - 1)%Z)%float.

End RetryLogic.

(** ** retry-logic.ts: CircuitBreaker *)

Module CircuitBreaker.

Inductive CircuitState : Type := closed | open | half_open.

(** [CircuitBreakerOptions]: every field is optional. *)
Record CircuitBreakerOptions : Type := {
  failureThreshold : option Z;
  successThreshold : option Z;
  timeout : option Z;
  resetTimeoutMs : option Z
}.

(** [Required<CircuitBreakerOptions>] *)
Record RequiredOptions : Type := {
  o_failureThreshold : Z;
  o_successThreshold : Z;
  o_timeout : Z;
  o_resetTimeoutMs : Z
}.

(** [x || d] on an optional number: [undefined] and [0] give [d]. *)
Definition orElse (x : option Z) (d : Z) : Z :=
  match x with
  | Some v => if v =? 0 then d else v
  | None => d
  end.

(** The fields of a [CircuitBreaker]. *)
Record t : Type := {
  state : CircuitState;
  failures : Z;
  successes : Z;
  lastFailureTime : option Z;
  nextRetryTime : option Z;
  options : RequiredOptions
}.

(** [new CircuitBreaker(options)] *)
Definition new (opts : CircuitBreakerOptions) : t :=
  {| state := closed;
     failures := 0;
     successes := 0;
     lastFailureTime := None;
     nextRetryTime := None;
     options :=
       {| o_failureThreshold := orElse (failureThreshold opts) 5;
          o_successThreshold := orElse (successThreshold opts) 2;
          o_timeout := orElse (timeout opts) 60000;
          o_resetTimeoutMs := orElse (resetTimeoutMs opts) 60000 |} |}.

Definition setState (st : CircuitState) (b : t) : t :=
  {| state := st; failures := failures b; successes := successes b;
     lastFailureTime := lastFailureTime b; nextRetryTime := nextRetryTime b;
     options := options b |}.

Definition reset (b : t) : t :=
  {| state := closed; failures := 0; successes := 0;
     lastFailureTime := None; nextRetryTime := None; options := options b |}.

Definition forceReset (b : t) : t := reset b.

Definition onSuccess (b : t) : t :=
  let b1 :=
    {| state := state b; failures := failures b; successes := successes b + 1;
       lastFailureTime := lastFailureTime b; nextRetryTime := nextRetryTime b;
       options := options b |} in
  match state b1 with
  | half_open =>
      if o_successThreshold (options b1) <=? successes b1 then reset b1 else b1
  | _ =>
      {| state := state b1; failures := 0; successes := successes b1;
         lastFailureTime := lastFailureTime b1; nextRetryTime := nextRetryTime b1;
         options := options b1 |}
  end.

Section Execute.

(** [W] is the state of everything outside the breaker; [now] reads
    [Date.now()] off it, in milliseconds. *)
Context {W : Type}.
Variable now : W -> Z.
(** [new Date(ms).toISOString()] *)
Variable toISOString : Z -> string.

Definition shouldAttemptReset (b : t) (w : W) : bool :=
  match nextRetryTime b with
  | Some retryAt => retryAt <=? now w
  | None => false
  end.

Definition trip (b : t) (w : W) : t :=
  {| state := open; failures := failures b; successes := successes b;
     lastFailureTime := lastFailureTime b;
     nextRetryTime := Some (now w + o_resetTimeoutMs (options b));
     options := options b |}.

Definition onFailure (b : t) (w : W) : t :=
  let b1 :=
    {| state := state b; failures := failures b + 1; successes := 0;
       lastFailureTime := Some (now w); nextRetryTime := nextRetryTime b;
       options := options b |} in
  if o_failureThreshold (options b1) <=? failures b1 then trip b1 w else b1.

(** The error an open breaker rejects with. *)
Definition openError (b : t) : JsError :=
  let nextRetry :=
    match nextRetryTime b with
    | Some retryAt => if retryAt =? 0 then "unknown" else toISOString retryAt
    | None => "unknown"
    end in
  newError ("Circuit breaker is open. Next retry at " ++ nextRetry)%string.

(** The first statement of [execute]: an open breaker either becomes
    half-open or throws. *)
Definition enter (b : t) (w : W) : t + JsError :=
  match state b with
  | open =>
      if shouldAttemptReset b w then inl (setState half_open b)
      else inr (openError b)
  | _ => inl b
  end.

Definition execute {T : Type} (b : t) (fn : Async W T) (w : W)
    : Outcome T * t * W :=
  match enter b w with
  | inr err => (inr err, b, w)
  | inl b1 =>
      match fn w with
      | (inl result, w1) => (inl result, onSuccess b1, w1)
      | (inr error, w1) => (inr error, onFailure b1 w1, w1)
      end
  end.

(** The states a breaker can be in.  A call of [execute] tests the state
    ([enter]), then waits for the function, then counts the outcome
    ([onSuccess], [onFailure]); while it waits other calls can start and
    settle.  So the states are those that the constructor makes and that
    the start of a call, the end of a call and [forceReset] lead to, in
    any order and at any times. *)
Inductive reachable (opts : CircuitBreakerOptions) : t -> Prop :=
| reachable_new : reachable opts (new opts)
| reachable_enter (b : t) (w : W) (b1 : t) :
    reachable opts b -> enter b w = inl b1 -> reachable opts b1
| reachable_onSuccess (b : t) :
    reachable opts b -> reachable opts (onSuccess b)
| reachable_onFailure (b : t) (w : W) :
    reachable opts b -> reachable opts (onFailure b w)
| reachable_forceReset (b : t) :
    reachable opts b -> reachable opts (forceReset b).

(** The states reached when the calls take turns: each call of [execute]
    has settled before the next one starts. *)
Inductive inTurn (opts : CircuitBreakerOptions) : t -> Prop :=
| inTurn_new : inTurn opts (new opts)
| inTurn_execute (T : Type) (b : t) (fn : Async W T) (w : W) :
    inTurn opts b -> inTurn opts (snd (fst (execute b fn w)))
| inTurn_forceReset (b : t) :
    inTurn opts b -> inTurn opts (forceReset b).

(** [n] calls of [execute] in a row that all threw. *)
Inductive failedRuns : nat -> t -> t -> Prop :=
| failedRuns_O (b : t) : failedRuns O b b
| failedRuns_S (n : nat) (T : Type) (b : t) (fn : Async W T) (w : W)
      (e : JsError) (b1 : t) (w1 : W) (b2 : t) :
    execute b fn w = (inr e, b1, w1) ->
    failedRuns n b1 b2 ->
    failedRuns (S n) b b2.

(** [n] calls of [execute] in a row that all returned. *)
Inductive succeededRuns : nat -> t -> t -> Prop :=
| succeededRuns_O (b : t) : succeededRuns O b b
| succeededRuns_S (n : nat) (T : Type) (b : t) (fn : Async W T) (w : W)
      (v : T) (b1 : t) (w1 : W) (b2 : t) :
    execute b fn w = (inl v, b1, w1) ->
    succeededRuns n b1 b2 ->
    succeededRuns (S n) b b2.

(** What holds of every breaker whose thresholds are positive, in whatever
    order calls start and settle. *)
Definition sound (b : t) : Prop :=
  0 <= failures b /\ 0 <= successes b
  /\ (state b = closed -> failures b < o_failureThreshold (options b))
  /\ (state b <> closed -> exists retryAt, nextRetryTime b = Some retryAt).

(** What holds, in addition, when the calls take turns. *)
Definition invariant (b : t) : Prop :=
  let F := o_failureThreshold (options b) in
  let H := o_successThreshold (options b) in
  match state b with
  | closed => 0 <= failures b < F
  | open =>
      F <= failures b /\ successes b = 0
      /\ exists tf, lastFailureTime b = Some tf
                    /\ nextRetryTime b = Some (tf + o_resetTimeoutMs (options b))
  | half_open =>
      F <= failures b /\ 0 <= successes b < H
      /\ exists tf, lastFailureTime b = Some tf
                    /\ nextRetryTime b = Some (tf + o_resetTimeoutMs (options b))
  end.

End Execute.

End CircuitBreaker.

(** ** types: AIProvider *)

Inductive AIProvider : Type := gemini | claude | openai | bedrock.

Global Instance AIProvider_eq_dec : EqDecision AIProvider.
Proof. solve_decision. Defined.

(** ** cost-tracker.ts: CostTracker *)

Module CostTracker.

(** The fields of a [CostRecord] that the budget reads. *)
Record CostRecord : Type := {
  provider : AIProvider;
  timestamp : Z;
  costUsd : float
}.

(** The tracker is its array of records. *)
Definition t : Type := list CostRecord.

(** [recordCost]: [this.records.push(record)] *)
Definition recordCost (record : CostRecord) (records : t) : t := records ++ [record].

Definition getRecordsByDateRange (startDate endDate : Z) (records : t) : t :=
  List.filter (fun r => (startDate <=? timestamp r) && (timestamp r <=? endDate))
    records.

(** [records.reduce((sum, r) => sum + r.costUsd, 0)] *)
Definition totalCost (records : t) : float :=
  fold_left (fun sum r => (sum + costUsd r)%float) records 0%float.

(** [getStats().byProvider], of which only [costUsd] is kept: the first
    record of a provider sets its cost, the later ones add to it. *)
Definition byProvider (records : t) : AIProvider -> option float :=
  fold_left
    (fun stats record p =>
       if decide (p = provider record) then
         match stats (provider record) with
         | Some existing => Some (existing + costUsd record)%float
         | None => Some (costUsd record)
         end
       else stats p)
    records (fun _ => None).

End CostTracker.

(** ** budget-manager.ts: BudgetManager *)

Module BudgetManager.

Import CostTracker.

Record BudgetLimit : Type := {
  dailyLimit : option float;
  weeklyLimit : option float;
  monthlyLimit : option float;
  perRequestLimit : option float;
  providerLimits : option (AIProvider -> option float)
}.

Inductive AlertType : Type := warning | exceeded.
Inductive AlertLevel : Type := daily | weekly | monthly | per_request | provider_level.

(** A [BudgetAlert] without its [message], which is only a rendering of
    the other fields. *)
Record BudgetAlert : Type := {
  a_type : AlertType;
  a_level : AlertLevel;
  a_provider : option AIProvider;
  a_currentSpend : float;
  a_limit : float;
  a_percentage : float;
  a_timestamp : Z
}.

Record PeriodStatus : Type := {
  spent : float;
  limit : option float;
  remaining : option float;
  percentage : option float
}.

(** [BudgetStatus]; of the entry of a provider in [byProvider] only
    [spent] is kept. *)
Record BudgetStatus : Type := {
  s_daily : PeriodStatus;
  s_weekly : PeriodStatus;
  s_monthly : PeriodStatus;
  s_byProvider : AIProvider -> option float;
  s_alerts : list BudgetAlert
}.

(** The fields of a [BudgetManager]; the cost tracker it refers to is a
    separate object, handed to each method as it is at that moment. *)
Record t : Type := {
  limits : BudgetLimit;
  alerts : list BudgetAlert;
  warningThreshold : float;
  startOfDay : Z;
  startOfWeek : Z;
  startOfMonth : Z
}.

(** [new BudgetManager(limits, costTracker)]; the three starts are what the
    constructor works out from the calendar at that moment. *)
Definition new (lim : BudgetLimit) (dayStart weekStart monthStart : Z) : t :=
  {| limits := lim; alerts := []; warningThreshold := 80%float;
     startOfDay := dayStart; startOfWeek := weekStart; startOfMonth := monthStart |}.

(** A number in a condition: [0], [-0] and [NaN] count as false. *)
Definition truthy (x : float) : bool := negb (x =? 0)%float && negb (is_nan x).

(** An optional limit in a condition: the limit when it is set and truthy. *)
Definition configured (x : option float) : option float :=
  match x with
  | Some v => if truthy v then Some v else None
  | None => None
  end.

Definition addAlert (alert : BudgetAlert) (bm : t) : t :=
  {| limits := limits bm; alerts := alerts bm ++ [alert];
     warningThreshold := warningThreshold bm; startOfDay := startOfDay bm;
     startOfWeek := startOfWeek bm; startOfMonth := startOfMonth bm |}.

Definition periodStatus (periodSpent : float) (periodLimit : option float)
    : PeriodStatus :=
  {| spent := periodSpent;
     limit := periodLimit;
     remaining := (fun lim => lim - periodSpent)%float <$> configured periodLimit;
     percentage := (fun lim => periodSpent / lim * 100)%float <$> configured periodLimit |}.

(** [getStatus], at the time [now] that [new Date()] gives. *)
Definition getStatus (bm : t) (tracker : CostTracker.t) (now : Z) : BudgetStatus :=
  let dailySpent := totalCost (getRecordsByDateRange (startOfDay bm) now tracker) in
  let weeklySpent := totalCost (getRecordsByDateRange (startOfWeek bm) now tracker) in
  let monthlySpent := totalCost (getRecordsByDateRange (startOfMonth bm) now tracker) in
  {| s_daily := periodStatus dailySpent (dailyLimit (limits bm));
     s_weekly := periodStatus weeklySpent (weeklyLimit (limits bm));
     s_monthly := periodStatus monthlySpent (monthlyLimit (limits bm));
     s_byProvider := byProvider tracker;
     s_alerts := alerts bm |}.

(** [this.limits.providerLimits?.[provider]] *)
Definition providerLimit (lim : BudgetLimit) (p : AIProvider) : option float :=
  match providerLimits lim with
  | Some table => table p
  | None => None
  end.

Definition exceededAlert (level : AlertLevel) (p : option AIProvider)
    (currentSpend lim : float) (now : Z) : BudgetAlert :=
  {| a_type := exceeded; a_level := level; a_provider := p;
     a_currentSpend := currentSpend; a_limit := lim;
     a_percentage := (currentSpend / lim * 100)%float; a_timestamp := now |}.

(** One block of [checkWarnings]. *)
Definition checkWarning (level : AlertLevel) (periodLimit : option float)
    (periodSpent estimatedCost : float) (now : Z) (bm : t) : t :=
  match configured periodLimit with
  | Some lim =>
      let newSpent := (periodSpent + estimatedCost)%float in
      let pct := (newSpent / lim * 100)%float in
      if (warningThreshold bm <=? pct)%float && (pct <? 100)%float then
        addAlert {| a_type := warning; a_level := level; a_provider := None;
                    a_currentSpend := newSpent; a_limit := lim;
                    a_percentage := pct; a_timestamp := now |} bm
      else bm
  | None => bm
  end.

Definition checkWarnings (status : BudgetStatus) (estimatedCost : float) (now : Z)
    (bm : t) : t :=
  let bm1 :=
    checkWarning daily (dailyLimit (limits bm)) (spent (s_daily status))
      estimatedCost now bm in
  let bm2 :=
    checkWarning weekly (weeklyLimit (limits bm1)) (spent (s_weekly status))
      estimatedCost now bm1 in
  checkWarning monthly (monthlyLimit (limits bm2)) (spent (s_monthly status))
    estimatedCost now bm2.

(** [limit && amount > limit]: the limit, when it is set and exceeded. *)
Definition exceededLimit (periodLimit : option float) (amount : float) : option float :=
  match configured periodLimit with
  | Some lim => if (lim <? amount)%float then Some lim else None
  | None => None
  end.

Definition canAfford (bm : t) (tracker : CostTracker.t) (p : AIProvider)
    (estimatedCost : float) (now : Z) : bool * t :=
  let status := getStatus bm tracker now in
  match exceededLimit (perRequestLimit (limits bm)) estimatedCost with
  | Some lim =>
      (false, addAlert (exceededAlert per_request None estimatedCost lim now) bm)
  | None =>
  let newDaily := (spent (s_daily status) + estimatedCost)%float in
  match exceededLimit (dailyLimit (limits bm)) newDaily with
  | Some lim => (false, addAlert (exceededAlert daily None newDaily lim now) bm)
  | None =>
  let newWeekly := (spent (s_weekly status) + estimatedCost)%float in
  match exceededLimit (weeklyLimit (limits bm)) newWeekly with
  | Some lim => (false, addAlert (exceededAlert weekly None newWeekly lim now) bm)
  | None =>
  let newMonthly := (spent (s_monthly status) + estimatedCost)%float in
  match exceededLimit (monthlyLimit (limits bm)) newMonthly with
  | Some lim => (false, addAlert (exceededAlert monthly None newMonthly lim now) bm)
  | None =>
  let providerSpent :=
    match s_byProvider status p with
    | Some sp => if truthy sp then sp else 0%float
    | None => 0%float
    end in
  let newProviderSpent := (providerSpent + estimatedCost)%float in
  match exceededLimit (providerLimit (limits bm) p) newProviderSpent with
  | Some lim =>
      (false,
       addAlert (exceededAlert provider_level (Some p) newProviderSpent lim now) bm)
  | None => (true, checkWarnings status estimatedCost now bm)
  end end end end end.

(** *** The scenario of a ceiling and equal requests

    Requests of [estimatedCost] arrive at the times [times]; the spend of
    an approved request is recorded at once, with the time of the request. *)
Fixpoint submitAll (bm : t) (tracker : CostTracker.t) (p : AIProvider)
    (estimatedCost : float) (times : list Z) : list bool :=
  match times with
  | [] => []
  | now :: later =>
      let '(ok, bm1) := canAfford bm tracker p estimatedCost now in
      let tracker1 :=
        if ok then
          recordCost {| provider := p; timestamp := now; costUsd := estimatedCost |}
            tracker
        else tracker in
      ok :: submitAll bm1 tracker1 p estimatedCost later
  end.

Definition noLimits : BudgetLimit :=
  {| dailyLimit := None; weeklyLimit := None; monthlyLimit := None;
     perRequestLimit := None; providerLimits := None |}.

(** The four ceilings that bound the spend of a window. *)
Inductive Ceiling : Type :=
| DailyCeiling | WeeklyCeiling | MonthlyCeiling | ProviderCeiling (p : AIProvider).

(** The limits with [ceiling] set to [amount] and nothing else. *)
Definition onlyCeiling (ceiling : Ceiling) (amount : float) : BudgetLimit :=
  match ceiling with
  | DailyCeiling =>
      {| dailyLimit := Some amount; weeklyLimit := None; monthlyLimit := None;
         perRequestLimit := None; providerLimits := None |}
  | WeeklyCeiling =>
      {| dailyLimit := None; weeklyLimit := Some amount; monthlyLimit := None;
         perRequestLimit := None; providerLimits := None |}
  | MonthlyCeiling =>
      {| dailyLimit := None; weeklyLimit := None; monthlyLimit := Some amount;
         perRequestLimit := None; providerLimits := None |}
  | ProviderCeiling q =>
      {| dailyLimit := None; weeklyLimit := None; monthlyLimit := None;
         perRequestLimit := None;
         providerLimits :=
           Some (fun p => if decide (p = q) then Some amount else None) |}
  end.

(** The spend that [canAfford] sets against [ceiling] for a request to [p]. *)
Definition windowSpend (ceiling : Ceiling) (bm : t) (tracker : CostTracker.t)
    (p : AIProvider) (now : Z) : float :=
  let status := getStatus bm tracker now in
  match ceiling with
  | DailyCeiling => spent (s_daily status)
  | WeeklyCeiling => spent (s_weekly status)
  | MonthlyCeiling => spent (s_monthly status)
  | ProviderCeiling _ =>
      match s_byProvider status p with
      | Some sp => if truthy sp then sp else 0%float
      | None => 0%float
      end
  end.

(** When the window of [ceiling] opened. *)
Definition windowStart (ceiling : Ceiling) (bm : t) : option Z :=
  match ceiling with
  | DailyCeiling => Some (startOfDay bm)
  | WeeklyCeiling => Some (startOfWeek bm)
  | MonthlyCeiling => Some (startOfMonth bm)
  | ProviderCeiling _ => None
  end.

(** $0.30, as the binary64 number that the literal [0.30] denotes. *)
Definition usd_0_30 : float := 0x1.3333333333333p-2%float.

(** $10.00 *)
Definition usd_10 : float := 10%float.

End BudgetManager.

(** ** Reading the budget scenario *)

Module BudgetScenario.

Import CostTracker BudgetManager.

(** [ceiling] bears on requests to [p]. *)
Definition appliesTo (ceiling : Ceiling) (p : AIProvider) : Prop :=
  match ceiling with
  | ProviderCeiling q => q = p
  | _ => True
  end.

(** The records of requests to [p] of [cost] each, approved at [times]. *)
Definition approved (p : AIProvider) (cost : float) (times : list Z) : CostTracker.t :=
  map (fun time => {| provider := p; timestamp := time; costUsd := cost |}) times.

(** The window spend after [k] such requests: [0 + cost + ... + cost]. *)
Definition sumTo (cost : float) (k : nat) : float :=
  Nat.iter k (fun sum => (sum + cost)%float) 0%float.

(** The provider's cost after [k >= 1] such requests: [cost + ... + cost]. *)
Definition providerTo (cost : float) (k : nat) : float :=
  Nat.iter (k - 1) (fun sum => (sum + cost)%float) cost.

Definition spendAfter (ceiling : Ceiling) (cost : float) (k : nat) : float :=
  match ceiling with
  | ProviderCeiling _ =>
      match k with
      | O => 0%float
      | _ => if truthy (providerTo cost k) then providerTo cost k else 0%float
      end
  | _ => sumTo cost k
  end.

(** No limit of any scope is set. *)
Definition unlimited (lim : BudgetLimit) : Prop :=
  perRequestLimit lim = None /\ dailyLimit lim = None /\ weeklyLimit lim = None
  /\ monthlyLimit lim = None /\ forall p, providerLimit lim p = None.

End BudgetScenario.

(** ** JSON.stringify *)

Module Json.

(** A JavaScript value as [JSON.stringify] sees it; a number is held as
    the decimal numeral that it prints as. *)
#[local] Set Warnings "-register-all".
Inductive value : Type :=
| JNull
| JBool (b : bool)
| JNumber (numeral : Decimal.decimal)
| JString (s : string)
| JArray (items : list value)
| JObject (fields : list (string * value)).

Definition doubleQuote : ascii := ascii_of_nat 34.
Definition backslash : ascii := ascii_of_nat 92.
Definition newline : ascii := ascii_of_nat 10.

Definition hexDigit (n : nat) : ascii :=
  nth n (list_ascii_of_string "0123456789abcdef") "0"%char.

(** How a character of a string is written between the quotes. *)
Definition escapeChar (c : ascii) : string :=
  let n := nat_of_ascii c in
  if (n =? 34)%nat then String backslash (String doubleQuote "")
  else if (n =? 92)%nat then String backslash (String backslash "")
  else if (n =? 8)%nat then String backslash "b"
  else if (n =? 12)%nat then String backslash "f"
  else if (n =? 10)%nat then String backslash "n"
  else if (n =? 13)%nat then String backslash "r"
  else if (n =? 9)%nat then String backslash "t"
  else if (n <? 32)%nat then
    String backslash
      ("u00" ++ String (hexDigit (n / 16)) (String (hexDigit (n mod 16)) ""))%string
  else String c "".

Fixpoint escape (s : string) : string :=
  match s with
  | EmptyString => EmptyString
  | String c r => (escapeChar c ++ escape r)%string
  end.

Definition quote (s : string) : string :=
  String doubleQuote (escape s ++ String doubleQuote "")%string.

Definition mantissa (i : Decimal.int) (f : Decimal.uint) : string :=
  match f with
  | Decimal.Nil => NilZero.string_of_int i
  | _ => (NilZero.string_of_int i ++ "." ++ NilEmpty.string_of_uint f)%string
  end.

Definition number (numeral : Decimal.decimal) : string :=
  match numeral with
  | Decimal.Decimal i f => mantissa i f
  | Decimal.DecimalExp i f e =>
      (mantissa i f ++ "e"
       ++ match e with
          | Decimal.Pos _ => "+"
          | Decimal.Neg _ => ""
          end
       ++ NilZero.string_of_int e)%string
  end.

(** An integer as a JavaScript number. *)
Definition ofZ (n : Z) : value := JNumber (Decimal.Decimal (Z.to_int n) Decimal.Nil).

(** [JSON.stringify(v)], without indentation. *)
Fixpoint stringify (v : value) : string :=
  match v with
  | JNull => "null"
  | JBool true => "true"
  | JBool false => "false"
  | JNumber numeral => number numeral
  | JString s => quote s
  | JArray items => ("[" ++ String.concat "," (List.map stringify items) ++ "]")%string
  | JObject fields =>
      ("{"
       ++ String.concat ","
            (List.map (fun field => quote (fst field) ++ ":" ++ stringify (snd field))
               fields)
       ++ "}")%string
  end.

(** [JSON.stringify(v, null, gap)] for a [gap] of spaces, at the
    indentation [current]: every item of an array and every property of an
    object starts a line of its own, and a colon is followed by a space. *)
Fixpoint stringifyIndented (gap current : string) (v : value) : string :=
  let inner := (current ++ gap)%string in
  let lineBreak := String newline "" in
  match v with
  | JNull => "null"
  | JBool true => "true"
  | JBool false => "false"
  | JNumber numeral => number numeral
  | JString s => quote s
  | JArray [] => "[]"
  | JArray items =>
      ("[" ++ lineBreak ++ inner
       ++ String.concat ("," ++ lineBreak ++ inner)
            (List.map (stringifyIndented gap inner) items)
       ++ lineBreak ++ current ++ "]")%string
  | JObject [] => "{}"
  | JObject fields =>
      ("{" ++ lineBreak ++ inner
       ++ String.concat ("," ++ lineBreak ++ inner)
            (List.map
               (fun field =>
                  quote (fst field) ++ ": " ++ stringifyIndented gap inner (snd field))
               fields)
       ++ lineBreak ++ current ++ "}")%string
  end.

(** An object literal some of whose properties may be [undefined]:
    [JSON.stringify] leaves those out. *)
Definition object (properties : list (string * option value)) : value :=
  JObject (omap (fun property => pair (fst property) <$> snd property) properties).


(** The value of property [key] of an object. *)
Definition property (key : string) (v : value) : option value :=
  match v with
  | JObject fields => snd <$> List.find (fun field => String.eqb (fst field) key) fields
  | _ => None
  end.



End Json.

(** ** batch-result-manager.ts: BatchResultManager *)

Module BatchResultManager.

(** A [ClassificationResult], as the object that [JSON.stringify]
    serialises: the ledger never looks inside it. *)
Definition ClassificationResult : Type := Json.value.

Inductive Status : Type := pending | success | failed | skipped.

(** What a property of an object holds: [undefined], a [Date], or any
    other value, as [JSON.stringify] sees it. *)
Inductive Property : Type :=
| Undefined
| DateValue (ms : Z)
| Plain (v : Json.value).

(** An object as its own enumerable properties, in their order. *)
Definition JsObject : Type := list (string * Property).

Definition hasKey (key : string) (object : JsObject) : bool :=
  existsb (fun property => String.eqb (fst property) key) object.

(** [{ ...object, key: v }]: the properties of [object] in their order,
    with [key] set where it stands, or added at the end. *)
Definition spreadWith (object : JsObject) (key : string) (v : Property) : JsObject :=
  if hasKey key object then
    map (fun property => if String.eqb (fst property) key then (key, v) else property)
      object
  else object ++ [(key, v)].

Record BatchResultItem : Type := {
  id : string;
  imagePath : string;
  result : option ClassificationResult;
  error : option JsObject;
  attempts : Z;
  status : Status;
  timestamp : Z
}.

Record BatchSession : Type := {
  sessionId : string;
  startTime : Z;
  endTime : option Z;
  totalItems : Z;
  completedItems : Z;
  successfulItems : Z;
  failedItems : Z;
  skippedItems : Z
}.

(** The files, by path, with their text. *)
Record Disk : Type := {
  files : gmap string string
}.

Definition emptyDisk : Disk := {| files := ∅ |}.

(** [writeFileSync(path, text)]: the file holds [text] and nothing else. *)
Definition writeFileSync (path text : string) (d : Disk) : Disk :=
  {| files := <[path := text]> (files d) |}.

(** What a stream opened with [{ flags: 'a' }] does to its file when it
    writes [text]: the file is made when it is not there, and the text
    goes to its end. *)
Definition append (path text : string) (d : Disk) : Disk :=
  {| files := <[path := (default "" (files d !! path) ++ text)%string]> (files d) |}.

(** The fields of a [BatchResultManager]; [outputStream] is the path that
    the append stream writes to, once it is open. *)
Record t : Type := {
  outputPath : string;
  sessionPath : string;
  outputStream : option string;
  session : BatchSession;
  results : gmap string BatchResultItem
}.

(** [s] without its ending [suffix], when it ends so. *)
Definition stripSuffix (suffix s : string) : option string :=
  let n := (String.length s - String.length suffix)%nat in
  if (String.length suffix <=? String.length s)%nat
     && String.eqb (String.substring n (String.length suffix) s) suffix
  then Some (String.substring 0 n s)
  else None.

(** [outputPath.replace(/\.jsonl?$/, '.session.json')] *)
Definition sessionPathOf (path : string) : string :=
  match stripSuffix ".jsonl" path with
  | Some base => (base ++ ".session.json")%string
  | None =>
      match stripSuffix ".json" path with
      | Some base => (base ++ ".session.json")%string
      | None => path
      end
  end.

(** [new BatchResultManager(outputPath, sessionId)] at the time [now];
    [generated] is what [generateSessionId] returns. *)
Definition new (path : string) (givenId : option string) (generated : string)
    (now : Z) : t :=
  {| outputPath := path;
     sessionPath := sessionPathOf path;
     outputStream := None;
     session :=
       {| sessionId :=
            match givenId with
            | Some sid => if String.eqb sid "" then generated else sid
            | None => generated
            end;
          startTime := now; endTime := None; totalItems := 0; completedItems := 0;
          successfulItems := 0; failedItems := 0; skippedItems := 0 |};
     results := ∅ |}.

Definition withSession (f : BatchSession -> BatchSession) (m : t) : t :=
  {| outputPath := outputPath m; sessionPath := sessionPath m;
     outputStream := outputStream m; session := f (session m);
     results := results m |}.

Definition setResult (item : BatchResultItem) (m : t) : t :=
  {| outputPath := outputPath m; sessionPath := sessionPath m;
     outputStream := outputStream m; session := session m;
     results := <[id item := item]> (results m) |}.

Section Serialise.

(** [new Date(ms).toISOString()], which is how [JSON.stringify] writes a
    [Date]. *)
Variable toISOString : Z -> string.

Definition statusText (st : Status) : string :=
  match st with
  | pending => "pending"
  | success => "success"
  | failed => "failed"
  | skipped => "skipped"
  end.

Definition propertyToJson (property : Property) : option Json.value :=
  match property with
  | Undefined => None
  | DateValue ms => Some (Json.JString (toISOString ms))
  | Plain v => Some v
  end.

Definition objectToJson (object : JsObject) : Json.value :=
  Json.object (map (fun property => (fst property, propertyToJson (snd property))) object).

(** The item as the object literal that the [save...] methods build. *)
Definition itemToJson (item : BatchResultItem) : Json.value :=
  Json.object
    [("id", Some (Json.JString (id item)));
     ("imagePath", Some (Json.JString (imagePath item)));
     ("result", result item);
     ("error", objectToJson <$> error item);
     ("attempts", Some (Json.ofZ (attempts item)));
     ("status", Some (Json.JString (statusText (status item))));
     ("timestamp", Some (Json.JString (toISOString (timestamp item))))].

(** The session as an object: the properties of the literal in the
    constructor, and [endTime] after them once [finalize] has set it. *)
Definition sessionToJson (s : BatchSession) : Json.value :=
  Json.object
    [("sessionId", Some (Json.JString (sessionId s)));
     ("startTime", Some (Json.JString (toISOString (startTime s))));
     ("totalItems", Some (Json.ofZ (totalItems s)));
     ("completedItems", Some (Json.ofZ (completedItems s)));
     ("successfulItems", Some (Json.ofZ (successfulItems s)));
     ("failedItems", Some (Json.ofZ (failedItems s)));
     ("skippedItems", Some (Json.ofZ (skippedItems s)));
     ("endTime", (fun ms => Json.JString (toISOString ms)) <$> endTime s)].

(** [JSON.stringify(this.session, null, 2)] *)
Definition sessionText (s : BatchSession) : string :=
  Json.stringifyIndented "  " "" (sessionToJson s).

(** [saveSession]:
    [writeFileSync(this.sessionPath, JSON.stringify(this.session, null, 2))] *)
Definition saveSession (m : t) (d : Disk) : Disk :=
  writeFileSync (sessionPath m) (sessionText (session m)) d.

(** What [writeToStream] hands to [outputStream.write]. *)
Definition written (item : BatchResultItem) : string :=
  (Json.stringify (itemToJson item) ++ String Json.newline "")%string.

(** [writeToStream], as what the file holds once the stream has written. *)
Definition writeToStream (item : BatchResultItem) (m : t) (d : Disk) : Disk :=
  match outputStream m with
  | Some path => append path (written item) d
  | None => d
  end.

(** [initialize].  [createWriteStream(this.outputPath, { flags: 'a' })]
    opens the log for appending and makes it when it is not there.  A
    stream opens and writes in the background: what it does to its file
    comes after the [writeFileSync] of the same call (which matters only
    when both are given one file). *)
Definition initialize (total : Z) (m : t) (d : Disk) : t * Disk :=
  let m1 :=
    {| outputPath := outputPath m; sessionPath := sessionPath m;
       outputStream := Some (outputPath m);
       session :=
         {| sessionId := sessionId (session m); startTime := startTime (session m);
            endTime := endTime (session m); totalItems := total;
            completedItems := completedItems (session m);
            successfulItems := successfulItems (session m);
            failedItems := failedItems (session m);
            skippedItems := skippedItems (session m) |};
       results := results m |} in
  (m1, append (outputPath m) "" (saveSession m1 d)).

Definition countSuccess (s : BatchSession) : BatchSession :=
  {| sessionId := sessionId s; startTime := startTime s; endTime := endTime s;
     totalItems := totalItems s; completedItems := completedItems s + 1;
     successfulItems := successfulItems s + 1; failedItems := failedItems s;
     skippedItems := skippedItems s |}.

Definition countFailure (s : BatchSession) : BatchSession :=
  {| sessionId := sessionId s; startTime := startTime s; endTime := endTime s;
     totalItems := totalItems s; completedItems := completedItems s + 1;
     successfulItems := successfulItems s; failedItems := failedItems s + 1;
     skippedItems := skippedItems s |}.

Definition countSkipped (s : BatchSession) : BatchSession :=
  {| sessionId := sessionId s; startTime := startTime s; endTime := endTime s;
     totalItems := totalItems s; completedItems := completedItems s + 1;
     successfulItems := successfulItems s; failedItems := failedItems s;
     skippedItems := skippedItems s + 1 |}.

(** The common tail of the three [save...] methods: the item goes into
    the results, the counters move, the line is handed to the stream and
    the session file is written; the line reaches the log after that. *)
Definition record (count : BatchSession -> BatchSession) (item : BatchResultItem)
    (m : t) (d : Disk) : t * Disk :=
  let m1 := withSession count (setResult item m) in
  (m1, writeToStream item m1 (saveSession m1 d)).

Definition successItem (itemId path : string) (res : ClassificationResult) (now : Z)
    : BatchResultItem :=
  {| id := itemId; imagePath := path; result := Some res; error := None;
     attempts := 1; status := success; timestamp := now |}.

Definition saveSuccess (itemId path : string) (res : ClassificationResult) (now : Z)
    (m : t) (d : Disk) : t * Disk :=
  record countSuccess (successItem itemId path res now) m d.

(** The item of [saveFailure]: its error is [{ ...error, timestamp }]. *)
Definition failureItem (itemId path : string) (err : JsObject) (tries : option Z)
    (now : Z) : BatchResultItem :=
  {| id := itemId; imagePath := path; result := None;
     error := Some (spreadWith err "timestamp" (DateValue now));
     attempts := default 1 tries; status := failed; timestamp := now |}.

(** [saveFailure(id, imagePath, error, attempts = 1)] *)
Definition saveFailure (itemId path : string) (err : JsObject) (tries : option Z)
    (now : Z) (m : t) (d : Disk) : t * Disk :=
  record countFailure (failureItem itemId path err tries now) m d.

Definition skippedItem (itemId path reason : string) (now : Z) : BatchResultItem :=
  {| id := itemId; imagePath := path; result := None;
     error := Some [("message", Plain (Json.JString reason));
                    ("code", Plain (Json.JString "SKIPPED"));
                    ("timestamp", DateValue now)];
     attempts := 0; status := skipped; timestamp := now |}.

Definition saveSkipped (itemId path reason : string) (now : Z)
    (m : t) (d : Disk) : t * Disk :=
  record countSkipped (skippedItem itemId path reason now) m d.

(** [finalize] *)
Definition finalize (now : Z) (m : t) (d : Disk) : t * Disk :=
  let m1 :=
    withSession
      (fun s =>
         {| sessionId := sessionId s; startTime := startTime s; endTime := Some now;
            totalItems := totalItems s; completedItems := completedItems s;
            successfulItems := successfulItems s; failedItems := failedItems s;
            skippedItems := skippedItems s |}) m in
  (m1, saveSession m1 d).

(** One call of a [save...] method. *)
Inductive Save : Type :=
| SaveSuccess (itemId path : string) (res : ClassificationResult) (now : Z)
| SaveFailure (itemId path : string) (err : JsObject) (tries : option Z) (now : Z)
| SaveSkipped (itemId path reason : string) (now : Z).

Definition save (op : Save) (m : t) (d : Disk) : t * Disk :=
  match op with
  | SaveSuccess itemId path res now => saveSuccess itemId path res now m d
  | SaveFailure itemId path err tries now => saveFailure itemId path err tries now m d
  | SaveSkipped itemId path reason now => saveSkipped itemId path reason now m d
  end.

(** The item that a call records. *)
Definition savedItem (op : Save) : BatchResultItem :=
  match op with
  | SaveSuccess itemId path res now => successItem itemId path res now
  | SaveFailure itemId path err tries now => failureItem itemId path err tries now
  | SaveSkipped itemId path reason now => skippedItem itemId path reason now
  end.

(** A sequence of calls, one after the other. *)
Definition saveAll (ops : list Save) (m : t) (d : Disk) : t * Disk :=
  fold_left (fun md op => save op (fst md) (snd md)) ops (m, d).

End Serialise.

(** [getUnprocessedItems]: the items whose id is not a key of [results]. *)
Definition getUnprocessedItems (m : t) (allItems : list (string * string))
    : list (string * string) :=
  let processed : gset string := dom (results m) in
  List.filter (fun item => bool_decide (fst item ∉ processed)) allItems.

End BatchResultManager.

(** ** p-queue: the constructor of the queue *)

Module PQueue.

(** The options that [new PQueue(...)] is given: a key that is there with
    the value [undefined] is [None]. *)
Record Options : Type := {
  concurrency : Z;
  autoStart : bool;
  intervalCap : option float;
  interval : option float
}.

(** A queue, as far as it is looked at here. *)
Record t : Type := {
  q_concurrency : Z;
  q_paused : bool
}.

Definition isFinite (x : float) : bool := negb (is_nan x || is_infinity x).

(** p-queue is a dependency of the repository, not code of it.  Its
    constructor lays the options it is given over its defaults (a key
    given as [undefined] takes the place of the default) and throws a
    TypeError unless [intervalCap] is a number of at least 1, [interval]
    is a finite number of at least 0 and [concurrency] is a number of at
    least 1. *)
Definition new (options : Options) : Outcome t :=
  match intervalCap options with
  | None =>
      inr (newError "Expected `intervalCap` to be a number from 1 and up, got `` (undefined)")
  | Some cap =>
      if negb (1 <=? cap)%float then
        inr (newError "Expected `intervalCap` to be a number from 1 and up")
      else
        match interval options with
        | None =>
            inr (newError "Expected `interval` to be a finite number >= 0, got `` (undefined)")
        | Some every =>
            if negb (isFinite every && (0 <=? every)%float) then
              inr (newError "Expected `interval` to be a finite number >= 0")
            else if concurrency options <? 1 then
              inr (newError "Expected `concurrency` to be a number from 1 and up")
            else
              inl {| q_concurrency := concurrency options;
                     q_paused := negb (autoStart options) |}
        end
  end.

End PQueue.

(** ** ConcurrencyController: getQueue *)

Module ConcurrencyController.

(** [ConcurrencyOptions]: every field is optional; a [maxConcurrent] that
    is not a number (NaN) is [None] as well. *)
Record ConcurrencyOptions : Type := {
  maxConcurrent : option Z;
  intervalCap : option float;
  interval : option float;
  autoStart : option bool
}.

(** [PROVIDER_CONCURRENCY] *)
Definition providerConcurrency (p : AIProvider) : Z :=
  match p with
  | gemini => 10
  | claude => 5
  | openai => 5
  | bedrock => 8
  end.

Section Queues.

(** The queues, and what [new PQueue(options)] does. *)
Context {Queue : Type}.
Variable newPQueue : PQueue.Options -> Outcome Queue.

(** The map [queues] of the controller. *)
Definition t : Type := AIProvider -> option Queue.

(** [new ConcurrencyController()] *)
Definition new : t := fun _ => None.

(** [getQueue(provider, options)]: the constructor of the queue is given
    [intervalCap] and [interval] as they are in [options], also when they
    are [undefined]. *)
Definition getQueue (p : AIProvider) (options : ConcurrencyOptions) (c : t)
    : Outcome Queue * t :=
  match c p with
  | Some queue => (inl queue, c)
  | None =>
      let concurrency :=
        CircuitBreaker.orElse (maxConcurrent options)
          (CircuitBreaker.orElse (Some (providerConcurrency p)) 5) in
      match newPQueue
              {| PQueue.concurrency := concurrency;
                 PQueue.autoStart :=
                   match autoStart options with
                   | Some false => false
                   | _ => true
                   end;
                 PQueue.intervalCap := intervalCap options;
                 PQueue.interval := interval options |} with
      | inl queue => (inl queue, fun q => if decide (q = p) then Some queue else c q)
      | inr error => (inr error, c)
      end
  end.

End Queues.

End ConcurrencyController.

(** ** cli/commands/batch.ts: batchCommand *)

Module Batch.

Import BatchResultManager.

(** [BatchOptions], the options of the command line. *)
Record BatchOptions : Type := {
  provider : string;
  input : option string;
  output : string;
  concurrency : option string;
  resume : option bool;
  verbose : option bool;
  recursive : option bool;
  cache : bool
}.

(** An item of [batchResult.items]. *)
Record BatchItem : Type := {
  item_id : string;
  item_imagePath : string
}.

(** The counters of the [ProgressTracker]. *)
Record ProgressTracker : Type := {
  p_total : Z;
  p_completed : Z;
  p_successful : Z;
  p_failed : Z;
  p_skipped : Z
}.

(** Everything outside the result manager and the progress tracker: the
    files, the clock, the breakers of the [CircuitBreakerManager], the
    requests made to the provider so far and the log of the retries. *)
Record World : Type := {
  disk : Disk;
  clock : Z;
  breakers : AIProvider -> option CircuitBreaker.t;
  requests : list string;
  retryLog : list RetryLogic.LogEntry
}.

Record State : Type := {
  resultManager : BatchResultManager.t;
  progressTracker : ProgressTracker;
  world : World
}.

Definition setDisk (d : Disk) (w : World) : World :=
  {| disk := d; clock := clock w; breakers := breakers w; requests := requests w;
     retryLog := retryLog w |}.

Definition setBreaker (p : AIProvider) (b : CircuitBreaker.t) (w : World) : World :=
  {| disk := disk w; clock := clock w;
     breakers := fun q => if decide (q = p) then Some b else breakers w q;
     requests := requests w; retryLog := retryLog w |}.

Definition logger (entry : RetryLogic.LogEntry) (w : World) : World :=
  {| disk := disk w; clock := clock w; breakers := breakers w;
     requests := requests w; retryLog := retryLog w ++ [entry] |}.

Definition noBreakerOptions : CircuitBreaker.CircuitBreakerOptions :=
  {| CircuitBreaker.failureThreshold := None; CircuitBreaker.successThreshold := None;
     CircuitBreaker.timeout := None; CircuitBreaker.resetTimeoutMs := None |}.

(** The options that [batchCommand] passes to [retryLogic.execute]. *)
Definition retryOptions : RetryLogic.RetryOptions :=
  {| RetryLogic.maxAttempts := Some 3;
     RetryLogic.initialDelayMs := Some 1000%float;
     RetryLogic.maxDelayMs := Some 10000%float;
     RetryLogic.backoffMultiplier := None;
     RetryLogic.retryableErrors := None |}.

Definition incrementSuccess (p : ProgressTracker) : ProgressTracker :=
  {| p_total := p_total p; p_completed := p_completed p + 1;
     p_successful := p_successful p + 1; p_failed := p_failed p;
     p_skipped := p_skipped p |}.

Definition incrementFailure (p : ProgressTracker) : ProgressTracker :=
  {| p_total := p_total p; p_completed := p_completed p + 1;
     p_successful := p_successful p; p_failed := p_failed p + 1;
     p_skipped := p_skipped p |}.

(** The object [{ message: err.message, code: err.code }] that the task
    hands to [saveFailure]. *)
Definition errorObject (err : JsError) : JsObject :=
  [("message", Plain (Json.JString (message err)));
   ("code", match code err with
            | Some c => Plain (Json.JString c)
            | None => Undefined
            end)].

(** How [batchCommand] ends, as far as it is followed here: it has left
    through [process.exit], with the result manager if it had made one by
    then, or it has handed its tasks to the queue. *)
Inductive Run (Queue : Type) : Type :=
| Exited (exitCode : Z) (made : option BatchResultManager.t) (w : World)
| Queued (queue : Queue) (tasks : list (State -> State)) (st : State).

Arguments Exited {Queue} _ _ _.
Arguments Queued {Queue} _ _ _.

Section Task.

Variable toISOString : Z -> string.

(** The provider: what [providerInstance.classify] settles as for the
    image at a path, given the requests made before. *)
Variable classify : list string -> string -> Outcome ClassificationResult.

(** [Math.pow] on a whole exponent. *)
Variable pow : float -> Z -> float.

(** The time, in milliseconds, that [setTimeout(resolve, ms)] takes. *)
Variable timer : float -> Z.

(** [sleep(ms)]: the clock moves on by what the timer takes. *)
Definition sleep (ms : float) (w : World) : World :=
  {| disk := disk w; clock := clock w + timer ms; breakers := breakers w;
     requests := requests w; retryLog := retryLog w |}.

Definition classifyCall (path : string) : Async World ClassificationResult :=
  fun w =>
    (classify (requests w) path,
     {| disk := disk w; clock := clock w; breakers := breakers w;
        requests := requests w ++ [path]; retryLog := retryLog w |}).

(** [circuitBreakerManager.execute(provider, fn)]: the breaker of the
    provider, made on first use, runs [fn]. *)
Definition breakerExecute {T : Type} (p : AIProvider) (fn : Async World T)
    : Async World T :=
  fun w =>
    let breaker := default (CircuitBreaker.new noBreakerOptions) (breakers w p) in
    let '(outcome, breaker1, w1) :=
      CircuitBreaker.execute clock toISOString breaker fn (setBreaker p breaker w) in
    (outcome, setBreaker p breaker1 w1).

(** The task that [batchCommand] builds for an item and gives to
    [queue.add], run from its start to its end with no other task in
    between.  The writes of the result manager are taken to succeed, so
    the [catch] of the task is entered from the retried call only. *)
Definition processItem (p : AIProvider) (item : BatchItem) (st : State) : State :=
  let attempt :=
    RetryLogic.execute pow sleep logger
      (breakerExecute p (classifyCall (item_imagePath item))) retryOptions
      (world st) in
  match attempt with
  | (inl result, w1) =>
      let '(rm1, d1) :=
        saveSuccess toISOString (item_id item) (item_imagePath item) result
          (clock w1) (resultManager st) (disk w1) in
      {| resultManager := rm1;
         progressTracker := incrementSuccess (progressTracker st);
         world := setDisk d1 w1 |}
  | (inr err, w1) =>
      let '(rm1, d1) :=
        saveFailure toISOString (item_id item) (item_imagePath item)
          (errorObject err) None
          (clock w1) (resultManager st) (disk w1) in
      {| resultManager := rm1;
         progressTracker := incrementFailure (progressTracker st);
         world := setDisk d1 w1 |}
  end.

(** The breaker of [p] lets the call through: it is not open, or its
    retry time has come. *)
Definition admits (p : AIProvider) (w : World) : Prop :=
  let breaker :=
    default (CircuitBreaker.new noBreakerOptions) (breakers w p) in
  exists b1,
    CircuitBreaker.enter clock toISOString breaker (setBreaker p breaker w) = inl b1.

Section Command.

(** The queues of p-queue and its constructor. *)
Context {Queue : Type}.
Variable newPQueue : PQueue.Options -> Outcome Queue.

(** [parseInt(text, 10)]: a whole number, or [None] for NaN. *)
Variable parseInt : string -> option Z.

(** [options.concurrency ? parseInt(options.concurrency, 10) : undefined] *)
Definition maxConcurrency (options : BatchOptions) : option Z :=
  match concurrency options with
  | Some text => if String.eqb text "" then None else parseInt text
  | None => None
  end.

(** [batchCommand], from the test of [batchResult.validItems] to the
    moment at which the tasks are in the queue, for the items [items] that
    the batch input gave and the provider [p] that the options name;
    [generated] is the session id that the result manager makes up.  With
    no item the command throws 'No valid images found in batch input'
    before it has made the result manager, and when [getQueue] throws it
    has initialised it; either way the [catch] of the command leaves
    through [process.exit(1)].  What follows the queueing
    ([await Promise.all], 'Finalize', [process.exit(0)]) depends on how the
    queue lets the tasks overlap, and is not followed. *)
Definition batchCommand (options : BatchOptions) (p : AIProvider)
    (items : list BatchItem) (generated : string) (w : World) : Run Queue :=
  let validItems := Z.of_nat (length items) in
  if validItems =? 0 then Exited 1 None w
  else
    let '(rm1, d1) :=
      initialize toISOString validItems
        (BatchResultManager.new (output options) None generated (clock w)) (disk w) in
    let start :=
      {| resultManager := rm1;
         progressTracker :=
           {| p_total := validItems; p_completed := 0; p_successful := 0;
              p_failed := 0; p_skipped := 0 |};
         world := setDisk d1 w |} in
    let queueOptions :=
      {| ConcurrencyController.maxConcurrent := maxConcurrency options;
         ConcurrencyController.intervalCap := None;
         ConcurrencyController.interval := None;
         ConcurrencyController.autoStart := None |} in
    match fst (ConcurrencyController.getQueue newPQueue p queueOptions
                 ConcurrencyController.new) with
    | inr error => Exited 1 (Some rm1) (world start)
    | inl queue => Queued queue (map (processItem p) items) start
    end.

End Command.

End Task.

(** The requests of [w1] are those of [w] and possibly more. *)
Definition requestsGrow (w w1 : World) : Prop :=
  exists more, requests w1 = requests w ++ more.

(** The item that [processItem] records for the outcome of the retried call. *)
Definition recorded (item : BatchItem) (outcome : Outcome ClassificationResult)
    (now : Z) : BatchResultItem :=
  match outcome with
  | inl result => successItem (item_id item) (item_imagePath item) result now
  | inr err =>
      failureItem (item_id item) (item_imagePath item) (errorObject err) None now
  end.

(** A world in which nothing has happened yet, with the files [d]. *)
Definition initialWorld (d : Disk) : World :=
  {| disk := d; clock := 0; breakers := fun _ => None; requests := [];
     retryLog := [] |}.

End Batch.

(** ** retry-logic.ts: CircuitBreakerManager *)

Module CircuitBreakerManager.

(** The map [breakers] of the manager, from provider to breaker. *)
Definition t : Type := AIProvider -> option CircuitBreaker.t.

(** [new CircuitBreakerManager()] *)
Definition new : t := fun _ => None.

(** [this.breakers.set(provider, breaker)] *)
Definition set (p : AIProvider) (b : CircuitBreaker.t) (m : t) : t :=
  fun q => if decide (q = p) then Some b else m q.

Definition noOptions : CircuitBreaker.CircuitBreakerOptions :=
  {| CircuitBreaker.failureThreshold := None; CircuitBreaker.successThreshold := None;
     CircuitBreaker.timeout := None; CircuitBreaker.resetTimeoutMs := None |}.

(** [getBreaker(provider, options)]: the breaker of the provider, made with
    [options] when there is none yet. *)
Definition getBreaker (p : AIProvider)
    (options : option CircuitBreaker.CircuitBreakerOptions) (m : t)
    : CircuitBreaker.t * t :=
  match m p with
  | Some b => (b, m)
  | None =>
      let b := CircuitBreaker.new (default noOptions options) in
      (b, set p b m)
  end.

Section Execute.

Context {W : Type}.
Variable now : W -> Z.
Variable toISOString : Z -> string.

(** [execute(provider, fn)] *)
Definition execute {T : Type} (p : AIProvider) (fn : Async W T) (m : t) (w : W)
    : Outcome T * t * W :=
  let '(breaker, m1) := getBreaker p None m in
  let '(outcome, breaker1, w1) := CircuitBreaker.execute now toISOString breaker fn w in
  (outcome, set p breaker1 m1, w1).

(** Calls of [execute] for the provider [p], one after the other, with
    anything happening to the world in between. *)
Inductive callsFor (p : AIProvider) : t -> t -> Prop :=
| callsFor_nil (m : t) : callsFor p m m
| callsFor_cons (T : Type) (fn : Async W T) (m : t) (w : W) (m2 : t) :
    callsFor p (snd (fst (execute p fn m w))) m2 ->
    callsFor p m m2.

End Execute.

(** [getStats(provider)]: the fields of the breaker, or [null]. *)
Definition getStats (p : AIProvider) (m : t) : option CircuitBreaker.t := m p.

(** [forceReset(provider)] *)
Definition forceReset (p : AIProvider) (m : t) : t :=
  match m p with
  | Some b => set p (CircuitBreaker.forceReset b) m
  | None => m
  end.

(** [forceResetAll()] *)
Definition forceResetAll (m : t) : t :=
  fun q => CircuitBreaker.forceReset <$> m q.

End CircuitBreakerManager.

(** ** budget-manager.ts and cost-tracker.ts: the other methods *)

Module BudgetExtras.

Import CostTracker BudgetManager.

(** [Array.prototype.slice(start)] for a whole number [start]: from
    [start], counted from the end when it is negative, to the end. *)
Definition slice {A : Type} (start : Z) (l : list A) : list A :=
  let len := Z.of_nat (length l) in
  let k := if start <? 0 then Z.max (len + start) 0 else Z.min start len in
  drop (Z.to_nat k) l.

(** [getRecentAlerts(count = 10)]: [this.alerts.slice(-count)] *)
Definition getRecentAlerts (count : option Z) (bm : BudgetManager.t)
    : list BudgetAlert :=
  slice (- default 10 count) (alerts bm).

(** [clearAlerts()] *)
Definition clearAlerts (bm : BudgetManager.t) : BudgetManager.t :=
  {| limits := limits bm; alerts := []; warningThreshold := warningThreshold bm;
     startOfDay := startOfDay bm; startOfWeek := startOfWeek bm;
     startOfMonth := startOfMonth bm |}.

(** The limits with [amount] a request as the only limit. *)
Definition onlyPerRequest (amount : float) : BudgetLimit :=
  {| dailyLimit := None; weeklyLimit := None; monthlyLimit := None;
     perRequestLimit := Some amount; providerLimits := None |}.

(** [setWarningThreshold(threshold)] *)
Definition setWarningThreshold (threshold : float) (bm : BudgetManager.t)
    : BudgetManager.t :=
  {| limits := limits bm; alerts := alerts bm;
     warningThreshold := JsMath.max 0 (JsMath.min 100 threshold);
     startOfDay := startOfDay bm; startOfWeek := startOfWeek bm;
     startOfMonth := startOfMonth bm |}.

(** [getRecordsByProvider] *)
Definition getRecordsByProvider (p : AIProvider) (records : CostTracker.t)
    : CostTracker.t :=
  List.filter (fun r => bool_decide (provider r = p)) records.

(** [clear()] *)
Definition clear (records : CostTracker.t) : CostTracker.t := [].

(** The count and the cost of a [ProviderCostStats]. *)
Record ProviderCostStats : Type := {
  requests : Z;
  statsCostUsd : float
}.

(** The first loop of [getStats]: the first record of a provider makes its
    entry, the later ones add to it. *)
Definition providerStats (records : CostTracker.t)
    : AIProvider -> option ProviderCostStats :=
  fold_left
    (fun stats record p =>
       if decide (p = provider record) then
         match stats (provider record) with
         | Some existing =>
             Some {| requests := requests existing + 1;
                     statsCostUsd := (statsCostUsd existing + costUsd record)%float |}
         | None => Some {| requests := 1; statsCostUsd := costUsd record |}
         end
       else stats p)
    records (fun _ => None).

(** [getStats().totalRequests]: [this.records.length] *)
Definition totalRequests (records : CostTracker.t) : Z := Z.of_nat (length records).

(** The requests of a provider in the statistics, none when it has no entry. *)
Definition requestsOf (records : CostTracker.t) (p : AIProvider) : Z :=
  match providerStats records p with
  | Some stats => requests stats
  | None => 0
  end.

End BudgetExtras.

(** ** core/resource-manager.ts: ResourceManager *)

Module ResourceManager.

(** [ResourceManagerOptions]: every field is optional. *)
Record ResourceManagerOptions : Type := {
  maxMemoryMB : option Z;
  maxQueueDepth : option Z;
  memoryWarningThresholdPercent : option Z;
  monitoringIntervalMs : option Z;
  enableGarbageCollection : option bool
}.

(** [Required<ResourceManagerOptions>] *)
Record RequiredOptions : Type := {
  o_maxMemoryMB : Z;
  o_maxQueueDepth : Z;
  o_memoryWarningThresholdPercent : Z;
  o_monitoringIntervalMs : Z;
  o_enableGarbageCollection : bool
}.

(** What the manager hands to the logger. *)
Inductive LogEntry : Type :=
| StartingResourceMonitoring (maxMemory monitoringInterval : Z)
| StoppedResourceMonitoring
| QueueDepthExceedsLimit (currentDepth maxDepth : Z)
| ShutdownAlreadyInProgress
| StartingGracefulShutdown (callbackCount : Z)
| ShutdownCallbackFailed (error : string)
| GracefulShutdownComplete.

(** The fields of a [ResourceManager] whose shutdown callbacks act on a
    state [W]; [monitoringInterval] says whether the timer is set.  The
    callbacks act on [W] only: they do not register callbacks or start a
    shutdown on the manager that runs them. *)
Record t (W : Type) : Type := {
  options : RequiredOptions;
  monitoringInterval : bool;
  shutdownCallbacks : list (Async W unit);
  isShuttingDown : bool
}.

Arguments options {W} _.
Arguments monitoringInterval {W} _.
Arguments shutdownCallbacks {W} _.
Arguments isShuttingDown {W} _.

(** [new ResourceManager(options)]: [x || d] for the numbers, [x ?? true]
    for the flag. *)
Definition new {W : Type} (opts : ResourceManagerOptions) : t W :=
  {| options :=
       {| o_maxMemoryMB := CircuitBreaker.orElse (maxMemoryMB opts) 2048;
          o_maxQueueDepth := CircuitBreaker.orElse (maxQueueDepth opts) 10000;
          o_memoryWarningThresholdPercent :=
            CircuitBreaker.orElse (memoryWarningThresholdPercent opts) 80;
          o_monitoringIntervalMs := CircuitBreaker.orElse (monitoringIntervalMs opts) 5000;
          o_enableGarbageCollection := default true (enableGarbageCollection opts) |};
     monitoringInterval := false;
     shutdownCallbacks := [];
     isShuttingDown := false |}.

(** [onShutdown(callback)] *)
Definition onShutdown {W : Type} (callback : Async W unit) (m : t W) : t W :=
  {| options := options m; monitoringInterval := monitoringInterval m;
     shutdownCallbacks := shutdownCallbacks m ++ [callback];
     isShuttingDown := isShuttingDown m |}.

Section Manager.

Context {W : Type}.
Variable logger : LogEntry -> W -> W.

(** [startMonitoring()], without the signal handlers that it installs. *)
Definition startMonitoring (m : t W) (w : W) : t W * W :=
  ({| options := options m; monitoringInterval := true;
      shutdownCallbacks := shutdownCallbacks m; isShuttingDown := isShuttingDown m |},
   logger (StartingResourceMonitoring (o_maxMemoryMB (options m))
             (o_monitoringIntervalMs (options m))) w).

(** [stopMonitoring()] *)
Definition stopMonitoring (m : t W) (w : W) : t W * W :=
  if monitoringInterval m then
    ({| options := options m; monitoringInterval := false;
        shutdownCallbacks := shutdownCallbacks m; isShuttingDown := isShuttingDown m |},
     logger StoppedResourceMonitoring w)
  else (m, w).

(** [isQueueDepthValid(currentDepth)] *)
Definition isQueueDepthValid (currentDepth : Z) (m : t W) (w : W) : bool * W :=
  if o_maxQueueDepth (options m) <? currentDepth then
    (false, logger (QueueDepthExceedsLimit currentDepth (o_maxQueueDepth (options m))) w)
  else (true, w).

(** One turn of the loop of [initiateGracefulShutdown]: the callback runs
    inside [try], and what it throws is logged. *)
Definition runCallback (w : W) (callback : Async W unit) : W :=
  match callback w with
  | (inl _, w1) => w1
  | (inr error, w1) => logger (ShutdownCallbackFailed (message error)) w1
  end.

(** [initiateGracefulShutdown()] *)
Definition initiateGracefulShutdown (m : t W) (w : W) : t W * W :=
  if isShuttingDown m then (m, logger ShutdownAlreadyInProgress w)
  else
    let m1 :=
      {| options := options m; monitoringInterval := monitoringInterval m;
         shutdownCallbacks := shutdownCallbacks m; isShuttingDown := true |} in
    let w1 :=
      logger (StartingGracefulShutdown (Z.of_nat (length (shutdownCallbacks m1)))) w in
    let '(m2, w2) := stopMonitoring m1 w1 in
    let w3 := fold_left runCallback (shutdownCallbacks m2) w2 in
    (m2, logger GracefulShutdownComplete w3).

End Manager.

(** *** An observer for the shutdown

    To state which callbacks ran and in which order, the callbacks act on
    a trace that only records. *)

Inductive Event : Type :=
| Ran (k : nat)
| Logged (entry : LogEntry).

Definition probeLog (entry : LogEntry) (trace : list Event) : list Event :=
  trace ++ [Logged entry].

(** The callback number [k], which settles as [outcome]. *)
Definition traced (k : nat) (outcome : Outcome unit) : Async (list Event) unit :=
  fun trace => (outcome, trace ++ [Ran k]).

(** [onShutdown] for each of the callbacks, in their order. *)
Definition register {W : Type} (callbacks : list (Async W unit)) (m : t W) : t W :=
  fold_left (fun m callback => onShutdown callback m) callbacks m.

(** The numbers of the callbacks that ran, in order. *)
Definition ran (trace : list Event) : list nat :=
  omap (fun ev => match ev with Ran k => Some k | Logged _ => None end) trace.

(** The errors of the callbacks that were logged, in order. *)
Definition failuresLogged (trace : list Event) : list string :=
  omap (fun ev =>
          match ev with
          | Logged (ShutdownCallbackFailed error) => Some error
          | _ => None
          end) trace.

(** The messages of the outcomes that are errors. *)
Definition errorsOf (outcomes : list (Outcome unit)) : list string :=
  omap (fun outcome =>
          match outcome with
          | inr error => Some (message error)
          | inl _ => None
          end) outcomes.

End ResourceManager.

(** ** ResponseNormalizer: the confidence of a category *)

Module ResponseNormalizer.

Inductive ConfidenceLevel : Type := high | medium | low.

(** [confidence: number | string] *)
Inductive RawConfidence : Type :=
| Number (x : float)
| Text (s : string).

(** The number 0.8, as the nearest binary64 float. *)
Definition point_8 : float := 0x1.999999999999ap-1%float.

Section Normalise.

(** [parseFloat] on a string. *)
Variable parseFloat : string -> float.

(** [typeof confidence === 'string' ? parseFloat(confidence) : confidence] *)
Definition toNumber (confidence : RawConfidence) : float :=
  match confidence with
  | Text s => parseFloat s
  | Number x => x
  end.

(** [normalizeConfidence] *)
Definition normalizeConfidence (confidence : RawConfidence) : float :=
  let conf := toNumber confidence in
  if is_nan conf then 0.5%float
  else JsMath.max 0 (JsMath.min 1 conf).

End Normalise.

(** [getConfidenceLevel] *)
Definition getConfidenceLevel (confidence : float) : ConfidenceLevel :=
  if (point_8 <? confidence)%float then high
  else if (0.5 <=? confidence)%float then medium
  else low.

End ResponseNormalizer.

(** ** Concrete runs *)

Module Sample.

Import BatchResultManager Batch.

Definition toISOString (ms : Z) : string := "1970-01-01T00:00:00.000Z".

(** A power by repeated multiplication. *)
Definition pow (base : float) (e : Z) : float :=
  match e with
  | Z0 => 1%float
  | Zpos n => Pos.iter (fun acc => (acc * base)%float) 1%float n
  | Zneg n => (1 / Pos.iter (fun acc => (acc * base)%float) 1%float n)%float
  end.

(** A timer that fires on time: after the whole milliseconds of [ms], and
    after one when that is less. *)
Definition timer (ms : float) : Z :=
  match Prim2SF ms with
  | S754_finite false m e => Z.max 1 (Z.shiftl (Z.pos m) e)
  | _ => 1
  end.

(** [parseInt] on a string of decimal digits. *)
Definition parseInt (text : string) : option Z :=
  Z.of_int <$> NilZero.int_of_string text.

Definition itemA : BatchItem := {| item_id := "a"; item_imagePath := "a.png" |}.
Definition itemB : BatchItem := {| item_id := "b"; item_imagePath := "b.png" |}.

(** [batch photos --provider gemini --output out.jsonl --resume] *)
Definition resumeOptions : BatchOptions :=
  {| provider := "gemini"; input := None; output := "out.jsonl";
     concurrency := None; resume := Some true; verbose := None;
     recursive := None; cache := true |}.

(** A constructor of queues that takes whatever options it is given. *)
Definition anyQueue (options : PQueue.Options) : Outcome PQueue.Options := inl options.

(** A provider that classifies every image. *)
Definition alwaysClassifies (earlier : list string) (path : string)
    : Outcome ClassificationResult :=
  inl (Json.JObject [("costUsd", Json.ofZ 5)]).

(** A provider that times out on its first two requests. *)
Definition timesOutTwice (earlier : list string) (path : string)
    : Outcome ClassificationResult :=
  if (length earlier <? 2)%nat then inr (newError "Request TIMEOUT")
  else inl (Json.JObject [("costUsd", Json.ofZ 5)]).

(** The record that an earlier run wrote for [a.png], under the id that
    the batch input gave the image then. *)
Definition earlierRecordA : BatchResultItem :=
  successItem "a-earlier" "a.png" (Json.JObject [("costUsd", Json.ofZ 5)]) (-1000).

(** The disk after an earlier run that got as far as [a.png]. *)
Definition interruptedDisk : Disk :=
  {| files := {[ "out.jsonl" := written toISOString earlierRecordA ]} |}.

(** The state in which the task of the first item starts, on an empty disk. *)
Definition freshState : State :=
  let start :=
    initialize toISOString 1 (BatchResultManager.new "out.jsonl" None "batch-1" 0)
      emptyDisk in
  {| resultManager := fst start;
     progressTracker :=
       {| p_total := 1; p_completed := 0; p_successful := 0; p_failed := 0;
          p_skipped := 0 |};
     world := setDisk (snd start) (initialWorld emptyDisk) |}.

(** A budget whose only limit is $1.00 a request. *)
Definition oneDollarARequest : BudgetManager.t :=
  BudgetManager.new
    {| BudgetManager.dailyLimit := None; BudgetManager.weeklyLimit := None;
       BudgetManager.monthlyLimit := None;
       BudgetManager.perRequestLimit := Some 1%float;
       BudgetManager.providerLimits := None |}
    0 0 0.

(** A budget whose only limit is $10.00 a day. *)
Definition tenDollarsADay : BudgetManager.t :=
  BudgetManager.new
    (BudgetManager.onlyCeiling BudgetManager.DailyCeiling BudgetManager.usd_10) 0 0 0.

(** A budget with no limit. *)
Definition unlimitedBudget : BudgetManager.t :=
  BudgetManager.new BudgetManager.noLimits 0 0 0.

(** A function that always times out. *)
Definition alwaysTimesOut (k : nat) : Outcome unit := inr (newError "Request TIMEOUT").

(** A function that times out twice and then returns 7. *)
Definition thirdTimeLucky (k : nat) : Outcome Z :=
  if (k <? 3)%nat then inr (newError "Request TIMEOUT") else inl 7.

(** A function that is refused for its key. *)
Definition badKey (k : nat) : Outcome unit := inr (newError "Invalid API key").

Definition attemptsOption (n : Z) : RetryLogic.RetryOptions :=
  {| RetryLogic.maxAttempts := Some n; RetryLogic.initialDelayMs := None;
     RetryLogic.maxDelayMs := None; RetryLogic.backoffMultiplier := None;
     RetryLogic.retryableErrors := None |}.

End Sample.

(* ===================================================================== *)
(** * Part II: properties                                                 *)
(* ===================================================================== *)

(** ** The order of the numbers *)

Section FloatOrder.

Lemma SFcompare_antisym (x y : spec_float) :
  SFcompare y x = option_map CompOpp (SFcompare x y).
Proof.
  destruct x as [sx|sx| |sx mx ex], y as [sy|sy| |sy my ey]; cbn;
    try reflexivity; try (destruct sx; reflexivity); try (destruct sy; reflexivity);
    try (destruct sx, sy; reflexivity).
  assert (Hm : PosDef.Pos.compare_cont Eq my mx
               = CompOpp (PosDef.Pos.compare_cont Eq mx my))
    by (symmetry; apply (Pos.compare_cont_antisym mx my Eq)).
  destruct sx, sy; cbn; try reflexivity;
    rewrite (Z.compare_antisym ex ey); destruct (ex ?= ey); cbn; try reflexivity;
    rewrite Hm; now rewrite ?CompOpp_involutive.
Qed.

Lemma is_nan_false (x : float) :
  is_nan x = false <-> Prim2SF x <> S754_nan.
Proof.
  unfold is_nan. rewrite FloatAxioms.eqb_spec. unfold SFeqb.
  destruct (Prim2SF x) as [s|s| |s m e]; cbn.
  - split; [discriminate | reflexivity].
  - destruct s; split; (discriminate || reflexivity).
  - split; [discriminate | congruence].
  - destruct s; rewrite Z.compare_refl, Pos.compare_cont_refl; cbn;
      split; (discriminate || reflexivity).
Qed.

Lemma SFcompare_Some (x y : spec_float) :
  x <> S754_nan -> y <> S754_nan -> exists c, SFcompare x y = Some c.
Proof.
  destruct x, y; cbn; intros Hx Hy; try congruence; eauto.
Qed.

Lemma float_ltb_leb (x y : float) : (x <? y)%float = true -> (x <=? y)%float = true.
Proof.
  rewrite FloatAxioms.ltb_spec, FloatAxioms.leb_spec. unfold SFltb, SFleb.
  destruct (SFcompare _ _) as [[]|]; congruence.
Qed.

Lemma float_ltb_not_nan (x y : float) :
  (x <? y)%float = true -> is_nan x = false /\ is_nan y = false.
Proof.
  rewrite FloatAxioms.ltb_spec, !is_nan_false. unfold SFltb.
  destruct (Prim2SF x), (Prim2SF y); cbn; try discriminate; split; discriminate.
Qed.

Lemma float_leb_not_nan (x y : float) :
  (x <=? y)%float = true -> is_nan x = false /\ is_nan y = false.
Proof.
  rewrite FloatAxioms.leb_spec, !is_nan_false. unfold SFleb.
  destruct (Prim2SF x), (Prim2SF y); cbn; try discriminate; split; discriminate.
Qed.

(** Two numbers compare one way or the other. *)
Lemma float_ltb_total (x y : float) :
  is_nan x = false -> is_nan y = false -> (x <? y)%float = negb (y <=? x)%float.
Proof.
  rewrite !is_nan_false, FloatAxioms.ltb_spec, FloatAxioms.leb_spec. unfold SFltb, SFleb. intros Hx Hy.
  rewrite (SFcompare_antisym (Prim2SF x) (Prim2SF y)).
  destruct (SFcompare_Some _ _ Hx Hy) as (c & ->). destruct c; reflexivity.
Qed.

Lemma float_leb_refl (x : float) : is_nan x = false -> (x <=? x)%float = true.
Proof.
  intros Hx. pose proof (float_ltb_total x x Hx Hx) as Ht.
  destruct (x <=? x)%float eqn:Hle; [reflexivity|].
  cbn in Ht. apply float_ltb_leb in Ht. congruence.
Qed.

Lemma float_eqb_of_leb (x y : float) :
  (x <=? y)%float = true -> (x <? y)%float = false -> (y =? x)%float = true.
Proof.
  rewrite FloatAxioms.leb_spec, FloatAxioms.ltb_spec, FloatAxioms.eqb_spec. unfold SFleb, SFltb, SFeqb.
  rewrite (SFcompare_antisym (Prim2SF x) (Prim2SF y)).
  destruct (SFcompare _ _) as [[]|]; cbn; congruence.
Qed.

(** [Math.min] and [Math.max] against a bound that is not a zero of the
    wrong sign. *)
Lemma min_bound (hi x : float) :
  is_nan hi = false -> JsMath.isPositiveZero hi = false -> is_nan x = false ->
  JsMath.min hi x = if (x <? hi)%float then x else hi.
Proof.
  intros Hhi Hz Hx. unfold JsMath.min. now rewrite Hhi, Hx, Hz, andb_false_r.
Qed.

Lemma max_bound (lo x : float) :
  is_nan lo = false -> JsMath.isNegativeZero lo = false -> is_nan x = false ->
  JsMath.max lo x = if (lo <? x)%float then x else lo.
Proof.
  intros Hlo Hz Hx. unfold JsMath.max. now rewrite Hlo, Hx, Hz, andb_false_r.
Qed.

(** [Math.max(lo, Math.min(hi, x))] *)
Lemma clamp_spec (lo hi x : float) :
  (lo <? hi)%float = true ->
  JsMath.isNegativeZero lo = false -> JsMath.isPositiveZero hi = false ->
  is_nan x = false ->
  let r := JsMath.max lo (JsMath.min hi x) in
  r = (if (x <? hi)%float then if (lo <? x)%float then x else lo else hi)
  /\ (lo <=? r)%float = true
  /\ (r <=? hi)%float = true.
Proof.
  intros Hlt Hlo Hhi Hx r. subst r.
  destruct (float_ltb_not_nan lo hi Hlt) as (Hnlo & Hnhi).
  pose proof (float_ltb_leb lo hi Hlt) as Hle.
  rewrite (min_bound hi x Hnhi Hhi Hx).
  destruct (x <? hi)%float eqn:Hxhi.
  - rewrite (max_bound lo x Hnlo Hlo Hx).
    destruct (lo <? x)%float eqn:Hlox.
    + repeat split; now apply float_ltb_leb.
    + repeat split; [now apply float_leb_refl | exact Hle].
  - rewrite (max_bound lo hi Hnlo Hlo Hnhi), Hlt.
    repeat split; [exact Hle | now apply float_leb_refl].
Qed.

Lemma float_eqb_sym (x y : float) : (x =? y)%float = (y =? x)%float.
Proof.
  rewrite !FloatAxioms.eqb_spec. unfold SFeqb.
  rewrite (SFcompare_antisym (Prim2SF x) (Prim2SF y)).
  destruct (SFcompare _ _) as [[]|]; reflexivity.
Qed.

Lemma float_eqb_refl (x : float) : is_nan x = false -> (x =? x)%float = true.
Proof.
  intros Hx. apply float_eqb_of_leb; [now apply float_leb_refl|].
  rewrite (float_ltb_total x x Hx Hx), float_leb_refl by exact Hx. reflexivity.
Qed.

(** A number below 0 is below 1. *)
Lemma float_negative_below_one (x : float) :
  (x <? 0)%float = true -> (x <? 1)%float = true.
Proof.
  rewrite !FloatAxioms.ltb_spec.
  replace (Prim2SF 0) with (S754_zero false) by (vm_compute; reflexivity).
  replace (Prim2SF 1) with (S754_finite false 4503599627370496 (-52))
    by (vm_compute; reflexivity).
  unfold SFltb. intros Hneg.
  destruct (Prim2SF x) as [s|s| |s m e]; try destruct s; try discriminate Hneg;
    reflexivity.
Qed.

(** *** Zeros, equal numbers and [Math.min] *)

Lemma Prim2SF_inj (x y : float) : Prim2SF x = Prim2SF y -> x = y.
Proof.
  intros H. rewrite <- (SF2Prim_Prim2SF x), <- (SF2Prim_Prim2SF y). now rewrite H.
Qed.

Lemma is_zero_spec (x : float) :
  is_zero x = true <-> exists s, Prim2SF x = S754_zero s.
Proof.
  unfold is_zero. rewrite FloatAxioms.eqb_spec.
  change (Prim2SF 0%float) with (Prim2SF PrimFloat.zero).
  replace (Prim2SF PrimFloat.zero) with (S754_zero false) by (vm_compute; reflexivity).
  unfold SFeqb. destruct (Prim2SF x) as [s|s| |s m e]; cbn.
  - split; [eauto | reflexivity].
  - destruct s; split; try discriminate; intros (s' & H); discriminate H.
  - split; [discriminate | intros (s' & H); discriminate H].
  - destruct s; split; try discriminate; intros (s' & H); discriminate H.
Qed.

Lemma zero_signs (x : float) (s : bool) :
  Prim2SF x = S754_zero s ->
  JsMath.isNegativeZero x = s /\ JsMath.isPositiveZero x = negb s.
Proof.
  intros Hx.
  assert (Hz : is_zero x = true) by (apply is_zero_spec; eauto).
  assert (Hn : is_nan x = false) by (apply is_nan_false; rewrite Hx; discriminate).
  assert (Hs : get_sign x = s).
  { unfold Prim2SF in Hx. rewrite Hn, Hz in Hx. now injection Hx. }
  unfold JsMath.isNegativeZero, JsMath.isPositiveZero. rewrite Hz, Hs. auto.
Qed.

(** Numbers that compare as equal are the same number, or two zeros. *)
Lemma SFcompare_Eq (x y : spec_float) :
  SFcompare x y = Some Eq ->
  x = y \/ exists s s', x = S754_zero s /\ y = S754_zero s'.
Proof.
  destruct x as [sx|sx| |sx mx ex], y as [sy|sy| |sy my ey]; cbn;
    try discriminate; try (destruct sx; discriminate); try (destruct sy; discriminate).
  - eauto.
  - destruct sx, sy; try discriminate; auto.
  - intros H. left.
    destruct sx, sy; try discriminate;
      destruct (Z.compare_spec ex ey) as [->| |]; try discriminate;
      injection H as H;
      [apply (f_equal CompOpp) in H; rewrite CompOpp_involutive in H; cbn in H|];
      assert (Hm : (mx ?= my)%positive = Eq) by exact H;
      apply Pos.compare_eq in Hm; now subst.
Qed.

(** [Math.min] does not mind the order of its arguments. *)
Lemma min_comm (a b : float) : JsMath.min a b = JsMath.min b a.
Proof.
  unfold JsMath.min. rewrite (orb_comm (is_nan a)).
  destruct (is_nan b || is_nan a) eqn:Hnan; [reflexivity|].
  apply orb_false_elim in Hnan as (Hb & Ha).
  pose proof (proj1 (is_nan_false a) Ha) as Hsa.
  pose proof (proj1 (is_nan_false b) Hb) as Hsb.
  destruct (SFcompare_Some _ _ Hsa Hsb) as (c & Hc).
  assert (Hc' : SFcompare (Prim2SF b) (Prim2SF a) = Some (CompOpp c))
    by (rewrite SFcompare_antisym, Hc; reflexivity).
  rewrite !FloatAxioms.ltb_spec. unfold SFltb. rewrite Hc, Hc'.
  assert (Hzeros : forall sa sb,
            Prim2SF a = S754_zero sa -> Prim2SF b = S754_zero sb -> c = Eq).
  { intros sa sb Hza Hzb. rewrite Hza, Hzb in Hc. cbn in Hc. congruence. }
  destruct c; cbn [CompOpp].
  - destruct (SFcompare_Eq _ _ Hc) as [Heq|(sa & sb & Hza & Hzb)].
    + apply Prim2SF_inj in Heq. subst b.
      repeat match goal with |- context [if ?t then _ else _] => destruct t end;
        reflexivity.
    + destruct (zero_signs a sa Hza) as (-> & ->).
      destruct (zero_signs b sb Hzb) as (-> & ->).
      destruct sa, sb; cbn; try reflexivity;
        apply Prim2SF_inj; congruence.
  - assert (Hno : JsMath.isNegativeZero b && JsMath.isPositiveZero a = false
                  /\ JsMath.isNegativeZero a && JsMath.isPositiveZero b = false).
    { split; apply not_true_iff_false; intros Hboth;
        apply andb_prop in Hboth as (H1 & H2);
        unfold JsMath.isNegativeZero, JsMath.isPositiveZero in H1, H2;
        apply andb_prop in H1 as (H1 & _); apply andb_prop in H2 as (H2 & _);
        apply is_zero_spec in H1 as (s1 & H1); apply is_zero_spec in H2 as (s2 & H2);
        first [ specialize (Hzeros _ _ H2 H1) | specialize (Hzeros _ _ H1 H2) ];
        discriminate. }
    destruct Hno as (-> & ->). reflexivity.
  - assert (Hno : JsMath.isNegativeZero b && JsMath.isPositiveZero a = false
                  /\ JsMath.isNegativeZero a && JsMath.isPositiveZero b = false).
    { split; apply not_true_iff_false; intros Hboth;
        apply andb_prop in Hboth as (H1 & H2);
        unfold JsMath.isNegativeZero, JsMath.isPositiveZero in H1, H2;
        apply andb_prop in H1 as (H1 & _); apply andb_prop in H2 as (H2 & _);
        apply is_zero_spec in H1 as (s1 & H1); apply is_zero_spec in H2 as (s2 & H2);
        first [ specialize (Hzeros _ _ H2 H1) | specialize (Hzeros _ _ H1 H2) ];
        discriminate. }
    destruct Hno as (-> & ->). reflexivity.
Qed.

(** [Math.min(a, b)] is at most [b], or it is NaN. *)
Lemma min_le_r (a b : float) :
  (JsMath.min a b <=? b)%float = true \/ is_nan (JsMath.min a b) = true.
Proof.
  unfold JsMath.min.
  destruct (is_nan a || is_nan b) eqn:Hnan; [right; reflexivity|].
  apply orb_false_elim in Hnan as (Ha & Hb). left.
  destruct (_ && _); [now apply float_leb_refl|].
  destruct (b <? a)%float eqn:Hlt; [now apply float_leb_refl|].
  rewrite (float_ltb_total b a Hb Ha) in Hlt. now apply negb_false_iff in Hlt.
Qed.

End FloatOrder.

(** ** Joining strings *)

Lemma append_String (c : ascii) (s t : string) :
  (String c s ++ t)%string = String c (s ++ t)%string.
Proof. reflexivity. Qed.

Lemma append_assoc (a b c : string) : ((a ++ b) ++ c)%string = (a ++ b ++ c)%string.
Proof.
  induction a as [|x a IH]; [reflexivity|]. rewrite !append_String. now rewrite IH.
Qed.

Lemma append_empty_r (a : string) : (a ++ "")%string = a.
Proof. induction a as [|x a IH]; [reflexivity|]. rewrite append_String. now rewrite IH. Qed.

(** ** RetryLogic.execute *)

Section RetryLogicFacts.

Import RetryLogic.

Context {T : Type}.
Variable pow : float -> Z -> float.
Variable opts : ResolvedOptions.
Variable behaviour : nat -> Outcome T.

Local Abbreviation loop := (attemptLoop pow probeSleep probeLog).
Local Abbreviation retriedAttempt := (RetryLogic.retriedAttempt pow).
Local Abbreviation backoffTrace := (RetryLogic.backoffTrace pow).
Local Abbreviation calculateDelay := (RetryLogic.calculateDelay pow).

(** One failed attempt below [maxAttempts] with a retryable error: the
    loop logs, sleeps and goes round again. *)
Lemma attemptLoop_retry remaining le p e :
  behaviour (S (invocations p)) = inr e ->
  isRetryableError e (r_retryableErrors opts) = true ->
  Z.of_nat (S (invocations p)) < r_maxAttempts opts ->
  loop (S remaining) (Z.of_nat (S (invocations p))) opts (scripted behaviour) le p
  = loop remaining (Z.of_nat (S (S (invocations p)))) opts (scripted behaviour) (Some e)
      {| invocations := S (invocations p);
         events := events p ++ retriedAttempt opts behaviour (S (invocations p)) |}.
Proof.
  intros Hb Hr Hlt.
  cbn [attemptLoop scripted]. rewrite Hb, Hr. cbn [negb orb].
  replace (r_maxAttempts opts <=? Z.of_nat (S (invocations p))) with false
    by (symmetry; apply Z.leb_gt; exact Hlt).
  replace (Z.of_nat (S (invocations p)) + 1) with (Z.of_nat (S (S (invocations p))))
    by lia.
  f_equal. unfold probeSleep, probeLog, RetryLogic.retriedAttempt, errorAt. cbn.
  rewrite Hb. f_equal. rewrite <- !app_assoc. reflexivity.
Qed.

(** [j] such attempts in a row. *)
Lemma attemptLoop_backoff j : forall remaining le p,
  (forall k, (invocations p < k <= invocations p + j)%nat ->
             failsTransiently opts behaviour k) ->
  Z.of_nat (invocations p + j) < r_maxAttempts opts ->
  exists le',
    loop (j + remaining) (Z.of_nat (S (invocations p))) opts (scripted behaviour) le p
    = loop remaining (Z.of_nat (S (invocations p + j))) opts (scripted behaviour) le'
        {| invocations := invocations p + j;
           events := events p ++ backoffTrace opts behaviour (invocations p) j |}.
Proof.
  induction j as [|j IH]; intros remaining le p Hfail Hlt.
  - exists le. rewrite Nat.add_0_r. unfold RetryLogic.backoffTrace. cbn.
    rewrite app_nil_r. destruct p; reflexivity.
  - destruct (Hfail (S (invocations p))) as (e & Hb & Hr); [lia|].
    cbn [Nat.add]. rewrite (attemptLoop_retry _ _ _ e Hb Hr) by lia.
    set (p1 := {| invocations := S (invocations p);
                  events := events p ++ retriedAttempt opts behaviour (S (invocations p)) |}).
    destruct (IH remaining (Some e) p1) as (le' & Heq).
    + intros k Hk. apply Hfail. cbn in Hk. lia.
    + cbn. rewrite <- Nat.add_succ_r. exact Hlt.
    + exists le'. change (S (S (invocations p))) with (S (invocations p1)).
      rewrite Heq. cbn [invocations events p1].
      replace (invocations p + S j)%nat with (S (invocations p) + j)%nat by lia.
      do 2 f_equal. unfold RetryLogic.backoffTrace. cbn [seq flat_map].
      rewrite <- app_assoc. reflexivity.
Qed.

(** Whatever happens, the loop only adds to the trace. *)
Lemma attemptLoop_extends remaining : forall attempt le p,
  exists tail : list Event,
    events (snd (loop remaining attempt opts (scripted behaviour) le p))
    = events p ++ tail.
Proof.
  induction remaining as [|remaining IH]; intros attempt le p.
  - exists []. cbn. now rewrite app_nil_r.
  - cbn [attemptLoop scripted].
    destruct (behaviour (S (invocations p))) as [v|e].
    + destruct (1 <? attempt); cbn.
      * exists [Invoked; Logged (RetrySucceeded attempt)].
        now rewrite <- app_assoc.
      * now exists [Invoked].
    + destruct (negb _ || _).
      * cbn. exists [Invoked; Logged (RequestFailed attempt (message e)
                   (isRetryableError e (r_retryableErrors opts)))].
        now rewrite <- app_assoc.
      * match goal with |- context [loop remaining ?a opts _ ?l ?q] =>
          destruct (IH a l q) as (tail & Htail) end.
        rewrite Htail. cbn. rewrite <- !app_assoc. eexists. reflexivity.
Qed.

Lemma sleeps_app evs1 evs2 : sleeps (evs1 ++ evs2) = sleeps evs1 ++ sleeps evs2.
Proof. unfold sleeps. apply omap_app. Qed.

Lemma sleeps_backoffTrace n j :
  sleeps (backoffTrace opts behaviour n j)
  = map (fun k => calculateDelay (Z.of_nat k) opts) (seq (S n) j).
Proof.
  unfold RetryLogic.backoffTrace. generalize (S n). induction j as [|j IH]; intros m.
  - reflexivity.
  - cbn [seq flat_map map]. rewrite sleeps_app, IH. reflexivity.
Qed.

End RetryLogicFacts.

Section RetryLogicClaims.

Import RetryLogic.

Context {T : Type}.

(** [Math.pow], whatever the implementation makes of it. *)
Variable pow : float -> Z -> float.

Local Abbreviation run := (RetryLogic.run pow).
Local Abbreviation backoffTrace := (RetryLogic.backoffTrace pow).
Local Abbreviation calculateDelay := (RetryLogic.calculateDelay pow).
Local Abbreviation specifiedDelay := (RetryLogic.specifiedDelay pow).

Lemma run_unfold (behaviour : nat -> Outcome T) options :
  run behaviour options
  = attemptLoop pow probeSleep probeLog (Z.to_nat (r_maxAttempts (resolve options)))
      (Z.of_nat (S (invocations freshProbe))) (resolve options) (scripted behaviour)
      None freshProbe.
Proof. reflexivity. Qed.

(** After [j] retried attempts the run stands at attempt [j + 1] with the
    trace [backoffTrace 0 j]. *)
Lemma run_backoff (behaviour : nat -> Outcome T) options (j remaining : nat) :
  let opts := resolve options in
  Z.to_nat (r_maxAttempts opts) = (j + remaining)%nat ->
  (forall k, (1 <= k <= j)%nat -> failsTransiently opts behaviour k) ->
  Z.of_nat j < r_maxAttempts opts ->
  exists le,
    run behaviour options
    = attemptLoop pow probeSleep probeLog remaining (Z.of_nat (S j)) opts
        (scripted behaviour) le
        {| invocations := j; events := backoffTrace opts behaviour 0 j |}.
Proof.
  intros opts Hm Hfail Hlt. rewrite run_unfold. fold opts. rewrite Hm.
  destruct (attemptLoop_backoff pow opts behaviour j remaining None freshProbe)
    as (le & Heq).
  - intros k Hk. apply Hfail. cbn in Hk. lia.
  - exact Hlt.
  - exists le. exact Heq.
Qed.

(** C6 (amended).  When [maxAttempts] is at least 1 and the first
    invocation of the function rejects with an error that
    [isRetryableError] does not classify as retryable, [execute] invokes
    the function exactly once and rejects with that very error; the only
    other thing it does is to log the failure: it never sleeps and never
    calls the function again, however large [maxAttempts] is. *)
Theorem nonretryable_error_is_not_retried
    (behaviour : nat -> Outcome T) (options : RetryOptions) (e : JsError) :
  1 <= r_maxAttempts (resolve options) ->
  behaviour 1%nat = inr e ->
  isRetryableError e (r_retryableErrors (resolve options)) = false ->
  run behaviour options
  = (inr e,
     {| invocations := 1;
        events := [Invoked; Logged (RequestFailed 1 (message e) false)] |})
  /\ sleeps (events (snd (run behaviour options))) = [].
Proof.
  intros Hm Hb Hr.
  assert (Hrun : run behaviour options
                 = (inr e,
                    {| invocations := 1;
                       events := [Invoked; Logged (RequestFailed 1 (message e) false)] |})).
  { rewrite run_unfold.
    destruct (Z.to_nat (r_maxAttempts (resolve options))) as [|remaining] eqn:Hn; [lia|].
    cbn [attemptLoop scripted freshProbe invocations events].
    rewrite Hb, Hr. reflexivity. }
  split; [exact Hrun | now rewrite Hrun].
Qed.

(** C5 (amended).  Let [maxAttempts] be at least 1.  A function whose
    first [maxAttempts - 1] invocations reject with retryable errors and
    whose invocation number [maxAttempts] resolves to [v] makes [execute]
    resolve to [v] after exactly [maxAttempts] invocations and
    [maxAttempts - 1] backoff sleeps; the attempt number is reported to
    the logger only ('Retry succeeded', and only when it is above 1).  A
    function all of whose [maxAttempts] invocations reject with retryable
    errors makes [execute] reject, after exactly [maxAttempts]
    invocations, with the error of the last invocation itself, as the
    function threw it; the attempt number goes to the logger ('Request
    failed') and is not attached to the error. *)
Theorem retry_until_maxAttempts
    (behaviour : nat -> Outcome T) (options : RetryOptions) (m : nat) :
  let opts := resolve options in
  r_maxAttempts opts = Z.of_nat (S m) ->
  (forall k, (1 <= k <= m)%nat -> failsTransiently opts behaviour k) ->
  (forall v, behaviour (S m) = inl v ->
     run behaviour options
     = (inl v,
        {| invocations := S m;
           events :=
             backoffTrace opts behaviour 0 m ++ [Invoked]
             ++ (if (1 <=? m)%nat then [Logged (RetrySucceeded (Z.of_nat (S m)))]
                 else []) |}))
  /\ (forall e, behaviour (S m) = inr e ->
        isRetryableError e (r_retryableErrors opts) = true ->
        run behaviour options
        = (inr e,
           {| invocations := S m;
              events :=
                backoffTrace opts behaviour 0 m
                ++ [Invoked; Logged (RequestFailed (Z.of_nat (S m)) (message e) true)] |})).
Proof.
  intros opts Hm Hfail.
  destruct (run_backoff behaviour options m 1) as (le & Hrun);
    [fold opts; lia | exact Hfail | fold opts; lia |].
  fold opts in Hrun. split.
  - intros v Hv. rewrite Hrun.
    cbn [attemptLoop scripted invocations events]. rewrite Hv.
    destruct m as [|m].
    + reflexivity.
    + replace (1 <? Z.of_nat (S (S m))) with true by (symmetry; apply Z.ltb_lt; lia).
      cbn [Nat.leb]. unfold probeLog. cbn [invocations events].
      rewrite <- app_assoc. reflexivity.
  - intros e He Hr. rewrite Hrun.
    cbn [attemptLoop scripted invocations events]. rewrite He, Hr.
    cbn [negb orb].
    replace (r_maxAttempts opts <=? Z.of_nat (S m)) with true
      by (symmetry; apply Z.leb_le; lia).
    unfold probeLog. cbn [invocations events].
    rewrite <- app_assoc. reflexivity.
Qed.

(** C7.  For every attempt number [n >= 1] and every retry configuration,
    [calculateDelay n] is
    [min (maxDelay, initialDelay * multiplier ^ (n - 1))], computed in the
    numbers of the language (binary64, with [Math.pow] as the
    implementation has it); and it is the delay before the retry that
    follows a failed attempt [n]: in a run in which the attempts [1 .. n]
    all fail with retryable errors and [n] is below [maxAttempts], the
    [n]-th backoff sleep, between attempt [n] and attempt [n + 1], lasts
    [calculateDelay n]. *)
Theorem backoff_delay_after_attempt (options : RetryOptions) (n : nat) :
  let opts := resolve options in
  (1 <= n)%nat ->
  calculateDelay (Z.of_nat n) opts
  = specifiedDelay (Z.of_nat n) (r_initialDelayMs opts) (r_backoffMultiplier opts)
      (r_maxDelayMs opts)
  /\ forall behaviour : nat -> Outcome T,
       (forall k, (1 <= k <= n)%nat -> failsTransiently opts behaviour k) ->
       Z.of_nat n < r_maxAttempts opts ->
       sleeps (events (snd (run behaviour options))) !! (n - 1)%nat
       = Some (calculateDelay (Z.of_nat n) opts).
Proof.
  intros opts Hn.
  assert (Hformula : calculateDelay (Z.of_nat n) opts
                     = specifiedDelay (Z.of_nat n) (r_initialDelayMs opts)
                         (r_backoffMultiplier opts) (r_maxDelayMs opts))
    by (unfold RetryLogic.calculateDelay, RetryLogic.specifiedDelay; apply min_comm).
  split; [exact Hformula|].
  intros behaviour Hfail Hlt.
  destruct (run_backoff behaviour options n (Z.to_nat (r_maxAttempts opts) - n))
    as (le & Hrun); [fold opts; lia | exact Hfail | exact Hlt |].
  fold opts in Hrun. rewrite Hrun.
  match goal with |- context [attemptLoop _ _ _ ?r ?a opts _ ?l ?q] =>
    destruct (attemptLoop_extends pow opts behaviour r a l q) as (tail & Htail) end.
  rewrite Htail. cbn [events].
  rewrite sleeps_app, sleeps_backoffTrace.
  rewrite lookup_app_l by (rewrite length_map, length_seq; lia).
  rewrite list_lookup_fmap, lookup_seq_lt by lia.
  cbn. do 3 f_equal. lia.
Qed.

End RetryLogicClaims.

(** ** CircuitBreaker *)

Section CircuitBreakerFacts.

Import CircuitBreaker.

Context {W : Type}.
Variable now : W -> Z.
Variable toISOString : Z -> string.

Local Abbreviation exec := (execute now toISOString).
Local Abbreviation inv := invariant.

Ltac breaker_cases :=
  repeat match goal with
    | |- context [?a <=? ?b] => destruct (Z.leb_spec a b)
    | H : context [?a <=? ?b] |- _ => destruct (Z.leb_spec a b)
    end.

Lemma execute_options {T} (b : t) (fn : Async W T) (w : W) :
  options (snd (fst (exec b fn w))) = options b.
Proof.
  unfold execute, enter, onSuccess, onFailure, trip, reset, setState.
  destruct b as [[] f s lf nr o]; cbn;
    try destruct (shouldAttemptReset now _ w); cbn; try reflexivity;
    destruct (fn w) as [[v|e] w1]; cbn; breaker_cases; reflexivity.
Qed.

(** A call that returns: what it does to the breaker. *)
Lemma execute_returns {T} (b : t) (fn : Async W T) (w : W) v b1 w1 :
  exec b fn w = (inl v, b1, w1) ->
  fn w = (inl v, w1)
  /\ ((state b = open /\ shouldAttemptReset now b w = true
       /\ b1 = onSuccess (setState half_open b))
      \/ (state b <> open /\ b1 = onSuccess b)).
Proof.
  unfold execute, enter. destruct (state b) eqn:Hst.
  - destruct (fn w) as [[v'|e'] w']; intros [= <- <- <-].
    split; [reflexivity|]. right. split; [discriminate | reflexivity].
  - destruct (shouldAttemptReset now b w); [|discriminate].
    destruct (fn w) as [[v'|e'] w']; intros [= <- <- <-]. auto.
  - destruct (fn w) as [[v'|e'] w']; intros [= <- <- <-].
    split; [reflexivity|]. right. split; [discriminate | reflexivity].
Qed.

(** A call that throws: either the breaker rejected it or the function threw. *)
Lemma execute_throws {T} (b : t) (fn : Async W T) (w : W) e b1 w1 :
  exec b fn w = (inr e, b1, w1) ->
  (state b = open /\ shouldAttemptReset now b w = false
   /\ e = openError toISOString b /\ b1 = b /\ w1 = w)
  \/ (state b = open /\ shouldAttemptReset now b w = true /\ fn w = (inr e, w1)
      /\ b1 = onFailure now (setState half_open b) w1)
  \/ (state b <> open /\ fn w = (inr e, w1) /\ b1 = onFailure now b w1).
Proof.
  unfold execute, enter. destruct (state b) eqn:Hst.
  - destruct (fn w) as [[v'|e'] w']; intros [= <- <- <-].
    right; right. repeat split; discriminate || reflexivity.
  - destruct (shouldAttemptReset now b w).
    + destruct (fn w) as [[v'|e'] w']; intros [= <- <- <-].
      right; left. repeat split; reflexivity.
    + intros [= <- <- <-]. left. repeat split; reflexivity.
  - destruct (fn w) as [[v'|e'] w']; intros [= <- <- <-].
    right; right. repeat split; discriminate || reflexivity.
Qed.

Lemma onSuccess_invariant (b : t) :
  0 < o_failureThreshold (options b) -> 0 < o_successThreshold (options b) ->
  state b <> open -> inv b -> inv (onSuccess b).
Proof.
  intros HF HH Ho. unfold invariant, onSuccess.
  destruct b as [st f s lf nr o]; cbn in *. destruct st; try congruence; cbn.
  - lia.
  - intros (Hf & Hs & tf & Hl & Hn). breaker_cases; cbn; [lia|].
    repeat split; try lia. eauto.
Qed.

Lemma onFailure_invariant (b : t) (w : W) :
  0 < o_failureThreshold (options b) ->
  state b <> open -> inv b -> inv (onFailure now b w).
Proof.
  intros HF Ho. unfold invariant, onFailure, trip.
  destruct b as [st f s lf nr o]; cbn in *. destruct st; try congruence; cbn.
  - intros Hf. breaker_cases; cbn; [|lia]. repeat split; try lia. eauto.
  - intros (Hf & Hs & tf & Hl & Hn). breaker_cases; cbn; [|lia].
    repeat split; try lia. eauto.
Qed.

Lemma setState_half_open_invariant (b : t) :
  0 < o_successThreshold (options b) ->
  state b = open -> inv b -> inv (setState half_open b).
Proof.
  intros HH Ho. unfold invariant, setState.
  destruct b as [st f s lf nr o]; cbn in *. subst st.
  intros (Hf & Hs & Ht). repeat split; try lia. exact Ht.
Qed.

Lemma execute_invariant {T} (b : t) (fn : Async W T) (w : W) :
  0 < o_failureThreshold (options b) -> 0 < o_successThreshold (options b) ->
  inv b -> inv (snd (fst (exec b fn w))).
Proof.
  intros HF HH Hinv.
  destruct (exec b fn w) as [[[v|e] b1] w1] eqn:Hx; cbn.
  - apply execute_returns in Hx as (_ & [(Ho & _ & ->)|(Ho & ->)]).
    + apply onSuccess_invariant; cbn; try assumption; try discriminate.
      now apply setState_half_open_invariant.
    + now apply onSuccess_invariant.
  - apply execute_throws in Hx
      as [(_ & _ & _ & -> & _)|[(Ho & _ & _ & ->)|(Ho & _ & ->)]].
    + exact Hinv.
    + apply onFailure_invariant; cbn; try assumption; try discriminate.
      now apply setState_half_open_invariant.
    + now apply onFailure_invariant.
Qed.

Lemma inTurn_invariant (opts : CircuitBreakerOptions) (b : t) :
  0 < o_failureThreshold (options (new opts)) ->
  0 < o_successThreshold (options (new opts)) ->
  inTurn now toISOString opts b ->
  options b = options (new opts) /\ inv b.
Proof.
  intros HF HH. induction 1 as [|T b fn w Hr [Ho Hi]|b Hr [Ho Hi]].
  - split; [reflexivity|]. unfold invariant. cbn in *. lia.
  - split.
    + now rewrite execute_options.
    + apply execute_invariant; rewrite ?Ho; assumption.
  - split; [exact Ho|]. unfold invariant, forceReset, reset. cbn.
    rewrite Ho. lia.
Qed.

(** Calls that take turns are a special case of calls that overlap. *)
Lemma inTurn_reachable (opts : CircuitBreakerOptions) (b : t) :
  inTurn now toISOString opts b -> reachable now toISOString opts b.
Proof.
  induction 1 as [|T b fn w Hr IH|b Hr IH].
  - constructor.
  - unfold execute. destruct (enter now toISOString b w) as [b1|err] eqn:He; [|exact IH].
    pose proof (reachable_enter now toISOString opts b w b1 IH He) as Hr1.
    destruct (fn w) as [[v|e] w1]; cbn.
    + now apply reachable_onSuccess.
    + now apply reachable_onFailure.
  - now apply reachable_forceReset.
Qed.

(** What every state of the breaker satisfies, in whatever order calls
    start and settle. *)
Lemma reachable_sound (opts : CircuitBreakerOptions) (b : t) :
  0 < o_failureThreshold (options (new opts)) ->
  reachable now toISOString opts b ->
  options b = options (new opts) /\ sound b.
Proof.
  intros HF.
  induction 1 as [|b w b1 Hr [Ho Hs] He|b Hr [Ho Hs]|b w Hr [Ho Hs]|b Hr [Ho Hs]].
  - split; [reflexivity|]. unfold sound. cbn in *.
    repeat split; try lia. intros Hne. now destruct Hne.
  - unfold enter in He. rewrite <- Ho in HF.
    destruct b as [st f s lf nr o]; cbn in *.
    destruct st; try (injection He as <-; split; [exact Ho | exact Hs]).
    destruct (shouldAttemptReset now _ w); [|discriminate].
    injection He as <-. split; [exact Ho|].
    unfold sound in *; cbn in *. destruct Hs as (Hf & Hsu & _ & Hn).
    repeat split; try assumption; try discriminate.
    intros _. apply Hn. discriminate.
  - rewrite <- Ho in HF. unfold onSuccess, reset, sound in *.
    destruct b as [st f s lf nr o]; cbn in *. destruct Hs as (Hf & Hsu & Hc & Hn).
    destruct st; cbn; breaker_cases; cbn; split; try exact Ho;
      repeat split; try lia; try congruence;
      intros Hne; try (now destruct Hne); apply Hn; discriminate.
  - rewrite <- Ho in HF. unfold onFailure, trip, sound in *.
    destruct b as [st f s lf nr o]; cbn in *. destruct Hs as (Hf & Hsu & Hc & Hn).
    breaker_cases; cbn; split; try exact Ho;
      repeat split; try lia; try discriminate; eauto.
  - split; [exact Ho|]. unfold sound, forceReset, reset. cbn. rewrite Ho.
    repeat split; try lia. intros Hne. now destruct Hne.
Qed.

(** A closed breaker: nothing more is known of it when calls take turns. *)
Lemma sound_closed_invariant (b : t) : state b = closed -> sound b -> inv b.
Proof.
  intros Hc (Hf & _ & Hlt & _). unfold invariant. rewrite Hc. split; auto.
Qed.

Lemma failedRuns_invariant n (b b' : t) :
  failedRuns now toISOString n b b' ->
  0 < o_failureThreshold (options b) -> 0 < o_successThreshold (options b) ->
  inv b -> options b' = options b /\ inv b'.
Proof.
  induction 1 as [|n T b fn w e b1 w1 b2 Hx _ IH]; intros HF HH Hinv; [auto|].
  assert (Ho : options b1 = options b)
    by (replace b1 with (snd (fst (exec b fn w))) by (now rewrite Hx);
        apply execute_options).
  assert (Hinv1 : inv b1)
    by (replace b1 with (snd (fst (exec b fn w))) by (now rewrite Hx);
        now apply execute_invariant).
  rewrite Ho in IH. destruct (IH HF HH Hinv1) as (Ho2 & Hinv2). split; congruence.
Qed.

(** One call that throws. *)
Lemma failed_step {T} (b : t) (fn : Async W T) (w : W) e b1 w1 :
  exec b fn w = (inr e, b1, w1) -> inv b ->
  let F := o_failureThreshold (options b) in
  (state b = closed -> failures b + 1 < F ->
     state b1 = closed /\ failures b1 = failures b + 1)
  /\ (state b = closed -> F <= failures b + 1 -> state b1 = open)
  /\ (state b <> closed -> state b1 = open).
Proof.
  intros Hx Hinv.
  apply execute_throws in Hx
    as [(Ho & _ & _ & -> & _)|[(Ho & _ & _ & ->)|(Ho & _ & ->)]];
    unfold invariant in Hinv; unfold onFailure, trip, setState;
    destruct b as [[] f s lf nr o]; cbn in *; try congruence;
    repeat split; intros; breaker_cases; cbn; try congruence; lia.
Qed.

Lemma failedRuns_state n (b b' : t) :
  failedRuns now toISOString n b b' ->
  let F := o_failureThreshold (options b) in
  0 < F -> 0 < o_successThreshold (options b) -> inv b ->
  (state b = closed -> F <= failures b + Z.of_nat n -> state b' = open)
  /\ (state b = closed -> failures b + Z.of_nat n < F ->
        state b' = closed /\ failures b' = failures b + Z.of_nat n)
  /\ (state b <> closed -> (1 <= n)%nat -> state b' = open).
Proof.
  induction 1 as [|n T b fn w e b1 w1 b2 Hx Hruns IH]; intros F HF HH Hinv.
  - unfold invariant in Hinv. subst F.
    repeat split; intros; try lia; try assumption;
      destruct (state b); try congruence; lia.
  - assert (Ho : options b1 = options b)
      by (replace b1 with (snd (fst (exec b fn w))) by (now rewrite Hx);
          apply execute_options).
    assert (Hinv1 : inv b1)
      by (replace b1 with (snd (fst (exec b fn w))) by (now rewrite Hx);
          now apply execute_invariant).
    destruct (failed_step b fn w e b1 w1 Hx Hinv) as (Hc1 & Hc2 & Hc3).
    cbn zeta in IH. rewrite Ho in IH.
    destruct (IH HF HH Hinv1) as (IH1 & IH2 & IH3).
    fold F in Hc1, Hc2, IH1, IH2.
    assert (Hopen : state b1 = open -> state b2 = open).
    { intros Hb1. destruct n as [|n].
      - inversion Hruns; subst. exact Hb1.
      - apply IH3; [congruence | lia]. }
    repeat split.
    + intros Hc Hge. destruct (Z.lt_ge_cases (failures b + 1) F) as [Hlt|Hle].
      * destruct (Hc1 Hc Hlt) as (Hs1 & Hf1). apply IH1; [exact Hs1 | lia].
      * apply Hopen. now apply Hc2.
    + destruct (Hc1 H) as (Hs1 & Hf1); [lia|].
      destruct (IH2 Hs1) as (Hs2 & Hf2); [lia | exact Hs2].
    + destruct (Hc1 H) as (Hs1 & Hf1); [lia|].
      destruct (IH2 Hs1) as (Hs2 & Hf2); lia.
    + intros Hnc _. apply Hopen. now apply Hc3.
Qed.

(** Calls that returned, on a breaker that other calls may have left in
    any state: each one counts a success, and the breaker closes as soon
    as the count reaches the threshold. *)
Lemma succeededRuns_close n (b b' : t) :
  succeededRuns now toISOString n b b' ->
  let H := o_successThreshold (options b) in
  (state b = closed -> state b' = closed)
  /\ ((1 <= n)%nat -> H <= successes b + Z.of_nat n -> state b' = closed).
Proof.
  induction 1 as [|n T b fn w v b1 w1 b2 Hx Hruns IH]; intros H.
  - split; [auto | lia].
  - assert (Ho : options b1 = options b)
      by (replace b1 with (snd (fst (exec b fn w))) by (now rewrite Hx);
          apply execute_options).
    cbn zeta in IH. rewrite Ho in IH. fold H in IH. destruct IH as (IH1 & IH2).
    apply execute_returns in Hx as (_ & Hb1).
    assert (Hstep : (state b = closed -> state b1 = closed)
                    /\ (state b <> closed ->
                          (H <= successes b + 1 -> state b1 = closed)
                          /\ (successes b + 1 < H -> successes b1 = successes b + 1))).
    { subst H. destruct Hb1 as [(Hst & _ & ->)|(Hst & ->)];
        unfold onSuccess, reset, setState;
        destruct b as [[] f s lf nr o]; cbn in *; try congruence;
        repeat split; intros; breaker_cases; cbn; try congruence; lia. }
    destruct Hstep as (Hc & Hnc). split.
    + intros Hst. apply IH1. now apply Hc.
    + intros _ Hge. destruct (state b) eqn:Hst.
      * apply IH1. now apply Hc.
      * destruct Hnc as (Hclose & Hcount); [discriminate|].
        destruct (Z.lt_ge_cases (successes b + 1) H) as [Hlt|Hle].
        -- apply IH2; [lia|]. rewrite (Hcount Hlt). lia.
        -- apply IH1. now apply Hclose.
      * destruct Hnc as (Hclose & Hcount); [discriminate|].
        destruct (Z.lt_ge_cases (successes b + 1) H) as [Hlt|Hle].
        -- apply IH2; [lia|]. rewrite (Hcount Hlt). lia.
        -- apply IH1. now apply Hclose.
Qed.

(** A call that throws on a half-open breaker: [onFailure] looks at the
    count of failures only. *)
Lemma half_open_failure {T} (b : t) (fn : Async W T) (w : W) e b1 w1 :
  exec b fn w = (inr e, b1, w1) -> state b = half_open ->
  let F := o_failureThreshold (options b) in
  (F <= failures b + 1 -> state b1 = open)
  /\ (failures b + 1 < F -> state b1 = half_open /\ failures b1 = failures b + 1).
Proof.
  intros Hx Hst.
  apply execute_throws in Hx
    as [(Ho & _)|[(Ho & _)|(_ & _ & ->)]]; try congruence.
  unfold onFailure, trip. destruct b as [st f s lf nr o]; cbn in *. subst st.
  split; intros; breaker_cases; cbn; try lia; auto.
Qed.

(** An open breaker before its retry time: the call is rejected, the
    breaker and the world are as before, so the function did not run. *)
Lemma execute_open_rejects {T} (b : t) (fn : Async W T) (w : W) retryAt :
  state b = open -> nextRetryTime b = Some retryAt -> now w < retryAt ->
  exec b fn w = (inr (openError toISOString b), b, w).
Proof.
  intros Hs Hn Hlt. unfold execute, enter, shouldAttemptReset.
  rewrite Hs, Hn. now replace (retryAt <=? now w) with false by (symmetry; lia).
Qed.

(** An open breaker at or after its retry time: it turns half-open and
    the function runs. *)
Lemma execute_open_probes {T} (b : t) (fn : Async W T) (w : W) retryAt :
  state b = open -> nextRetryTime b = Some retryAt -> retryAt <= now w ->
  exec b fn w
  = match fn w with
    | (inl result, w1) => (inl result, onSuccess (setState half_open b), w1)
    | (inr error, w1) => (inr error, onFailure now (setState half_open b) w1, w1)
    end.
Proof.
  intros Hs Hn Hle. unfold execute, enter, shouldAttemptReset.
  rewrite Hs, Hn. now replace (retryAt <=? now w) with true by (symmetry; lia).
Qed.

End CircuitBreakerFacts.

Section CircuitBreakerClaims.

Import CircuitBreaker.

Context {W : Type}.
Variable now : W -> Z.
Variable toISOString : Z -> string.

Local Abbreviation exec := (execute now toISOString).

(** C3 (amended).  Take a breaker made with options whose thresholds in
    effect, [F] for failures and [H] for successes, are positive, and any
    state [b] that calls of [execute] and [forceReset] can leave it in,
    the calls overlapping or not.
    - If [b] is closed, then after [F] calls of [execute] in a row (each
      settled before the next starts, nothing else in between) that threw
      the breaker is open; its retry time is the time of the last failure
      plus the reset timeout, and a call made before that time throws
      'Circuit breaker is open. Next retry at ...' and leaves the breaker
      and the world untouched: the function is not invoked.
    - If [b] is open, a call made once the retry time is reached runs
      the function with the breaker half-open.
    - If [b] is open or half-open, then after [H] calls in a row that
      returned the breaker is closed.
    - If [b] is half-open, a call that throws leaves the breaker open
      when it brings the count of failures to [F] or more, and half-open,
      with one failure more, when it does not.
    - If the calls that led to [b] took turns and [b] is half-open, the
      count is at [F] already and a call that throws leaves the breaker
      open. *)
Theorem circuit_breaker_state_machine (opts : CircuitBreakerOptions) (b : t) :
  let F := o_failureThreshold (options (new opts)) in
  let H := o_successThreshold (options (new opts)) in
  let R := o_resetTimeoutMs (options (new opts)) in
  0 < F -> 0 < H ->
  reachable now toISOString opts b ->
  (state b = closed ->
     forall b', failedRuns now toISOString (Z.to_nat F) b b' ->
       state b' = open
       /\ exists tf,
            lastFailureTime b' = Some tf
            /\ nextRetryTime b' = Some (tf + R)
            /\ forall (T : Type) (fn : Async W T) (w : W),
                 now w < tf + R ->
                 exec b' fn w = (inr (openError toISOString b'), b', w))
  /\ (state b = open ->
        exists retryAt,
          nextRetryTime b = Some retryAt
          /\ forall (T : Type) (fn : Async W T) (w : W),
               retryAt <= now w ->
               exec b fn w
               = match fn w with
                 | (inl result, w1) =>
                     (inl result, onSuccess (setState half_open b), w1)
                 | (inr error, w1) =>
                     (inr error, onFailure now (setState half_open b) w1, w1)
                 end)
  /\ (state b = open \/ state b = half_open ->
        forall b', succeededRuns now toISOString (Z.to_nat H) b b' ->
          state b' = closed)
  /\ (state b = half_open ->
        forall (T : Type) (fn : Async W T) (w : W) e b1 w1,
          exec b fn w = (inr e, b1, w1) ->
          (F <= failures b + 1 -> state b1 = open)
          /\ (failures b + 1 < F ->
                state b1 = half_open /\ failures b1 = failures b + 1))
  /\ (inTurn now toISOString opts b -> state b = half_open ->
        F <= failures b
        /\ forall (T : Type) (fn : Async W T) (w : W) e b1 w1,
             exec b fn w = (inr e, b1, w1) -> state b1 = open).
Proof.
  intros F H R HF HH Hreach.
  destruct (reachable_sound now toISOString opts b HF Hreach) as (Ho & Hsound).
  assert (HFb : 0 < o_failureThreshold (options b)) by now rewrite Ho.
  assert (HHb : 0 < o_successThreshold (options b)) by now rewrite Ho.
  split; [|split; [|split; [|split]]].
  - intros Hc b' Hruns.
    pose proof (sound_closed_invariant b Hc Hsound) as Hinv.
    destruct (failedRuns_state now toISOString _ b b' Hruns HFb HHb Hinv)
      as (Hopen & _ & _).
    assert (Hs' : state b' = open).
    { apply Hopen; [exact Hc|]. rewrite Ho. fold F.
      unfold invariant in Hinv. rewrite Hc in Hinv. lia. }
    split; [exact Hs'|].
    destruct (failedRuns_invariant now toISOString _ b b' Hruns HFb HHb Hinv)
      as (Ho' & Hinv').
    unfold invariant in Hinv'. rewrite Hs' in Hinv'.
    destruct Hinv' as (_ & _ & tf & Hl & Hn). rewrite Ho', Ho in Hn. fold R in Hn.
    exists tf. repeat split; try assumption.
    intros T fn w Hlt. now apply (execute_open_rejects now toISOString b' fn w (tf + R)).
  - intros Hs. destruct Hsound as (_ & _ & _ & Hn).
    destruct Hn as (retryAt & Hn); [congruence|].
    exists retryAt. split; [exact Hn|].
    intros T fn w Hle. now apply (execute_open_probes now toISOString b fn w _ Hs Hn).
  - intros Hs b' Hruns.
    destruct (succeededRuns_close now toISOString _ b b' Hruns) as (_ & Hclose).
    rewrite Ho in Hclose. fold H in Hclose.
    destruct Hsound as (_ & Hsu & _). apply Hclose; lia.
  - intros Hs T fn w e b1 w1 Hx.
    pose proof (half_open_failure now toISOString b fn w e b1 w1 Hx Hs) as Hstep.
    cbn zeta in Hstep. rewrite Ho in Hstep. exact Hstep.
  - intros Hturn Hs.
    destruct (inTurn_invariant now toISOString opts b HF HH Hturn) as (_ & Hinv).
    assert (Hge : F <= failures b).
    { unfold invariant in Hinv. rewrite Hs, Ho in Hinv. fold F in Hinv. lia. }
    split; [exact Hge|].
    intros T fn w e b1 w1 Hx.
    destruct (half_open_failure now toISOString b fn w e b1 w1 Hx Hs) as (Hopen & _).
    apply Hopen. rewrite Ho. fold F. lia.
Qed.

End CircuitBreakerClaims.

(** A breaker with the default thresholds, on a world that is just the
    clock: five calls that throw open it. *)
Lemma circuit_breaker_state_machine_witness :
  let opts :=
    {| CircuitBreaker.failureThreshold := None; CircuitBreaker.successThreshold := None;
       CircuitBreaker.timeout := None; CircuitBreaker.resetTimeoutMs := None |} in
  let failing : Async Z unit := fun clock => (inr (newError "ECONNRESET"), clock + 1) in
  let step b := snd (fst (CircuitBreaker.execute id (fun _ => "later") b failing 0)) in
  CircuitBreaker.state (step (step (step (step (step (CircuitBreaker.new opts))))))
  = CircuitBreaker.open.
Proof.
  intros opts failing step.
  refine (proj1 (proj1 (circuit_breaker_state_machine id (fun _ => "later") opts
                          (CircuitBreaker.new opts) _ _ _) _ _ _)).
  - reflexivity.
  - reflexivity.
  - constructor.
  - reflexivity.
  - repeat (eapply CircuitBreaker.failedRuns_S with (fn := failing) (w := 0);
            [reflexivity|]).
    apply CircuitBreaker.failedRuns_O.
Defined.

(** C3, as stated, fails when calls overlap.  A slow call starts on the
    new, closed breaker; while it is pending five calls fail at time 0 and
    open the breaker; then the slow call returns, and its [onSuccess]
    clears the count of failures of the open breaker.  The probe at time
    60000 turns the breaker half-open, fails, and the breaker stays
    half-open: one failure is below the threshold of five. *)
Lemma overlapping_calls_counterexample :
  let opts :=
    {| CircuitBreaker.failureThreshold := None; CircuitBreaker.successThreshold := None;
       CircuitBreaker.timeout := None; CircuitBreaker.resetTimeoutMs := None |} in
  let reachable := CircuitBreaker.reachable (W := Z) id (fun _ => "later") opts in
  let failing : Async Z unit := fun clock => (inr (newError "ECONNRESET"), clock) in
  let fail b := snd (fst (CircuitBreaker.execute id (fun _ => "later") b failing 0)) in
  let tripped := fail (fail (fail (fail (fail (CircuitBreaker.new opts))))) in
  let settled := CircuitBreaker.onSuccess tripped in
  let probing := CircuitBreaker.setState CircuitBreaker.half_open settled in
  CircuitBreaker.enter id (fun _ => "later") (CircuitBreaker.new opts) 0
  = inl (CircuitBreaker.new opts)
  /\ CircuitBreaker.state tripped = CircuitBreaker.open
  /\ CircuitBreaker.nextRetryTime tripped = Some 60000
  /\ (CircuitBreaker.state settled, CircuitBreaker.failures settled,
      CircuitBreaker.successes settled) = (CircuitBreaker.open, 0, 1)
  /\ CircuitBreaker.enter id (fun _ => "later") settled 60000 = inl probing
  /\ reachable probing
  /\ CircuitBreaker.state probing = CircuitBreaker.half_open
  /\ CircuitBreaker.execute id (fun _ => "later") probing failing 60000
     = (inr (newError "ECONNRESET"),
        CircuitBreaker.onFailure id probing 60000, 60000)
  /\ CircuitBreaker.state (CircuitBreaker.onFailure id probing 60000)
     = CircuitBreaker.half_open.
Proof.
  intros opts reachable failing fail tripped settled probing.
  assert (Htripped : reachable tripped).
  { subst tripped. do 5 (apply CircuitBreaker.reachable_onFailure with (w := 0)).
    constructor. }
  repeat split; try reflexivity.
  apply CircuitBreaker.reachable_enter with (b := settled) (w := 60000);
    [|reflexivity].
  now apply CircuitBreaker.reachable_onSuccess.
Qed.

(** ** BudgetManager.canAfford *)

Section BudgetFacts.

Import CostTracker BudgetManager BudgetScenario.

Lemma getRecordsByDateRange_all (startDate endDate : Z) (records : CostTracker.t) :
  Forall (fun r => startDate <= timestamp r <= endDate) records ->
  getRecordsByDateRange startDate endDate records = records.
Proof.
  unfold getRecordsByDateRange. induction 1 as [|r records Hr _ IH]; [reflexivity|].
  cbn. replace (startDate <=? timestamp r) with true by (symmetry; lia).
  replace (timestamp r <=? endDate) with true by (symmetry; lia).
  cbn. now rewrite IH.
Qed.

Lemma totalCost_snoc (records : CostTracker.t) (r : CostRecord) :
  totalCost (records ++ [r]) = (totalCost records + costUsd r)%float.
Proof. unfold totalCost. now rewrite fold_left_app. Qed.

Lemma byProvider_snoc (records : CostTracker.t) (r : CostRecord) (p : AIProvider) :
  byProvider (records ++ [r]) p
  = if decide (p = provider r) then
      match byProvider records (provider r) with
      | Some existing => Some (existing + costUsd r)%float
      | None => Some (costUsd r)
      end
    else byProvider records p.
Proof. unfold byProvider. now rewrite fold_left_app. Qed.

Lemma approved_snoc p cost times time :
  approved p cost (times ++ [time])
  = recordCost {| provider := p; timestamp := time; costUsd := cost |}
      (approved p cost times).
Proof. unfold approved, recordCost. now rewrite map_app. Qed.

Lemma totalCost_approved p cost times :
  totalCost (approved p cost times) = sumTo cost (length times).
Proof.
  induction times as [|time times IH] using rev_ind; [reflexivity|].
  rewrite approved_snoc. unfold recordCost. rewrite totalCost_snoc, IH.
  rewrite length_app, Nat.add_1_r. reflexivity.
Qed.

Lemma byProvider_approved p cost times :
  byProvider (approved p cost times) p
  = match length times with
    | O => None
    | S _ => Some (providerTo cost (length times))
    end.
Proof.
  induction times as [|time times IH] using rev_ind; [reflexivity|].
  rewrite approved_snoc. unfold recordCost. rewrite byProvider_snoc. cbn [provider costUsd].
  rewrite decide_True by reflexivity. rewrite IH.
  rewrite length_app, Nat.add_1_r.
  destruct (length times) as [|k]; [reflexivity|].
  unfold providerTo. cbn [Nat.sub]. rewrite Nat.sub_0_r. reflexivity.
Qed.

(** The decision of [canAfford] under a single ceiling. *)
Lemma canAfford_onlyCeiling ceiling amount (bm : BudgetManager.t) tracker p cost now :
  limits bm = onlyCeiling ceiling amount ->
  truthy amount = true ->
  appliesTo ceiling p ->
  fst (canAfford bm tracker p cost now)
  = negb (amount <? windowSpend ceiling bm tracker p now + cost)%float.
Proof.
  intros Hl Ht Ha. unfold canAfford, windowSpend, exceededLimit, configured, providerLimit.
  rewrite Hl. destruct ceiling as [| | |q]; cbn in Ha |- *; rewrite ?Ht.
  1-3: match goal with |- context [(?a <? ?x)%float] =>
         destruct (a <? x)%float end; reflexivity.
  subst q. rewrite decide_True by reflexivity. rewrite Ht.
  match goal with |- context [(?a <? ?x)%float] =>
    destruct (a <? x)%float end; reflexivity.
Qed.

(** [canAfford] changes nothing of the manager but its alerts. *)
Lemma canAfford_keeps (bm : BudgetManager.t) tracker p cost now :
  let bm1 := snd (canAfford bm tracker p cost now) in
  limits bm1 = limits bm /\ startOfDay bm1 = startOfDay bm
  /\ startOfWeek bm1 = startOfWeek bm /\ startOfMonth bm1 = startOfMonth bm.
Proof.
  unfold canAfford, checkWarnings, checkWarning.
  repeat match goal with
    | |- context [match ?x with _ => _ end] => destruct x; cbn
    end; auto.
Qed.

Lemma windowSpend_approved ceiling (bm : BudgetManager.t) p cost done now :
  appliesTo ceiling p ->
  (forall start, windowStart ceiling bm = Some start -> Forall (Z.le start) done) ->
  Forall (fun time => time <= now) done ->
  windowSpend ceiling bm (approved p cost done) p now
  = spendAfter ceiling cost (length done).
Proof.
  intros Ha Hstart Hnow.
  assert (Hin : forall start, windowStart ceiling bm = Some start ->
            getRecordsByDateRange start now (approved p cost done)
            = approved p cost done).
  { intros start Hs. apply getRecordsByDateRange_all. unfold approved.
    apply Forall_map. specialize (Hstart start Hs).
    rewrite Forall_forall in *. intros time Ht. cbn.
    split; [apply Hstart | apply Hnow]; exact Ht. }
  unfold windowSpend, spendAfter, getStatus.
  destruct ceiling as [| | |q]; cbn [s_daily s_weekly s_monthly s_byProvider
                                       periodStatus spent].
  1-3: rewrite Hin by reflexivity; apply totalCost_approved.
  rewrite byProvider_approved. destruct (length done); reflexivity.
Qed.

(** The arithmetic of the scenario, in binary64: 33 requests of $0.30 fit
    under $10.00 and the 34th does not. *)
Lemma thirty_three_fit ceiling k :
  (k < 33)%nat ->
  (usd_10 <? spendAfter ceiling usd_0_30 k + usd_0_30)%float = false.
Proof.
  intros Hk.
  assert (Hall : forallb
            (fun ceiling' =>
               forallb (fun j => negb (usd_10 <? spendAfter ceiling' usd_0_30 j
                                                 + usd_0_30)%float) (seq 0 33))
            [DailyCeiling; ProviderCeiling gemini] = true)
    by (vm_compute; reflexivity).
  cbn [forallb] in Hall. rewrite !andb_true_iff in Hall.
  destruct Hall as (Hw & Hp & _).
  rewrite forallb_forall in Hw, Hp.
  assert (Hin : In k (seq 0 33)) by (apply in_seq; lia).
  destruct ceiling; [apply negb_true_iff, (Hw k Hin)..|apply negb_true_iff, (Hp k Hin)].
Qed.

Lemma thirty_fourth_exceeds ceiling :
  (usd_10 <? spendAfter ceiling usd_0_30 33 + usd_0_30)%float = true.
Proof. destruct ceiling; vm_compute; reflexivity. Qed.

Lemma submitAll_decisions ceiling p : forall later done (bm : BudgetManager.t),
  limits bm = onlyCeiling ceiling usd_10 ->
  appliesTo ceiling p ->
  (length done + length later <= 34)%nat ->
  StronglySorted Z.le (done ++ later) ->
  (forall start, windowStart ceiling bm = Some start ->
                 Forall (Z.le start) (done ++ later)) ->
  submitAll bm (approved p usd_0_30 done) p usd_0_30 later
  = map (fun k => (k <? 33)%nat) (seq (length done) (length later)).
Proof.
  induction later as [|now later IH]; intros done bm Hl Ha Hlen Hsorted Hstart;
    [reflexivity|].
  cbn [submitAll length seq map].
  pose proof (canAfford_onlyCeiling ceiling usd_10 bm (approved p usd_0_30 done)
                p usd_0_30 now Hl eq_refl Ha) as Hdec.
  pose proof (canAfford_keeps bm (approved p usd_0_30 done) p usd_0_30 now)
    as (Hk1 & Hk2 & Hk3 & Hk4).
  rewrite windowSpend_approved in Hdec; try assumption.
  2:{ intros start Hs. specialize (Hstart start Hs).
      apply Forall_app in Hstart. tauto. }
  2:{ clear - Hsorted. induction done as [|d done IHd]; [constructor|].
      cbn in Hsorted. apply StronglySorted_inv in Hsorted as (Hs & Hall).
      constructor; [|now apply IHd].
      rewrite List.Forall_forall in Hall. apply Hall, in_app_iff. right. now left. }
  destruct (canAfford bm (approved p usd_0_30 done) p usd_0_30 now) as [ok bm1].
  cbn [fst snd] in *.
  destruct (Nat.ltb_spec (length done) 33) as [Hlt|Hge].
  - rewrite thirty_three_fit in Hdec by exact Hlt. cbn in Hdec. subst ok.
    f_equal. rewrite <- approved_snoc.
    rewrite (IH (done ++ [now]) bm1).
    + rewrite length_app, Nat.add_1_r. reflexivity.
    + now rewrite Hk1.
    + exact Ha.
    + rewrite length_app. cbn in *. lia.
    + now rewrite <- app_assoc.
    + intros start Hs. rewrite <- app_assoc. apply Hstart.
      destruct ceiling; cbn in *; congruence.
  - assert (length done = 33%nat /\ later = []) as (Hd & ->).
    { destruct later as [|time later]; cbn in Hlen; [split; [lia | reflexivity] | lia]. }
    rewrite Hd in Hdec. rewrite thirty_fourth_exceeds in Hdec. cbn in Hdec.
    subst ok. reflexivity.
Qed.

End BudgetFacts.

Section BudgetClaims.

Import CostTracker BudgetManager BudgetScenario.

(** C2.  Let a ceiling of exactly $10.00 (daily, weekly, monthly, or of
    the provider asked for) be the only limit.  Of 34 requests of $0.30
    each, made at non-decreasing times within the window, each approval
    being recorded as spend at once, [canAfford] approves the first 33
    and denies the 34th.  In general, under a single ceiling [canAfford]
    denies exactly when the spend of the window plus the estimated cost
    is strictly greater than the ceiling. *)
Theorem ceiling_of_ten_dollars_denies_the_34th (ceiling : Ceiling) (p : AIProvider) :
  appliesTo ceiling p ->
  (forall (bm : BudgetManager.t) (times : list Z),
     limits bm = onlyCeiling ceiling usd_10 ->
     length times = 34%nat ->
     StronglySorted Z.le times ->
     (forall start, windowStart ceiling bm = Some start -> Forall (Z.le start) times) ->
     submitAll bm [] p usd_0_30 times = repeat true 33 ++ [false])
  /\ (forall (amount : float) (bm : BudgetManager.t) (tracker : CostTracker.t)
             (cost : float) (now : Z),
        limits bm = onlyCeiling ceiling amount ->
        truthy amount = true ->
        fst (canAfford bm tracker p cost now)
        = negb (amount <? windowSpend ceiling bm tracker p now + cost)%float).
Proof.
  intros Ha. split.
  - intros bm times Hl Hlen Hsorted Hstart.
    change (@nil CostRecord) with (approved p usd_0_30 []).
    rewrite (submitAll_decisions ceiling p times [] bm Hl Ha); try assumption.
    + rewrite Hlen. reflexivity.
    + cbn. lia.
  - intros amount bm tracker cost now Hl Ht.
    now apply canAfford_onlyCeiling.
Qed.

(** C10.  When no limit of any scope is set, [canAfford] returns [true]
    for every provider and every estimated cost and leaves the manager as
    it was: no alert is added.  And whenever [canAfford] returns [false],
    one of the limits that bear on the request is set (and is not zero). *)
Theorem no_limit_no_denial :
  (forall (bm : BudgetManager.t) (tracker : CostTracker.t) (p : AIProvider)
          (cost : float) (now : Z),
     unlimited (limits bm) -> canAfford bm tracker p cost now = (true, bm))
  /\ (forall (bm : BudgetManager.t) (tracker : CostTracker.t) (p : AIProvider)
             (cost : float) (now : Z),
        fst (canAfford bm tracker p cost now) = false ->
        is_Some (configured (perRequestLimit (limits bm)))
        \/ is_Some (configured (dailyLimit (limits bm)))
        \/ is_Some (configured (weeklyLimit (limits bm)))
        \/ is_Some (configured (monthlyLimit (limits bm)))
        \/ is_Some (configured (providerLimit (limits bm) p))).
Proof.
  split.
  - intros bm tracker p cost now (Hr & Hd & Hw & Hm & Hp).
    unfold canAfford, exceededLimit, checkWarnings, checkWarning.
    rewrite Hr, Hd, Hw, Hm, Hp. cbn. rewrite Hw. cbn. rewrite Hm. reflexivity.
  - intros bm tracker p cost now. unfold canAfford, exceededLimit.
    destruct (configured (perRequestLimit (limits bm))); [eauto|].
    destruct (configured (dailyLimit (limits bm))); [eauto|].
    destruct (configured (weeklyLimit (limits bm))); [eauto 6|].
    destruct (configured (monthlyLimit (limits bm))); [eauto 6|].
    destruct (configured (providerLimit (limits bm) p)); [eauto 7|].
    cbn. discriminate.
Qed.

End BudgetClaims.

(** A daily ceiling of $10.00 and one request a millisecond. *)
Lemma ceiling_of_ten_dollars_witness :
  BudgetManager.submitAll Sample.tenDollarsADay [] gemini BudgetManager.usd_0_30
    (map Z.of_nat (seq 1 34))
  = repeat true 33 ++ [false].
Proof.
  refine (proj1 (ceiling_of_ten_dollars_denies_the_34th
                   BudgetManager.DailyCeiling gemini I) _ _ _ _ _ _).
  - reflexivity.
  - reflexivity.
  - cbn. repeat (constructor; [|repeat (constructor; [lia|])]); constructor.
  - intros start [= <-]. cbn. repeat (constructor; [lia|]). constructor.
Defined.

(** No limit at all and a request of $1000 to a provider that already
    spent $500. *)
Lemma no_limit_no_denial_witness :
  BudgetManager.canAfford Sample.unlimitedBudget
    [{| CostTracker.provider := claude; CostTracker.timestamp := 5;
        CostTracker.costUsd := 500%float |}]
    claude 1000%float 10
  = (true, Sample.unlimitedBudget).
Proof.
  apply (proj1 no_limit_no_denial). repeat split.
Defined.

(** ** JSON.stringify writes one line *)

Section JsonFacts.

Import Json.












End JsonFacts.

(** ** BatchResultManager *)

Section LedgerFacts.

Import BatchResultManager.

Variable toISOString : Z -> string.

(** What a file holds. *)
Lemma writeFileSync_eq (path text : string) (d : Disk) :
  files (writeFileSync path text d) !! path = Some text.
Proof. apply lookup_insert_eq. Qed.

Lemma writeFileSync_ne (path other text : string) (d : Disk) :
  other <> path -> files (writeFileSync path text d) !! other = files d !! other.
Proof. intros Hne. now apply lookup_insert_ne. Qed.

Lemma append_eq (path text : string) (d : Disk) :
  files (append path text d) !! path
  = Some (default "" (files d !! path) ++ text)%string.
Proof. apply lookup_insert_eq. Qed.

Lemma append_ne (path other text : string) (d : Disk) :
  other <> path -> files (append path text d) !! other = files d !! other.
Proof. intros Hne. now apply lookup_insert_ne. Qed.

Lemma writeToStream_ne (item : BatchResultItem) (m : t) (d : Disk) (other : string) :
  outputStream m <> Some other ->
  files (writeToStream toISOString item m d) !! other = files d !! other.
Proof.
  intros Hne. unfold writeToStream. destruct (outputStream m) as [path|]; [|reflexivity].
  apply append_ne. congruence.
Qed.

(** One [save...] call: the counters it moves, and the session file when
    the stream does not write to it. *)
Lemma save_session (op : Save) (m : t) (d : Disk) :
  let s := session m in
  let s1 := session (fst (save toISOString op m d)) in
  totalItems s1 = totalItems s
  /\ completedItems s1 = completedItems s + 1
  /\ successfulItems s1 + failedItems s1 + skippedItems s1
     = successfulItems s + failedItems s + skippedItems s + 1
  /\ sessionPath (fst (save toISOString op m d)) = sessionPath m
  /\ outputStream (fst (save toISOString op m d)) = outputStream m
  /\ (outputStream m <> Some (sessionPath m) ->
      files (snd (save toISOString op m d)) !! sessionPath m
      = Some (sessionText toISOString s1)).
Proof.
  destruct op; cbn; repeat split; try lia; intros Hne;
    (rewrite writeToStream_ne by exact Hne); apply writeFileSync_eq.
Qed.

Lemma saveAll_snoc (ops : list Save) (op : Save) (m : t) (d : Disk) :
  saveAll toISOString (ops ++ [op]) m d
  = save toISOString op (fst (saveAll toISOString ops m d))
      (snd (saveAll toISOString ops m d)).
Proof. unfold saveAll. now rewrite fold_left_app. Qed.

(** C8 (amended).  For a session initialised with [total] and any
    sequence of [saveSuccess], [saveFailure] and [saveSkipped] calls, after
    the calls the session has
    successfulItems + failedItems + skippedItems = completedItems, and
    completedItems is the number of calls made; so completedItems stays
    at or below totalItems exactly as long as no more than [total] calls
    were made.  When the session file is not the log itself (the output
    path ends in .json or .jsonl), the session file holds just this
    session, as [JSON.stringify(session, null, 2)]. *)
Theorem session_counts_add_up
    (path : string) (givenId : option string) (generated : string) (now total : Z)
    (d0 : Disk) (ops : list Save) :
  let start := initialize toISOString total (new path givenId generated now) d0 in
  let final := saveAll toISOString ops (fst start) (snd start) in
  let s := session (fst final) in
  successfulItems s + failedItems s + skippedItems s = completedItems s
  /\ completedItems s = Z.of_nat (length ops)
  /\ totalItems s = total
  /\ (completedItems s <= totalItems s <-> Z.of_nat (length ops) <= total)
  /\ (sessionPathOf path <> path ->
      files (snd final) !! sessionPathOf path = Some (sessionText toISOString s)).
Proof.
  intros start final s.
  assert (H : successfulItems s + failedItems s + skippedItems s = completedItems s
              /\ completedItems s = Z.of_nat (length ops)
              /\ totalItems s = total
              /\ sessionPath (fst final) = sessionPathOf path
              /\ outputStream (fst final) = Some path
              /\ (sessionPathOf path <> path ->
                  files (snd final) !! sessionPathOf path
                  = Some (sessionText toISOString s))).
  { subst s final. induction ops as [|op ops IH] using rev_ind.
    - repeat split. intros Hne. unfold start, initialize, saveAll. cbn [fold_left fst snd].
      rewrite append_ne by exact Hne. apply writeFileSync_eq.
    - rewrite saveAll_snoc.
      destruct IH as (Hsum & Hcount & Htotal & Hpath & Hstream & _).
      pose proof (save_session op (fst (saveAll toISOString ops (fst start) (snd start)))
                    (snd (saveAll toISOString ops (fst start) (snd start))))
        as (Ht & Hc & Hs & Hp & Hst & Hfile).
      rewrite length_app, Nat.add_1_r, Nat2Z.inj_succ.
      repeat split; try lia; try congruence.
      intros Hne. rewrite <- Hpath. apply Hfile. rewrite Hstream, Hpath. congruence. }
  destruct H as (Hsum & Hcount & Htotal & _ & _ & Hfile).
  repeat split; try assumption; lia.
Qed.


End LedgerFacts.

(** C8, as stated, fails: a session initialised with one item and two
    [saveSuccess] calls has completedItems = 2 above totalItems = 1. *)
Lemma session_counts_counterexample :
  ~ (forall (toISOString : Z -> string) (total : Z)
            (ops : list BatchResultManager.Save),
       let start :=
         BatchResultManager.initialize toISOString total
           (BatchResultManager.new "out.jsonl" None "batch-1" 0)
           BatchResultManager.emptyDisk in
       let s :=
         BatchResultManager.session
           (fst (BatchResultManager.saveAll toISOString ops (fst start) (snd start))) in
       BatchResultManager.successfulItems s + BatchResultManager.failedItems s
       + BatchResultManager.skippedItems s
       = BatchResultManager.completedItems s
       /\ BatchResultManager.completedItems s <= BatchResultManager.totalItems s).
Proof.
  intros H.
  specialize (H (fun _ => "") 1
                [BatchResultManager.SaveSuccess "a" "a.png" Json.JNull 1;
                 BatchResultManager.SaveSuccess "b" "b.png" Json.JNull 2]).
  cbn in H. lia.
Qed.

(** A session of two items on an empty disk, one success and one skip:
    the counts add up to the two calls made. *)
Lemma session_counts_witness :
  let start :=
    BatchResultManager.initialize Sample.toISOString 2
      (BatchResultManager.new "out.jsonl" None "batch-1" 0)
      BatchResultManager.emptyDisk in
  let s :=
    BatchResultManager.session
      (fst (BatchResultManager.saveAll Sample.toISOString
              [BatchResultManager.SaveSuccess "a" "a.png" Json.JNull 1;
               BatchResultManager.SaveSkipped "b" "b.png" "not an image" 2]
              (fst start) (snd start))) in
  BatchResultManager.successfulItems s + BatchResultManager.failedItems s
  + BatchResultManager.skippedItems s
  = BatchResultManager.completedItems s.
Proof.
  exact (proj1 (session_counts_add_up Sample.toISOString "out.jsonl" None "batch-1" 0 2
                  BatchResultManager.emptyDisk
                  [BatchResultManager.SaveSuccess "a" "a.png" Json.JNull 1;
                   BatchResultManager.SaveSkipped "b" "b.png" "not an image" 2])).
Defined.



(** ** batchCommand *)

Section RetryLogicGeneric.

Import RetryLogic.

Context {S T : Type}.
Variable pow : float -> Z -> float.
Variable sleep : float -> S -> S.
Variable logger : LogEntry -> S -> S.
Variable fn : Async S T.

(** A relation between states that sleeping, logging and the function
    all respect is respected by the loop. *)
Variable R : S -> S -> Prop.
Hypothesis R_refl : forall s, R s s.
Hypothesis R_trans : forall s1 s2 s3, R s1 s2 -> R s2 s3 -> R s1 s3.
Hypothesis R_sleep : forall ms s, R s (sleep ms s).
Hypothesis R_logger : forall entry s, R s (logger entry s).
Hypothesis R_fn : forall s, R s (snd (fn s)).

Lemma attemptLoop_respects remaining : forall attempt opts le s,
  R s (snd (attemptLoop pow sleep logger remaining attempt opts fn le s)).
Proof.
  induction remaining as [|remaining IH]; intros attempt opts le s; [apply R_refl|].
  cbn [attemptLoop]. pose proof (R_fn s) as Hfn.
  destruct (fn s) as [[v|e] s1]; cbn [snd] in Hfn.
  - destruct (1 <? attempt); cbn; eauto.
  - destruct (negb _ || _); cbn; eauto 6.
Qed.

Lemma execute_respects options s :
  R s (snd (execute pow sleep logger fn options s)).
Proof. apply attemptLoop_respects. Qed.

(** With at least one attempt allowed, the function is invoked on the
    state that [execute] was given, and the rest follows from there. *)
Lemma execute_invokes_first options s :
  1 <= r_maxAttempts (resolve options) ->
  R (snd (fn s)) (snd (execute pow sleep logger fn options s)).
Proof.
  intros Hm. unfold execute.
  destruct (Z.to_nat (r_maxAttempts (resolve options))) as [|remaining] eqn:Hn; [lia|].
  cbn [attemptLoop]. destruct (fn s) as [[v|e] s1]; cbn [snd].
  - destruct (1 <? 1); cbn; eauto.
  - destruct (negb _ || _); cbn; [eauto|].
    eapply R_trans; [apply R_logger|]. eapply R_trans; [apply R_sleep|].
    apply attemptLoop_respects.
Qed.

End RetryLogicGeneric.

Section BatchFacts.

Import BatchResultManager Batch.

Variable toISOString : Z -> string.
Variable classify : list string -> string -> Outcome ClassificationResult.
Variable pow : float -> Z -> float.
Variable timer : float -> Z.

Lemma requestsGrow_refl w : requestsGrow w w.
Proof. exists []. now rewrite app_nil_r. Qed.

Lemma requestsGrow_trans w1 w2 w3 :
  requestsGrow w1 w2 -> requestsGrow w2 w3 -> requestsGrow w1 w3.
Proof.
  intros (m1 & H1) (m2 & H2). exists (m1 ++ m2). now rewrite H2, H1, app_assoc.
Qed.

Lemma breakerExecute_classify p path w :
  requestsGrow w (snd (breakerExecute toISOString p (classifyCall classify path) w)).
Proof.
  unfold breakerExecute, CircuitBreaker.execute.
  destruct (CircuitBreaker.enter _ _ _ _) as [b1|err]; cbn.
  - destruct (classify (requests w) path); cbn; now exists [path].
  - exists []. cbn. now rewrite app_nil_r.
Qed.

Lemma breakerExecute_admitted p path w :
  admits toISOString p w ->
  requests (snd (breakerExecute toISOString p (classifyCall classify path) w))
  = requests w ++ [path].
Proof.
  intros (b1 & Hb). unfold breakerExecute, CircuitBreaker.execute. rewrite Hb. cbn.
  destruct (classify (requests w) path); reflexivity.
Qed.

(** The call under the breaker writes no file. *)
Lemma breakerExecute_disk p path w :
  disk (snd (breakerExecute toISOString p (classifyCall classify path) w)) = disk w.
Proof.
  unfold breakerExecute, CircuitBreaker.execute.
  destruct (CircuitBreaker.enter _ _ _ _) as [b1|err]; cbn; [|reflexivity].
  destruct (classify (requests w) path); reflexivity.
Qed.

(** Nor do the retries around it. *)
Lemma retried_call_disk p path options w :
  disk (snd (RetryLogic.execute pow (sleep timer) logger
               (breakerExecute toISOString p (classifyCall classify path)) options w))
  = disk w.
Proof.
  apply (execute_respects pow (sleep timer) logger
           (breakerExecute toISOString p (classifyCall classify path))
           (fun w w1 => disk w1 = disk w)).
  - reflexivity.
  - intros w1 w2 w3 H12 H23. now rewrite H23.
  - reflexivity.
  - reflexivity.
  - intros w0. apply breakerExecute_disk.
Qed.

Lemma processItem_spec p (item : BatchItem) (st : State) :
  let attempt :=
    RetryLogic.execute pow (sleep timer) logger
      (breakerExecute toISOString p (classifyCall classify (item_imagePath item)))
      retryOptions (world st) in
  let st1 := processItem toISOString classify pow timer p item st in
  let rec := recorded item (fst attempt) (clock (snd attempt)) in
  let s := session (resultManager st) in
  let s1 := session (resultManager st1) in
  results (resultManager st1) = <[item_id item := rec]> (results (resultManager st))
  /\ (totalItems s1 = totalItems s
      /\ completedItems s1 = completedItems s + 1
      /\ successfulItems s1 + failedItems s1 = successfulItems s + failedItems s + 1
      /\ skippedItems s1 = skippedItems s)
  /\ (outputStream (resultManager st1) = outputStream (resultManager st)
      /\ outputPath (resultManager st1) = outputPath (resultManager st)
      /\ sessionPath (resultManager st1) = sessionPath (resultManager st))
  /\ (requests (world st1) = requests (snd attempt)
      /\ clock (world st1) = clock (snd attempt)
      /\ breakers (world st1) = breakers (snd attempt))
  /\ p_completed (progressTracker st1) = p_completed (progressTracker st) + 1
  /\ forall path,
       outputStream (resultManager st) = Some path ->
       sessionPath (resultManager st) <> path ->
       files (disk (world st1)) !! path
       = Some (default "" (files (disk (world st)) !! path)
               ++ written toISOString rec)%string.
Proof.
  intros attempt st1 rec s s1. subst st1 rec s s1. unfold processItem.
  pose proof (retried_call_disk p (item_imagePath item) retryOptions (world st)) as Hdisk.
  fold attempt in Hdisk |- *.
  destruct attempt as [[result|err] w1]; cbn [fst snd] in *;
    unfold saveSuccess, saveFailure, record, recorded;
    cbn [fst snd resultManager progressTracker world results session withSession
         setResult setDisk requests clock breakers outputStream outputPath sessionPath
         id successItem failureItem countSuccess countFailure totalItems completedItems
         successfulItems failedItems skippedItems incrementSuccess incrementFailure
         p_completed disk];
    (split; [reflexivity|]); (split; [repeat split; lia|]);
    (split; [repeat split; reflexivity|]); (split; [repeat split; reflexivity|]);
    (split; [reflexivity|]);
    intros path Hpath Hne; unfold writeToStream;
    cbn [outputStream withSession setResult]; rewrite Hpath, append_eq;
    unfold saveSession; cbn [sessionPath withSession setResult];
    (rewrite writeFileSync_ne by congruence); rewrite Hdisk; reflexivity.
Qed.

End BatchFacts.

Section BatchClaims.

Import BatchResultManager Batch.

Variable toISOString : Z -> string.
Variable classify : list string -> string -> Outcome ClassificationResult.
Variable pow : float -> Z -> float.
Variable timer : float -> Z.

Context {Queue : Type}.
Variable newPQueue : PQueue.Options -> Outcome Queue.
Variable parseInt : string -> option Z.

Local Abbreviation task := (processItem toISOString classify pow timer).
Local Abbreviation command :=
  (batchCommand toISOString classify pow timer newPQueue parseInt).

(** C1 (amended).  The orchestrator has no budget check: [batchCommand]
    and the state it runs on hold no Budget Ledger, and the tasks that it
    queues are, item by item, retry(breaker(classify)) followed by
    [saveSuccess] or [saveFailure].  So whatever [canAfford] would
    answer for an item, also when it would deny it, the task of the item,
    run from its start to its end in any state, records the item exactly
    once: one entry under its id in the results, completedItems and one of
    successfulItems and failedItems up by one, skippedItems as before, one
    line more in the log (when the stream is open and the log is not the
    session file); the status is success or failed, never skipped; and
    unless the breaker of the provider is open the path of the image goes
    to the provider.  [saveSkipped], when it is called with a reason,
    records the item as skipped, with the reason as message, the code
    SKIPPED and no attempt, and counts it as skipped, not as failed. *)
Theorem items_are_dispatched_without_budget_check
    (options : BatchOptions) (p : AIProvider) (items : list BatchItem)
    (generated : string) (w : World) (item : BatchItem) (st : State) :
  (forall queue tasks start,
     command options p items generated w = Queued queue tasks start ->
     tasks = map (task p) items)
  /\ (let st1 := task p item st in
      let s := session (resultManager st) in
      let s1 := session (resultManager st1) in
      (exists rec,
         results (resultManager st1) = <[item_id item := rec]> (results (resultManager st))
         /\ id rec = item_id item
         /\ imagePath rec = item_imagePath item
         /\ (status rec = success \/ status rec = failed)
         /\ forall path,
              outputStream (resultManager st) = Some path ->
              sessionPath (resultManager st) <> path ->
              files (disk (world st1)) !! path
              = Some (default "" (files (disk (world st)) !! path)
                      ++ written toISOString rec)%string)
      /\ completedItems s1 = completedItems s + 1
      /\ successfulItems s1 + failedItems s1 = successfulItems s + failedItems s + 1
      /\ skippedItems s1 = skippedItems s
      /\ (admits toISOString p (world st) ->
          exists more,
            requests (world st1) = requests (world st) ++ item_imagePath item :: more))
  /\ (forall (reason : string) (now : Z) (m : BatchResultManager.t) (d : Disk),
        let m1 := fst (saveSkipped toISOString (item_id item) (item_imagePath item)
                         reason now m d) in
        exists rec,
          results m1 = <[item_id item := rec]> (results m)
          /\ status rec = skipped
          /\ attempts rec = 0
          /\ error rec = Some [("message", Plain (Json.JString reason));
                               ("code", Plain (Json.JString "SKIPPED"));
                               ("timestamp", DateValue now)]
          /\ skippedItems (session m1) = skippedItems (session m) + 1
          /\ failedItems (session m1) = failedItems (session m)
          /\ successfulItems (session m1) = successfulItems (session m)).
Proof.
  split; [|split].
  - intros queue tasks start. unfold batchCommand.
    destruct (Z.of_nat (length items) =? 0); [discriminate|].
    destruct (initialize _ _ _ _) as [rm1 d1].
    destruct (fst (ConcurrencyController.getQueue _ _ _ _)) as [q|err];
      [|discriminate]. now intros [= _ <- _].
  - intros st1 s s1.
    pose proof (processItem_spec toISOString classify pow timer p item st)
      as (Hres & (_ & Hdone & Hsum & Hskip) & _ & (Hreq & _) & _ & Hlog).
    fold st1 in Hres, Hdone, Hsum, Hskip, Hreq, Hlog.
    split; [|split; [|split; [|split]]]; try assumption.
    + eexists. split; [exact Hres|].
      split; [|split; [|split; [|exact Hlog]]];
        destruct (fst _) as [result|err]; cbn; auto.
    + intros Hadmits. rewrite Hreq.
      pose proof (execute_invokes_first pow (sleep timer) logger
                    (breakerExecute toISOString p
                       (classifyCall classify (item_imagePath item)))
                    requestsGrow requestsGrow_refl requestsGrow_trans) as Hfirst.
      destruct (Hfirst
                  (fun ms w0 => ex_intro _ [] (eq_sym (app_nil_r _)))
                  (fun entry w0 => ex_intro _ [] (eq_sym (app_nil_r _)))
                  (breakerExecute_classify toISOString classify p (item_imagePath item))
                  retryOptions (world st)) as (more & Hmore); [cbn; lia|].
      rewrite (breakerExecute_admitted toISOString classify p _ _ Hadmits) in Hmore.
      exists more. rewrite Hmore, <- app_assoc. reflexivity.
  - intros reason now m d m1. eexists. subst m1. cbn.
    repeat split; reflexivity.
Qed.

End BatchClaims.

(** ** getUnprocessedItems *)

Section ResumeFacts.

Import BatchResultManager.

#[local] Set Warnings "-clear-no-such-hyp".

Lemma unprocessed_count (processed : gset string) (allItems : list (string * string)) :
  NoDup (map fst allItems) ->
  (forall i, i ∈ processed -> i ∈ map fst allItems) ->
  (length (List.filter (fun item => bool_decide (fst item ∉ processed)) allItems)
   + size processed = length allItems)%nat.
Proof.
  revert processed. induction allItems as [|item allItems IH]; intros processed Hnd Hsub.
  - assert (processed = ∅) as -> by set_solver. reflexivity.
  - cbn [map] in Hnd. apply NoDup_cons in Hnd as (Hfresh & Hnd).
    cbn [List.filter length]. destruct (decide (fst item ∈ processed)) as [Hin|Hout].
    + rewrite bool_decide_eq_false_2 by tauto.
      assert (Hsize : size processed = S (size (processed ∖ {[fst item]}))).
      { rewrite (union_difference_singleton_L (fst item) processed) at 1 by exact Hin.
        rewrite size_union by set_solver. now rewrite size_singleton. }
      rewrite Hsize, Nat.add_succ_r. f_equal.
      rewrite <- (IH (processed ∖ {[fst item]})); [|exact Hnd|].
      * do 2 f_equal. apply List.filter_ext_in. intros other Hother.
        apply bool_decide_ext.
        assert (fst other ≠ fst item).
        { intros Heq. apply Hfresh. rewrite <- Heq.
          apply list_elem_of_In, in_map, Hother. }
        set_solver.
      * intros i Hi. specialize (Hsub i). cbn [map] in Hsub. set_solver.
    + rewrite bool_decide_eq_true_2 by exact Hout. cbn [length Nat.add]. f_equal.
      apply IH; [exact Hnd|]. intros i Hi. specialize (Hsub i Hi). cbn [map] in Hsub.
      set_solver.
Qed.

(** For a work list with distinct ids and a manager that holds outcomes
    for some of these ids and for no other, [getUnprocessedItems] gives
    the items with no recorded outcome, in the order of the list, and
    there are [total - K] of them. *)
Lemma getUnprocessedItems_resume (m : t) (allItems : list (string * string)) :
  NoDup (map fst allItems) ->
  (forall i, i ∈ dom (results m) -> i ∈ map fst allItems) ->
  getUnprocessedItems m allItems
  = List.filter (fun item => bool_decide (results m !! fst item = None)) allItems
  /\ length (getUnprocessedItems m allItems)
     = (length allItems - size (results m))%nat.
Proof.
  intros Hnd Hsub. split.
  - unfold getUnprocessedItems. apply List.filter_ext. intros item.
    apply bool_decide_ext. apply not_elem_of_dom.
  - pose proof (unprocessed_count (dom (results m)) allItems Hnd Hsub) as Hcount.
    rewrite size_dom in Hcount. unfold getUnprocessedItems. lia.
Qed.

End ResumeFacts.

(** ** The claims on concrete runs *)

(** C1, as stated, fails.  A request of $5.00 is over a limit of $1.00 a
    request, so [canAfford] denies it.  With the queues as p-queue makes
    them, [batchCommand] has left before any task: the item has no record,
    skipped or other.  With a queue that takes the options, the task of
    the item sends the image to the provider and records a success; nothing
    is counted as skipped. *)
Lemma budget_denied_item_counterexample :
  fst (BudgetManager.canAfford Sample.oneDollarARequest [] gemini 5%float 0) = false
  /\ (exists made w,
        Batch.batchCommand Sample.toISOString Sample.alwaysClassifies Sample.pow
          Sample.timer PQueue.new Sample.parseInt Sample.resumeOptions gemini
          [Sample.itemA] "batch-1" (Batch.initialWorld BatchResultManager.emptyDisk)
        = Batch.Exited 1 (Some made) w
        /\ BatchResultManager.results made !! "a" = None
        /\ BatchResultManager.files (Batch.disk w) !! "out.jsonl" = Some ""
        /\ Batch.requests w = [])
  /\ (exists queue task start,
        Batch.batchCommand Sample.toISOString Sample.alwaysClassifies Sample.pow
          Sample.timer Sample.anyQueue Sample.parseInt Sample.resumeOptions gemini
          [Sample.itemA] "batch-1" (Batch.initialWorld BatchResultManager.emptyDisk)
        = Batch.Queued queue [task] start
        /\ Batch.requests (Batch.world (task start)) = ["a.png"]
        /\ BatchResultManager.status
             <$> BatchResultManager.results (Batch.resultManager (task start)) !! "a"
           = Some BatchResultManager.success
        /\ BatchResultManager.skippedItems
             (BatchResultManager.session (Batch.resultManager (task start))) = 0).
Proof.
  split; [reflexivity|]. split.
  - do 2 eexists. split; [reflexivity|]. vm_compute. repeat split.
  - do 3 eexists. split; [reflexivity|]. vm_compute. repeat split.
Qed.

(** The task of an item on a new session: the breaker is closed, and the
    image goes to the provider. *)
Lemma items_are_dispatched_witness :
  exists more,
    Batch.requests
      (Batch.world
         (Batch.processItem Sample.toISOString Sample.alwaysClassifies Sample.pow
            Sample.timer gemini Sample.itemA Sample.freshState))
    = Batch.requests (Batch.world Sample.freshState) ++ "a.png" :: more.
Proof.
  refine (proj2 (proj2 (proj2 (proj2 (proj1 (proj2
    (items_are_dispatched_without_budget_check Sample.toISOString
       Sample.alwaysClassifies Sample.pow Sample.timer PQueue.new Sample.parseInt
       Sample.resumeOptions gemini [Sample.itemA] "batch-1"
       (Batch.initialWorld BatchResultManager.emptyDisk)
       Sample.itemA Sample.freshState)))))) _).
  eexists. reflexivity.
Defined.

(** C4 on concrete runs of
    [batch photos --provider gemini --output out.jsonl --resume], for a
    directory that holds [a.png] and [b.png], with the queues as p-queue
    makes them.  On a disk with no log yet, and on a disk whose log holds
    the record that an earlier run wrote for [a.png]: the command leaves
    with exit code 1 before any task has run; no image goes to the provider
    and the log has no record more than before. *)
Theorem resumed_batch_submits_nothing :
  let run d :=
    Batch.batchCommand Sample.toISOString Sample.alwaysClassifies Sample.pow
      Sample.timer PQueue.new Sample.parseInt Sample.resumeOptions gemini
      [Sample.itemA; Sample.itemB] "batch-2" (Batch.initialWorld d) in
  (exists made w,
     run BatchResultManager.emptyDisk = Batch.Exited 1 made w
     /\ Batch.requests w = []
     /\ BatchResultManager.files (Batch.disk w) !! "out.jsonl" = Some "")
  /\ (exists made w,
        run Sample.interruptedDisk = Batch.Exited 1 made w
        /\ Batch.requests w = []
        /\ BatchResultManager.files (Batch.disk w) !! "out.jsonl"
           = Some (BatchResultManager.written Sample.toISOString Sample.earlierRecordA)).
Proof.
  split; do 2 eexists; (split; [reflexivity|]); vm_compute; split; reflexivity.
Qed.

(** C5, as stated, fails: the error that [execute] re-raises is the one
    that the function threw, the same after one attempt and after three, so
    no attempt count can be read off it. *)
Lemma exhausted_error_counterexample :
  ~ (exists attemptsOf : JsError -> Z,
       forall (options : RetryLogic.RetryOptions) (behaviour : nat -> Outcome unit)
              (e : JsError),
         1 <= RetryLogic.r_maxAttempts (RetryLogic.resolve options) ->
         (forall k, RetryLogic.failsTransiently (RetryLogic.resolve options) behaviour k) ->
         fst (RetryLogic.run Sample.pow behaviour options) = inr e ->
         attemptsOf e = RetryLogic.r_maxAttempts (RetryLogic.resolve options)).
Proof.
  intros (attemptsOf & H).
  assert (Hfails : forall n k,
            RetryLogic.failsTransiently (RetryLogic.resolve (Sample.attemptsOption n))
              Sample.alwaysTimesOut k).
  { intros n k. eexists. split; reflexivity. }
  pose proof (H (Sample.attemptsOption 1) Sample.alwaysTimesOut
                (newError "Request TIMEOUT") ltac:(cbn; lia) (Hfails 1) eq_refl) as H1.
  pose proof (H (Sample.attemptsOption 3) Sample.alwaysTimesOut
                (newError "Request TIMEOUT") ltac:(cbn; lia) (Hfails 3) eq_refl) as H3.
  cbn in H1, H3. lia.
Qed.

(** The task of an item whose first two requests time out: the provider
    is asked three times, and the record of the item, written by
    [saveSuccess], says one attempt. *)
Lemma retried_item_is_recorded_with_one_attempt :
  let final :=
    Batch.processItem Sample.toISOString Sample.timesOutTwice Sample.pow Sample.timer
      gemini Sample.itemA Sample.freshState in
  Batch.requests (Batch.world final) = ["a.png"; "a.png"; "a.png"]
  /\ BatchResultManager.attempts
       <$> BatchResultManager.results (Batch.resultManager final) !! "a"
     = Some 1.
Proof. vm_compute. split; reflexivity. Qed.

Lemma retry_until_maxAttempts_witness :
  fst (RetryLogic.run Sample.pow Sample.thirdTimeLucky RetryLogic.noOptions) = inl 7
  /\ RetryLogic.invocations
       (snd (RetryLogic.run Sample.pow Sample.thirdTimeLucky RetryLogic.noOptions))
     = 3%nat.
Proof.
  assert (Hfails : forall k, (1 <= k <= 2)%nat ->
            RetryLogic.failsTransiently (RetryLogic.resolve RetryLogic.noOptions)
              Sample.thirdTimeLucky k).
  { intros k Hk. exists (newError "Request TIMEOUT").
    destruct k as [|[|[|k]]]; try lia; split; reflexivity. }
  rewrite (proj1 (retry_until_maxAttempts Sample.pow Sample.thirdTimeLucky
                    RetryLogic.noOptions 2 eq_refl Hfails) 7 eq_refl).
  split; reflexivity.
Defined.

(** C6, as stated, fails: with [maxAttempts = 0] the function is not
    invoked at all and [execute] throws 'Max retry attempts exceeded'. *)
Lemma nonretryable_error_counterexample :
  ~ (forall (options : RetryLogic.RetryOptions) (behaviour : nat -> Outcome unit)
            (e : JsError),
       behaviour 1%nat = inr e ->
       RetryLogic.isRetryableError e
         (RetryLogic.r_retryableErrors (RetryLogic.resolve options)) = false ->
       fst (RetryLogic.run Sample.pow behaviour options) = inr e
       /\ RetryLogic.invocations (snd (RetryLogic.run Sample.pow behaviour options))
          = 1%nat).
Proof.
  intros H.
  destruct (H (Sample.attemptsOption 0) Sample.badKey (newError "Invalid API key")
              eq_refl eq_refl) as (_ & Hcount).
  vm_compute in Hcount. discriminate Hcount.
Qed.

Lemma nonretryable_error_witness :
  RetryLogic.run Sample.pow Sample.badKey (Sample.attemptsOption 5)
  = (inr (newError "Invalid API key"),
     {| RetryLogic.invocations := 1;
        RetryLogic.events :=
          [RetryLogic.Invoked;
           RetryLogic.Logged (RetryLogic.RequestFailed 1 "Invalid API key" false)] |})
  /\ RetryLogic.sleeps
       (RetryLogic.events
          (snd (RetryLogic.run Sample.pow Sample.badKey (Sample.attemptsOption 5))))
     = [].
Proof.
  apply (nonretryable_error_is_not_retried Sample.pow Sample.badKey
           (Sample.attemptsOption 5) (newError "Invalid API key")).
  - cbn. lia.
  - reflexivity.
  - reflexivity.
Defined.

(** The default options: the sleep after the second failed attempt is
    min(30000, 1000 * 2^1), which is 2000. *)
Lemma backoff_delay_witness :
  RetryLogic.calculateDelay Sample.pow 2 (RetryLogic.resolve RetryLogic.noOptions)
  = RetryLogic.specifiedDelay Sample.pow 2 1000%float 2%float 30000%float
  /\ RetryLogic.sleeps
       (RetryLogic.events
          (snd (RetryLogic.run Sample.pow Sample.alwaysTimesOut RetryLogic.noOptions)))
     !! 1%nat
     = Some (RetryLogic.calculateDelay Sample.pow 2
               (RetryLogic.resolve RetryLogic.noOptions)).
Proof.
  destruct (backoff_delay_after_attempt (T := unit) Sample.pow RetryLogic.noOptions 2
              ltac:(lia))
    as (Hformula & Hslept).
  split; [exact Hformula|].
  apply (Hslept Sample.alwaysTimesOut).
  - intros k _. eexists. split; reflexivity.
  - cbn. lia.
Defined.

(* ===================================================================== *)
(** * Part III: further properties of the code                           *)
(* ===================================================================== *)

(** ** RetryLogic: how much a call of [execute] can cost *)

Section RetryLogicBounds.

Import RetryLogic.

Context {T : Type}.
Variable pow : float -> Z -> float.
Variable opts : ResolvedOptions.
Variable behaviour : nat -> Outcome T.

(** A delay that is at most [maxDelayMs], or is not a number. *)
Local Abbreviation capped :=
  (fun ms : float => (ms <=? r_maxDelayMs opts)%float = true \/ is_nan ms = true).

Lemma sleeps_snoc_other evs ev :
  (forall ms, ev <> Slept ms) -> sleeps (evs ++ [ev]) = sleeps evs.
Proof.
  intros Hev. unfold sleeps. rewrite omap_app. cbn.
  destruct ev; [| exfalso; eapply Hev; reflexivity |]; cbn; apply app_nil_r.
Qed.

Lemma sleeps_snoc_slept evs ms : sleeps (evs ++ [Slept ms]) = sleeps evs ++ [ms].
Proof. unfold sleeps. now rewrite omap_app. Qed.

(** The loop, entered with as many iterations left as [maxAttempts] allows:
    it invokes the function at most that often, sleeps once between two
    invocations and never longer than [maxDelayMs]. *)
Lemma attemptLoop_counts remaining : forall attempt le p,
  (remaining = 0%nat \/ Z.of_nat remaining = r_maxAttempts opts - attempt + 1) ->
  let p1 :=
    snd (attemptLoop pow probeSleep probeLog remaining attempt opts (scripted behaviour)
           le p) in
  (invocations p1 <= invocations p + remaining)%nat
  /\ ((1 <= remaining)%nat ->
      (invocations p < invocations p1)%nat
      /\ (length (sleeps (events p1)) + S (invocations p)
          = length (sleeps (events p)) + invocations p1)%nat)
  /\ (Forall capped (sleeps (events p)) -> Forall capped (sleeps (events p1))).
Proof.
  induction remaining as [|remaining IH]; intros attempt le p Hrem.
  - cbn. repeat split; try lia; auto.
  - destruct Hrem as [Hrem|Hrem]; [discriminate|].
    cbn [attemptLoop scripted].
    destruct (behaviour (S (invocations p))) as [v|e].
    + destruct (1 <? attempt); cbn [snd probeLog invocations events];
        rewrite ?sleeps_snoc_other by discriminate;
        repeat split; try lia; auto.
    + destruct (negb _ || (r_maxAttempts opts <=? attempt)) eqn:Hstop.
      * cbn [snd probeLog invocations events].
        rewrite !sleeps_snoc_other by discriminate.
        repeat split; try lia; auto.
      * apply orb_false_iff in Hstop as (_ & Hlt). apply Z.leb_gt in Hlt.
        set (p2 := probeSleep _ (probeLog _ _)).
        destruct (IH (attempt + 1) (Some e) p2) as (Hle & Hsl & Hmax); [right; lia|].
        assert (Hinv2 : invocations p2 = S (invocations p)) by reflexivity.
        assert (Hsl2 : sleeps (events p2)
                       = sleeps (events p) ++ [calculateDelay pow attempt opts]).
        { subst p2. unfold probeSleep, probeLog. cbn [events].
          rewrite sleeps_snoc_slept, !sleeps_snoc_other by discriminate. reflexivity. }
        destruct Hsl as (Hlt2 & Heq2); [lia|].
        rewrite Hinv2 in *. rewrite Hsl2, length_app in Heq2. cbn [length] in Heq2.
        repeat split; try lia.
        intros Hall. apply Hmax. rewrite Hsl2. apply Forall_app. split; [exact Hall|].
        constructor; [|constructor]. unfold calculateDelay. apply min_le_r.
Qed.

End RetryLogicBounds.

Section RetryLogicExtras.

Import RetryLogic.

Context {T : Type}.
Variable pow : float -> Z -> float.

(** X1.  For a whole number [maxAttempts] (3 when the options name
    none): whatever the function does, a call of [execute] invokes it at
    most [maxAttempts] times (not at all when [maxAttempts] is below 1),
    and it sleeps exactly once between two invocations: the number of
    backoff sleeps is the number of invocations less one. *)
Theorem execute_invocations_bounded (behaviour : nat -> Outcome T)
    (options : RetryOptions) :
  let p := snd (run pow behaviour options) in
  (invocations p <= Z.to_nat (r_maxAttempts (resolve options)))%nat
  /\ length (sleeps (events p)) = (invocations p - 1)%nat.
Proof.
  intros p. subst p. unfold run, execute.
  set (opts := resolve options).
  remember (Z.to_nat (r_maxAttempts opts)) as n eqn:Hn.
  destruct (attemptLoop_counts pow opts behaviour n 1 None freshProbe)
    as (Hle & Hsl & _).
  { destruct n; [now left | right; lia]. }
  cbn [invocations freshProbe Nat.add] in Hle. split; [exact Hle|].
  destruct n as [|n]; [reflexivity|].
  destruct Hsl as (_ & Heq); [lia|].
  change (sleeps (events freshProbe)) with (@nil float) in Heq.
  change (invocations freshProbe) with 0%nat in Heq. cbn [length] in Heq. lia.
Qed.

(** X2.  For a whole number [maxAttempts]: every backoff sleep of a call
    of [execute] is asked for a time that is at most [maxDelayMs], or that
    is not a number (which is what [Math.min] gives when the delay or
    [maxDelayMs] is NaN); and there are fewer sleeps than [maxAttempts]. *)
Theorem execute_backoff_bounded (behaviour : nat -> Outcome T)
    (options : RetryOptions) :
  let opts := resolve options in
  let slept := sleeps (events (snd (run pow behaviour options))) in
  Forall (fun ms => (ms <=? r_maxDelayMs opts)%float = true \/ is_nan ms = true) slept
  /\ (Z.of_nat (length slept) <= Z.max 0 (r_maxAttempts opts - 1)).
Proof.
  intros opts slept. subst slept. unfold run, execute. fold opts.
  remember (Z.to_nat (r_maxAttempts opts)) as n eqn:Hn.
  destruct (attemptLoop_counts pow opts behaviour n 1 None freshProbe)
    as (Hle & Hsl & Hmax).
  { destruct n; [now left | right; lia]. }
  split; [apply Hmax; constructor|].
  destruct n as [|n]; [cbn; lia|].
  destruct Hsl as (_ & Heq); [lia|].
  change (sleeps (events freshProbe)) with (@nil float) in Heq.
  change (invocations freshProbe) with 0%nat in Heq, Hle.
  cbn [length Nat.add] in Heq, Hle. lia.
Qed.

End RetryLogicExtras.

(** ** CircuitBreaker and CircuitBreakerManager *)

Section CircuitBreakerExtras.

Import CircuitBreaker.

Context {W : Type}.
Variable now : W -> Z.
Variable toISOString : Z -> string.

Ltac breaker_cases :=
  repeat match goal with
    | |- context [?a <=? ?b] => destruct (Z.leb_spec a b)
    end.

Lemma reachable_options (opts : CircuitBreakerOptions) (b : t) :
  reachable now toISOString opts b -> options b = options (new opts).
Proof.
  induction 1 as [|b w b1 _ IH He|b _ IH|b w _ IH|b _ IH];
    [reflexivity| | | |exact IH]; rewrite <- IH.
  - unfold enter in He. destruct (state b);
      try destruct (shouldAttemptReset now b w); now inversion He.
  - unfold onSuccess, reset. destruct b as [[] f s lf nr o]; cbn;
      breaker_cases; reflexivity.
  - unfold onFailure, trip. destruct b as [st f s lf nr o]; cbn;
      breaker_cases; reflexivity.
Qed.

(** X5.  Only failures in a row open the breaker: after a call that
    returned, a closed breaker has forgotten its earlier failures, and
    fewer than [F] calls that throw leave it closed. *)
Theorem success_forgets_failures (opts : CircuitBreakerOptions) (b b1 b2 : t)
    (n : nat) :
  let F := o_failureThreshold (options (new opts)) in
  0 < F -> 0 < o_successThreshold (options (new opts)) ->
  reachable now toISOString opts b ->
  state b = closed ->
  succeededRuns now toISOString 1 b b1 ->
  failedRuns now toISOString n b1 b2 ->
  Z.of_nat n < F ->
  failures b1 = 0 /\ state b2 = closed /\ failures b2 = Z.of_nat n.
Proof.
  intros F HF HH Hreach Hclosed Hok Hfail Hn.
  destruct (reachable_sound now toISOString opts b HF Hreach) as (Ho & Hsound).
  pose proof (sound_closed_invariant b Hclosed Hsound) as Hinv.
  inversion Hok as [|k T b' fn w v b1' w1 b1'' Hx Hrest]; subst.
  inversion Hrest; subst.
  assert (Hb1 : b1 = onSuccess b).
  { apply execute_returns in Hx as (_ & [(Hopen & _)|(_ & ->)]); [congruence|reflexivity]. }
  assert (Ho1 : options b1 = options (new opts)).
  { replace b1 with (snd (fst (execute now toISOString b fn w))) by now rewrite Hx.
    now rewrite execute_options. }
  assert (Hinv1 : invariant b1).
  { replace b1 with (snd (fst (execute now toISOString b fn w))) by now rewrite Hx.
    apply execute_invariant; rewrite ?Ho; assumption. }
  assert (Hst1 : state b1 = closed /\ failures b1 = 0).
  { subst b1. unfold onSuccess. destruct b as [st f s lf nr o]. cbn in *.
    subst st. cbn. split; reflexivity. }
  destruct Hst1 as (Hs1 & Hf1).
  destruct (failedRuns_state now toISOString n b1 b2 Hfail) as (_ & Hstay & _);
    rewrite ?Ho1; try assumption.
  destruct (Hstay Hs1) as (Hs2 & Hf2); [rewrite Ho1, Hf1; fold F; lia|].
  repeat split; [exact Hf1 | exact Hs2 | lia].
Qed.

(** X6.  [forceReset] puts a breaker back exactly as the constructor made
    it, whatever state it was in. *)
Theorem forceReset_is_new (opts : CircuitBreakerOptions) (b : t) :
  reachable now toISOString opts b -> forceReset b = new opts.
Proof.
  intros Hreach. apply reachable_options in Hreach.
  unfold forceReset, reset. rewrite Hreach. reflexivity.
Qed.

End CircuitBreakerExtras.

Section CircuitBreakerManagerExtras.

Import CircuitBreakerManager.

Context {W : Type}.
Variable now : W -> Z.
Variable toISOString : Z -> string.

Lemma execute_other {T} (p q : AIProvider) (fn : Async W T) (m : t) (w : W) :
  q <> p -> snd (fst (execute now toISOString p fn m w)) q = m q.
Proof.
  intros Hne. unfold execute, getBreaker.
  destruct (m p) as [b|];
    destruct (CircuitBreaker.execute now toISOString _ fn w) as [[outcome b1] w1];
    cbn; unfold set; rewrite !decide_False by exact Hne; reflexivity.
Qed.

Lemma execute_depends_on_own_breaker {T} (q : AIProvider) (fn : Async W T)
    (m m' : t) (w : W) :
  m' q = m q ->
  fst (fst (execute now toISOString q fn m' w)) = fst (fst (execute now toISOString q fn m w))
  /\ snd (execute now toISOString q fn m' w) = snd (execute now toISOString q fn m w)
  /\ snd (fst (execute now toISOString q fn m' w)) q
     = snd (fst (execute now toISOString q fn m w)) q.
Proof.
  intros Heq. unfold execute, getBreaker. rewrite Heq.
  destruct (m q) as [b|];
    destruct (CircuitBreaker.execute now toISOString _ fn w) as [[outcome b1] w1];
    cbn; unfold set; rewrite !decide_True by reflexivity; auto.
Qed.

(** X7.  The breakers of two providers do not touch: any number of calls
    for a provider [p], whatever they do to its breaker, leave the breaker
    of another provider [q] as it was, and a call for [q] made afterwards
    has the outcome, the effect on the world and the effect on the breaker
    of [q] that it would have had without them. *)
Theorem breakers_are_isolated {T} (p q : AIProvider) (m m' : t)
    (fn : Async W T) (w : W) :
  q <> p ->
  callsFor now toISOString p m m' ->
  m' q = m q
  /\ fst (fst (execute now toISOString q fn m' w))
     = fst (fst (execute now toISOString q fn m w))
  /\ snd (execute now toISOString q fn m' w) = snd (execute now toISOString q fn m w)
  /\ snd (fst (execute now toISOString q fn m' w)) q
     = snd (fst (execute now toISOString q fn m w)) q.
Proof.
  intros Hne Hcalls.
  assert (Hq : m' q = m q).
  { induction Hcalls as [m|U g m w0 m2 _ IH]; [reflexivity|].
    rewrite IH. now apply execute_other. }
  split; [exact Hq|]. now apply execute_depends_on_own_breaker.
Qed.

(** X8.  The breaker of a provider is made once: [getBreaker] returns the
    one that is there and ignores the options of a later call, so that the
    thresholds of the first call stay in effect. *)
Theorem getBreaker_keeps_first (p : AIProvider)
    (first later : option CircuitBreaker.CircuitBreakerOptions) (m : t) :
  m p = None ->
  let made := getBreaker p first m in
  fst made = CircuitBreaker.new (default noOptions first)
  /\ getBreaker p later (snd made) = (fst made, snd made).
Proof.
  intros Hnone made. subst made. unfold getBreaker. rewrite Hnone. cbn.
  unfold set. rewrite decide_True by reflexivity. split; reflexivity.
Qed.

End CircuitBreakerManagerExtras.


(** ** BudgetManager and CostTracker *)

Section BudgetExtraFacts.

Import CostTracker BudgetManager BudgetScenario BudgetExtras.

Lemma exceededLimit_Some periodLimit amount lim :
  exceededLimit periodLimit amount = Some lim ->
  configured periodLimit = Some lim /\ (lim <? amount)%float = true.
Proof.
  unfold exceededLimit. destruct (configured periodLimit) as [l|]; [|discriminate].
  destruct (l <? amount)%float eqn:Hlt; [|discriminate]. intros [= <-]. auto.
Qed.

Lemma checkWarning_alerts level periodLimit periodSpent cost now (bm : BudgetManager.t) :
  let bm1 := checkWarning level periodLimit periodSpent cost now bm in
  limits bm1 = limits bm
  /\ exists added,
       alerts bm1 = alerts bm ++ added
       /\ Forall (fun a => a_type a = warning) added
       /\ (length added <= 1)%nat.
Proof.
  unfold checkWarning. destruct (configured periodLimit) as [lim|].
  - destruct (_ && _); cbn.
    + split; [reflexivity|]. eexists. split; [reflexivity|].
      split; [repeat constructor | cbn; lia].
    + split; [reflexivity|]. exists []. rewrite app_nil_r. repeat split; auto.
  - cbn. split; [reflexivity|]. exists []. rewrite app_nil_r. repeat split; auto.
Qed.

Lemma checkWarnings_alerts status cost now (bm : BudgetManager.t) :
  exists added,
    alerts (checkWarnings status cost now bm) = alerts bm ++ added
    /\ Forall (fun a => a_type a = warning) added
    /\ (length added <= 3)%nat.
Proof.
  unfold checkWarnings.
  set (bm1 := checkWarning daily _ _ _ _ bm).
  set (bm2 := checkWarning weekly _ _ _ _ bm1).
  destruct (checkWarning_alerts daily (dailyLimit (limits bm)) (spent (s_daily status))
              cost now bm) as (_ & a1 & H1 & F1 & L1).
  destruct (checkWarning_alerts weekly (weeklyLimit (limits bm1)) (spent (s_weekly status))
              cost now bm1) as (_ & a2 & H2 & F2 & L2).
  destruct (checkWarning_alerts monthly (monthlyLimit (limits bm2))
              (spent (s_monthly status)) cost now bm2) as (_ & a3 & H3 & F3 & L3).
  fold bm1 in H1. fold bm2 in H2.
  exists (a1 ++ a2 ++ a3). rewrite H3, H2, H1, <- !app_assoc.
  split; [reflexivity|]. split.
  - apply Forall_app; split; [exact F1|]. apply Forall_app; split; assumption.
  - rewrite !length_app. lia.
Qed.

(** The decision of [canAfford] is read off the limits, the starts of the
    windows and the tracker alone. *)
Lemma canAfford_decision (bm bm' : BudgetManager.t) tracker p cost now :
  limits bm' = limits bm -> startOfDay bm' = startOfDay bm ->
  startOfWeek bm' = startOfWeek bm -> startOfMonth bm' = startOfMonth bm ->
  fst (canAfford bm' tracker p cost now) = fst (canAfford bm tracker p cost now).
Proof.
  intros Hl Hd Hw Hm. unfold canAfford, getStatus.
  rewrite Hl, Hd, Hw, Hm. cbn [s_daily s_weekly s_monthly s_byProvider spent periodStatus].
  repeat match goal with
    | |- context [exceededLimit ?l ?a] => destruct (exceededLimit l a); [reflexivity|]
    end.
  reflexivity.
Qed.

(** X9.  A denial adds exactly one alert, of type exceeded, whose spend is
    above its limit; an approval adds warnings only, at most three.  In
    both cases the alerts already there and the limits stay, and asking
    again gives the same answer. *)
Theorem canAfford_alerts (bm : BudgetManager.t) (tracker : CostTracker.t)
    (p : AIProvider) (cost : float) (now : Z) :
  let ok := fst (canAfford bm tracker p cost now) in
  let bm1 := snd (canAfford bm tracker p cost now) in
  limits bm1 = limits bm
  /\ fst (canAfford bm1 tracker p cost now) = ok
  /\ exists added,
       alerts bm1 = alerts bm ++ added
       /\ (ok = false ->
           exists a, added = [a] /\ a_type a = exceeded
                     /\ (a_limit a <? a_currentSpend a)%float = true)
       /\ (ok = true ->
           Forall (fun a => a_type a = warning) added /\ (length added <= 3)%nat).
Proof.
  intros ok bm1.
  pose proof (canAfford_keeps bm tracker p cost now) as (Hl & Hd & Hw & Hm).
  fold bm1 in Hl, Hd, Hw, Hm.
  split; [exact Hl|]. split; [now apply canAfford_decision|].
  subst ok bm1. unfold canAfford.
  repeat match goal with
    | |- context [exceededLimit ?l ?a] =>
        let H := fresh "H" in
        destruct (exceededLimit l a) as [lim|] eqn:H;
        [ apply exceededLimit_Some in H as (_ & H); cbn;
          eexists; split; [reflexivity|]; split;
          [ intros _; eexists; split; [reflexivity|]; split; [reflexivity | exact H]
          | discriminate ]
        | ]
    end.
  cbn [fst snd].
  destruct (checkWarnings_alerts (getStatus bm tracker now) cost now bm)
    as (added & Ha & Hf & Hlen).
  exists added. split; [exact Ha|]. split; [discriminate | auto].
Qed.

(** X10.  A limit of [0] limits nothing: when a ceiling, or the limit per
    request, is set to zero and nothing else is set, [canAfford] approves
    every request, whatever it costs and whatever was spent, and raises no
    alert. *)
Theorem zero_limit_is_no_limit (bm : BudgetManager.t) (tracker : CostTracker.t)
    (p : AIProvider) (cost : float) (now : Z) :
  ((exists ceiling, limits bm = onlyCeiling ceiling 0%float)
   \/ limits bm = onlyPerRequest 0%float) ->
  canAfford bm tracker p cost now = (true, bm).
Proof.
  intros [(ceiling & Hl)|Hl]; unfold canAfford, exceededLimit, checkWarnings, checkWarning,
    providerLimit; rewrite Hl.
  - destruct ceiling as [| | |q]; cbn; rewrite ?Hl; cbn; rewrite ?Hl; cbn;
      try reflexivity.
    destruct (decide (p = q)); reflexivity.
  - cbn. rewrite Hl. cbn. rewrite Hl. reflexivity.
Qed.

Lemma getRecordsByDateRange_app startDate endDate (r1 r2 : CostTracker.t) :
  getRecordsByDateRange startDate endDate (r1 ++ r2)
  = getRecordsByDateRange startDate endDate r1
    ++ getRecordsByDateRange startDate endDate r2.
Proof. unfold getRecordsByDateRange. apply List.filter_app. Qed.

Lemma getRecordsByDateRange_before startDate endDate (records : CostTracker.t) :
  Forall (fun r => timestamp r < startDate) records ->
  getRecordsByDateRange startDate endDate records = [].
Proof.
  unfold getRecordsByDateRange. induction 1 as [|r records Hr _ IH]; [reflexivity|].
  cbn. replace (startDate <=? timestamp r) with false by (symmetry; lia).
  exact IH.
Qed.

(** X11.  What was spent before the day, the week and the month began does
    not count: for a request to a provider without a limit of its own,
    [canAfford] answers and alerts as if the older records were not there. *)
Theorem spend_before_the_windows_is_ignored (bm : BudgetManager.t)
    (older tracker : CostTracker.t) (p : AIProvider) (cost : float) (now : Z) :
  Forall (fun r => timestamp r < startOfDay bm /\ timestamp r < startOfWeek bm
                   /\ timestamp r < startOfMonth bm) older ->
  providerLimit (limits bm) p = None ->
  canAfford bm (older ++ tracker) p cost now = canAfford bm tracker p cost now.
Proof.
  intros Hold Hp. unfold canAfford, getStatus.
  rewrite !getRecordsByDateRange_app.
  rewrite (getRecordsByDateRange_before (startOfDay bm) now older),
    (getRecordsByDateRange_before (startOfWeek bm) now older),
    (getRecordsByDateRange_before (startOfMonth bm) now older)
    by (eapply Forall_impl; [exact Hold | cbn; intros r Hr; tauto]).
  cbn [app s_daily s_weekly s_monthly s_byProvider spent periodStatus].
  rewrite Hp. unfold checkWarnings. cbn [s_daily s_weekly s_monthly spent periodStatus].
  assert (Hnone : forall amount, exceededLimit None amount = None) by reflexivity.
  rewrite !Hnone. reflexivity.
Qed.

(** X12.  [getRecentAlerts(count)] with a [count] of 1 or more gives the
    last [count] alerts, all of them when there are fewer; with a [count]
    of 0 it gives all the alerts, not none; without a [count] it gives the
    last ten. *)
Theorem getRecentAlerts_spec (bm : BudgetManager.t) (count : Z) :
  1 <= count ->
  getRecentAlerts (Some count) bm
  = drop (length (alerts bm) - Z.to_nat count) (alerts bm)
  /\ length (getRecentAlerts (Some count) bm)
     = Nat.min (Z.to_nat count) (length (alerts bm))
  /\ getRecentAlerts (Some 0) bm = alerts bm
  /\ getRecentAlerts None bm = getRecentAlerts (Some 10) bm.
Proof.
  intros Hc.
  assert (Hlast : getRecentAlerts (Some count) bm
                  = drop (length (alerts bm) - Z.to_nat count) (alerts bm)).
  { unfold getRecentAlerts, slice. cbv zeta.
    change (default 10 (Some count)) with count.
    replace (- count <? 0) with true by (symmetry; lia).
    f_equal. lia. }
  split; [exact Hlast|]. split; [rewrite Hlast, length_drop; lia|].
  split; [|reflexivity].
  unfold getRecentAlerts, slice. cbv zeta.
  change (default 10 (Some 0)) with 0. change (- 0 <? 0) with false. cbv iota.
  replace (Z.to_nat (Z.min (- 0) (Z.of_nat (length (alerts bm))))) with 0%nat by lia.
  reflexivity.
Qed.

End BudgetExtraFacts.

Section CostTrackerExtras.

Import CostTracker BudgetExtras.

Lemma providerStats_snoc (records : CostTracker.t) (r : CostRecord) (p : AIProvider) :
  providerStats (records ++ [r]) p
  = if decide (p = provider r) then
      match providerStats records (provider r) with
      | Some existing =>
          Some {| requests := requests existing + 1;
                  statsCostUsd := (statsCostUsd existing + costUsd r)%float |}
      | None => Some {| requests := 1; statsCostUsd := costUsd r |}
      end
    else providerStats records p.
Proof. unfold providerStats. now rewrite fold_left_app. Qed.

Lemma getRecordsByProvider_snoc p (records : CostTracker.t) (r : CostRecord) :
  getRecordsByProvider p (records ++ [r])
  = getRecordsByProvider p records ++ (if decide (provider r = p) then [r] else []).
Proof.
  unfold getRecordsByProvider. rewrite List.filter_app. cbn.
  destruct (decide (provider r = p)) as [Heq|Hne].
  - now rewrite bool_decide_eq_true_2.
  - now rewrite bool_decide_eq_false_2.
Qed.

(** X13.  The statistics agree with the records: a provider has an entry
    exactly when it has a record, its entry counts its records and carries
    the cost that the budget reads, and the counts of the four providers
    add up to the total number of requests. *)
Theorem getStats_counts (records : CostTracker.t) :
  (forall p,
     requestsOf records p = Z.of_nat (length (getRecordsByProvider p records))
     /\ (providerStats records p = None <-> getRecordsByProvider p records = [])
     /\ statsCostUsd <$> providerStats records p = byProvider records p)
  /\ requestsOf records gemini + requestsOf records claude
     + requestsOf records openai + requestsOf records bedrock
     = totalRequests records.
Proof.
  assert (Hp : forall p,
            requestsOf records p = Z.of_nat (length (getRecordsByProvider p records))
            /\ (providerStats records p = None <-> getRecordsByProvider p records = [])
            /\ statsCostUsd <$> providerStats records p = byProvider records p).
  { induction records as [|r records IH] using rev_ind; intros p.
    - cbn. repeat split; reflexivity.
    - destruct (IH p) as (Hn & Hnone & Hcost).
      destruct (IH (provider r)) as (Hn' & Hnone' & Hcost').
      unfold requestsOf in *.
      rewrite providerStats_snoc, getRecordsByProvider_snoc, byProvider_snoc, length_app.
      destruct (decide (p = provider r)) as [->|Hne].
      + rewrite decide_True by reflexivity. cbn [length].
        rewrite <- Hcost'.
        destruct (providerStats records (provider r)) as [existing|]; cbn.
        * repeat split; try lia; try discriminate.
          intros H. apply app_eq_nil in H as (_ & H). discriminate H.
        * repeat split; try discriminate.
          -- destruct Hnone' as (Hnil & _). rewrite Hnil by reflexivity. reflexivity.
          -- intros H. apply app_eq_nil in H as (_ & H). discriminate H.
      + rewrite decide_False by congruence. cbn [length].
        rewrite app_nil_r, Nat.add_0_r. repeat split; tauto. }
  split; [exact Hp|].
  unfold totalRequests.
  destruct (Hp gemini) as (-> & _), (Hp claude) as (-> & _),
    (Hp openai) as (-> & _), (Hp bedrock) as (-> & _).
  clear Hp. unfold getRecordsByProvider.
  induction records as [|r records IH]; [reflexivity|].
  cbn [List.filter length]. destruct (provider r); cbn [bool_decide decide_rel];
    repeat match goal with
      | |- context [bool_decide ?P] =>
          first [rewrite (bool_decide_eq_true_2 P) by congruence
                | rewrite (bool_decide_eq_false_2 P) by congruence]
      end; cbn [length]; lia.
Qed.

End CostTrackerExtras.


(** ** BatchResultManager: paths, the results map and the log *)

Section LedgerExtras.

Import BatchResultManager.

Variable toISOString : Z -> string.

Lemma substring_all (s : string) : String.substring 0 (String.length s) s = s.
Proof. induction s as [|c s IH]; [reflexivity|]. cbn. now rewrite IH. Qed.

Lemma substring_take (a b : string) :
  String.substring 0 (String.length a) (a ++ b)%string = a.
Proof.
  induction a as [|c a IH].
  - destruct b; reflexivity.
  - rewrite append_String. cbn [String.length String.substring]. now rewrite IH.
Qed.

Lemma substring_skip (a b : string) :
  String.substring (String.length a) (String.length b) (a ++ b)%string = b.
Proof.
  induction a as [|c a IH]; [apply substring_all|].
  rewrite append_String. cbn [String.length String.substring]. exact IH.
Qed.

Lemma substring_split (s : string) : forall n,
  (n <= String.length s)%nat ->
  s = (String.substring 0 n s ++ String.substring n (String.length s - n) s)%string.
Proof.
  induction s as [|c s IH]; intros n Hn.
  - destruct n; [reflexivity | cbn in Hn; lia].
  - destruct n as [|n].
    + cbn [String.substring String.length Nat.sub String.append].
      now rewrite substring_all.
    + cbn [String.length] in Hn. cbn [String.substring String.length Nat.sub].
      rewrite append_String. f_equal. apply IH. lia.
Qed.

Lemma length_append (a b : string) :
  String.length (a ++ b)%string = (String.length a + String.length b)%nat.
Proof.
  induction a as [|c a IH]; [reflexivity|].
  rewrite append_String. cbn [String.length Nat.add]. now rewrite IH.
Qed.

(** [stripSuffix] succeeds exactly on the strings that end in the suffix. *)
Lemma stripSuffix_spec (suffix s base : string) :
  stripSuffix suffix s = Some base <-> s = (base ++ suffix)%string.
Proof.
  unfold stripSuffix. split.
  - destruct (String.length suffix <=? String.length s)%nat eqn:Hlen; [|discriminate].
    apply Nat.leb_le in Hlen. cbn [andb].
    destruct (String.eqb_spec
                (String.substring (String.length s - String.length suffix)
                   (String.length suffix) s) suffix) as [Heq|]; [|discriminate].
    intros [= <-].
    rewrite (substring_split s (String.length s - String.length suffix)) at 1 by lia.
    f_equal. rewrite <- Heq at 3. f_equal. lia.
  - intros ->. rewrite length_append.
    replace (String.length suffix <=? String.length base + String.length suffix)%nat
      with true by (symmetry; apply Nat.leb_le; lia).
    replace (String.length base + String.length suffix - String.length suffix)%nat
      with (String.length base) by lia.
    rewrite substring_skip, String.eqb_refl, substring_take. reflexivity.
Qed.

Lemma snoc_inj (a b : string) (c d : ascii) :
  (a ++ String c "")%string = (b ++ String d "")%string -> c = d.
Proof.
  revert b. induction a as [|x a IH]; intros [|y b] H.
  - change (String c "" = String d "") in H. congruence.
  - change (String c "" = String y (b ++ String d "")) in H. injection H as _ H.
    destruct b; discriminate H.
  - change (String x (a ++ String c "") = String d "") in H. injection H as _ H.
    destruct a; discriminate H.
  - rewrite !append_String in H. injection H as _ H. exact (IH b H).
Qed.

(** X14.  The session file of [base.jsonl] and of [base.json] is
    [base.session.json]; for an output path with any other ending the
    path of the session file is the output path itself. *)
Theorem sessionPathOf_spec :
  (forall base, sessionPathOf (base ++ ".jsonl") = (base ++ ".session.json")%string)
  /\ (forall base, sessionPathOf (base ++ ".json") = (base ++ ".session.json")%string)
  /\ (forall path,
        (forall base, path <> (base ++ ".jsonl")%string
                      /\ path <> (base ++ ".json")%string) ->
        sessionPathOf path = path).
Proof.
  split; [|split].
  - intros base. unfold sessionPathOf.
    now rewrite (proj2 (stripSuffix_spec ".jsonl" (base ++ ".jsonl") base) eq_refl).
  - intros base. unfold sessionPathOf.
    destruct (stripSuffix ".jsonl" (base ++ ".json")) as [other|] eqn:Hl.
    + apply stripSuffix_spec in Hl. exfalso.
      change ".json" with (".jso" ++ "n")%string in Hl.
      change ".jsonl" with (".json" ++ "l")%string in Hl.
      rewrite <- !append_assoc in Hl. apply snoc_inj in Hl. discriminate Hl.
    + now rewrite (proj2 (stripSuffix_spec ".json" (base ++ ".json") base) eq_refl).
  - intros path Hnot. unfold sessionPathOf.
    destruct (stripSuffix ".jsonl" path) as [base|] eqn:Hl.
    + apply stripSuffix_spec in Hl. destruct (Hnot base) as (H & _). contradiction.
    + destruct (stripSuffix ".json" path) as [base|] eqn:Hj; [|reflexivity].
      apply stripSuffix_spec in Hj. destruct (Hnot base) as (_ & H). contradiction.
Qed.

Lemma save_results (op : Save) (m : t) (d : Disk) :
  results (fst (save toISOString op m d)) = <[id (savedItem op) := savedItem op]> (results m)
  /\ outputStream (fst (save toISOString op m d)) = outputStream m
  /\ outputPath (fst (save toISOString op m d)) = outputPath m.
Proof. destruct op; cbn; auto. Qed.

Lemma save_paths (op : Save) (m : t) (d : Disk) :
  sessionPath (fst (save toISOString op m d)) = sessionPath m.
Proof. destruct op; reflexivity. Qed.

(** One call under an open stream: its line goes to the end of the log. *)
Lemma save_log (op : Save) (m : t) (d : Disk) (path : string) :
  outputStream m = Some path -> sessionPath m <> path ->
  files (snd (save toISOString op m d)) !! path
  = Some (default "" (files d !! path) ++ written toISOString (savedItem op))%string.
Proof.
  intros Hstream Hne.
  destruct op; unfold save, saveSuccess, saveFailure, saveSkipped, record, writeToStream;
    cbn [fst snd outputStream sessionPath withSession setResult savedItem];
    rewrite Hstream, append_eq; unfold saveSession;
    cbn [fst snd outputStream sessionPath withSession setResult];
    (rewrite writeFileSync_ne by congruence); reflexivity.
Qed.

(** One call: the files that are neither the log nor the session file. *)
Lemma save_other (op : Save) (m : t) (d : Disk) (other : string) :
  outputStream m <> Some other -> other <> sessionPath m ->
  files (snd (save toISOString op m d)) !! other = files d !! other.
Proof.
  intros Hstream Hne.
  destruct op; unfold save, saveSuccess, saveFailure, saveSkipped, record;
    cbn [fst snd]; (rewrite writeToStream_ne by exact Hstream);
    unfold saveSession; cbn [sessionPath withSession setResult];
    now apply writeFileSync_ne.
Qed.

(** X15.  After any sequence of [save...] calls the results map holds, for
    an id, the item of the last call with that id, and what it held before
    for the ids that no call named; so [getUnprocessedItems] returns, in
    their order, exactly the items that had no entry and were named by no
    call. *)
Theorem saved_items_are_processed (ops : list Save) (m : t) (d : Disk)
    (allItems : list (string * string)) :
  let m1 := fst (saveAll toISOString ops m d) in
  (forall i,
     results m1 !! i
     = match List.find (fun op => String.eqb (id (savedItem op)) i) (rev ops) with
       | Some op => Some (savedItem op)
       | None => results m !! i
       end)
  /\ getUnprocessedItems m1 allItems
     = List.filter
         (fun item =>
            bool_decide (results m !! fst item = None)
            && negb (existsb (fun op => String.eqb (id (savedItem op)) (fst item)) ops))
         allItems.
Proof.
  intros m1.
  assert (Hlookup : forall i,
            results m1 !! i
            = match List.find (fun op => String.eqb (id (savedItem op)) i) (rev ops) with
              | Some op => Some (savedItem op)
              | None => results m !! i
              end).
  { subst m1. induction ops as [|op ops IH] using rev_ind; intros i; [reflexivity|].
    rewrite saveAll_snoc, rev_unit. cbn [List.find].
    destruct (save_results op (fst (saveAll toISOString ops m d))
                (snd (saveAll toISOString ops m d))) as (-> & _).
    destruct (String.eqb_spec (id (savedItem op)) i) as [->|Hne].
    - apply lookup_insert_eq.
    - rewrite lookup_insert_ne by exact Hne. apply IH. }
  split; [exact Hlookup|].
  unfold getUnprocessedItems. apply List.filter_ext. intros item.
  apply eq_true_iff_eq.
  rewrite andb_true_iff, negb_true_iff, !bool_decide_eq_true, not_elem_of_dom, Hlookup.
  destruct (List.find _ (rev ops)) as [op|] eqn:Hfind.
  - apply List.find_some in Hfind as (Hin & Heq). apply in_rev in Hin.
    assert (Hex : existsb (fun op => String.eqb (id (savedItem op)) (fst item)) ops = true)
      by (apply existsb_exists; eauto).
    split; [discriminate|]. intros (_ & Hnone). congruence.
  - split; [|tauto]. intros H. split; [exact H|].
    apply not_true_iff_false. intros Hex. apply existsb_exists in Hex as (op & Hin & Heq).
    apply in_rev in Hin. pose proof (List.find_none _ _ Hfind op Hin) as Hno.
    cbn in Hno. congruence.
Qed.

Lemma saveAll_stream (ops : list Save) (m : t) (d : Disk) :
  outputStream (fst (saveAll toISOString ops m d)) = outputStream m.
Proof.
  induction ops as [|op ops IH] using rev_ind; [reflexivity|].
  rewrite saveAll_snoc.
  destruct (save_results op (fst (saveAll toISOString ops m d))
              (snd (saveAll toISOString ops m d))) as (_ & -> & _).
  exact IH.
Qed.

Lemma concat_snoc (parts : list string) (part : string) :
  String.concat "" (parts ++ [part]) = (String.concat "" parts ++ part)%string.
Proof.
  induction parts as [|p parts IH]; [reflexivity|].
  destruct parts as [|q parts].
  - reflexivity.
  - change (String.concat "" ((p :: q :: parts) ++ [part]))
      with (p ++ "" ++ String.concat "" ((q :: parts) ++ [part]))%string.
    rewrite IH.
    change (String.concat "" (p :: q :: parts))
      with (p ++ "" ++ String.concat "" (q :: parts))%string.
    change ("" ++ String.concat "" (q :: parts))%string with (String.concat "" (q :: parts)).
    change ("" ++ (String.concat "" (q :: parts) ++ part))%string
      with (String.concat "" (q :: parts) ++ part)%string.
    now rewrite append_assoc.
Qed.

Lemma saveAll_sessionPath (ops : list Save) (m : t) (d : Disk) :
  sessionPath (fst (saveAll toISOString ops m d)) = sessionPath m.
Proof.
  induction ops as [|op ops IH] using rev_ind; [reflexivity|].
  now rewrite saveAll_snoc, save_paths.
Qed.

(** The log under an open stream: every call appends its line. *)
Lemma saveAll_logs (ops : list Save) (m : t) (d : Disk) (path prior : string) :
  outputStream m = Some path ->
  sessionPath m <> path ->
  files d !! path = Some prior ->
  files (snd (saveAll toISOString ops m d)) !! path
  = Some (prior
          ++ String.concat "" (map (fun op => written toISOString (savedItem op)) ops))%string
  /\ forall other, other <> path -> other <> sessionPath m ->
       files (snd (saveAll toISOString ops m d)) !! other = files d !! other.
Proof.
  intros Hstream Hsession Hprior. induction ops as [|op ops IH] using rev_ind.
  - cbn [map String.concat]. rewrite append_empty_r. split; [exact Hprior | reflexivity].
  - destruct IH as (IHp & IHo). rewrite saveAll_snoc. split.
    + rewrite save_log with (path := path)
        by (rewrite ?saveAll_stream, ?saveAll_sessionPath; assumption).
      rewrite IHp. unfold default, from_option, Datatypes.id. f_equal.
      rewrite map_app. cbn [map]. rewrite concat_snoc. now rewrite append_assoc.
    + intros other Hne Hns. rewrite save_other.
      * now apply IHo.
      * rewrite saveAll_stream, Hstream. congruence.
      * now rewrite saveAll_sessionPath.
Qed.

Lemma saveAll_closed (ops : list Save) (m : t) (d : Disk) (other : string) :
  outputStream m = None -> other <> sessionPath m ->
  files (snd (saveAll toISOString ops m d)) !! other = files d !! other.
Proof.
  intros Hstream Hne. induction ops as [|op ops IH] using rev_ind; [reflexivity|].
  rewrite saveAll_snoc, save_other; [exact IH| |].
  - now rewrite saveAll_stream, Hstream.
  - now rewrite saveAll_sessionPath.
Qed.

Lemma saveAll_outputPath (ops : list Save) (m : t) (d : Disk) :
  outputPath (fst (saveAll toISOString ops m d)) = outputPath m.
Proof.
  induction ops as [|op ops IH] using rev_ind; [reflexivity|].
  rewrite saveAll_snoc.
  destruct (save_results op (fst (saveAll toISOString ops m d))
              (snd (saveAll toISOString ops m d))) as (_ & _ & ->).
  exact IH.
Qed.

(** X16.  The log is only ever appended to, and only once the stream is
    open.  For an output path whose session file is a file of its own (a
    path ending in [.json] or [.jsonl]): the [save...] calls made on a new
    manager before [initialize] write the session file and leave every
    other file, the log among them, as it was; after [initialize], the log
    at the output path is what it held before the manager was made
    (nothing, if it was not there), followed by one line for each later
    call, in the order of the calls, and no file other than the log and
    the session file is touched. *)
Theorem log_is_append_only (path : string) (givenId : option string)
    (generated : string) (now total : Z) (early ops : list Save) (d : Disk) :
  sessionPathOf path <> path ->
  let unopened := saveAll toISOString early (new path givenId generated now) d in
  let opened := initialize toISOString total (fst unopened) (snd unopened) in
  let final := saveAll toISOString ops (fst opened) (snd opened) in
  (forall other, other <> sessionPathOf path ->
     files (snd unopened) !! other = files d !! other)
  /\ files (snd final) !! path
     = Some (default "" (files d !! path)
             ++ String.concat "" (map (fun op => written toISOString (savedItem op)) ops))%string
  /\ forall other, other <> path -> other <> sessionPathOf path ->
       files (snd final) !! other = files d !! other.
Proof.
  intros Hsession unopened opened final.
  assert (Hearly : forall other, other <> sessionPathOf path ->
            files (snd unopened) !! other = files d !! other).
  { intros other Hne. apply saveAll_closed; [reflexivity | exact Hne]. }
  assert (Hpath : outputPath (fst unopened) = path) by (apply saveAll_outputPath).
  assert (Hspath : sessionPath (fst unopened) = sessionPathOf path)
    by (apply saveAll_sessionPath).
  split; [exact Hearly|].
  assert (Hopened : forall other, other <> sessionPathOf path ->
            files (snd opened) !! other
            = if decide (other = path) then Some (default "" (files d !! path))
              else files d !! other).
  { intros other Hne. subst opened. unfold initialize. cbn [fst snd]. rewrite Hpath.
    destruct (decide (other = path)) as [->|Hnp].
    - rewrite append_eq. unfold saveSession. cbn [sessionPath session].
      rewrite Hspath, writeFileSync_ne by congruence.
      rewrite Hearly by congruence. now rewrite append_empty_r.
    - rewrite append_ne by exact Hnp. unfold saveSession. cbn [sessionPath session].
      rewrite Hspath, writeFileSync_ne by exact Hne. now apply Hearly. }
  destruct (saveAll_logs ops (fst opened) (snd opened) path
              (default "" (files d !! path))) as (Hlog & Hother).
  - subst opened. cbn. now rewrite Hpath.
  - subst opened. cbn [initialize fst sessionPath]. rewrite Hspath. exact Hsession.
  - rewrite Hopened by congruence. now rewrite decide_True.
  - split; [exact Hlog|]. intros other Hne Hns. subst final.
    rewrite (Hother other Hne).
    + rewrite Hopened by exact Hns. now rewrite decide_False.
    + subst opened. cbn [initialize fst sessionPath]. now rewrite Hspath.
Qed.

End LedgerExtras.


(** ** batchCommand: the queue and the open breaker *)

Section BatchExtras.

Import BatchResultManager Batch.

Variable toISOString : Z -> string.
Variable classify : list string -> string -> Outcome ClassificationResult.
Variable pow : float -> Z -> float.
Variable timer : float -> Z.

Context {Queue : Type}.
Variable newPQueue : PQueue.Options -> Outcome Queue.
Variable parseInt : string -> option Z.

Local Abbreviation command :=
  (batchCommand toISOString classify pow timer newPQueue parseInt).





(** X20.  An open breaker fails an item at once.  When the breaker of the
    provider is open and its retry time has not come, and the error of an
    open breaker is not one that the retry takes for transient, the task of
    an item makes no request and does not sleep; it records the item as
    failed, with the error of the breaker and one attempt, and leaves every
    breaker as it was. *)
Theorem open_breaker_fails_the_item_at_once (p : AIProvider) (item : BatchItem)
    (st : State) (b : CircuitBreaker.t) (retryAt : Z) :
  breakers (world st) p = Some b ->
  CircuitBreaker.state b = CircuitBreaker.open ->
  CircuitBreaker.nextRetryTime b = Some retryAt ->
  clock (world st) < retryAt ->
  RetryLogic.isRetryableError (CircuitBreaker.openError toISOString b)
    (RetryLogic.r_retryableErrors (RetryLogic.resolve retryOptions)) = false ->
  let st1 := processItem toISOString classify pow timer p item st in
  requests (world st1) = requests (world st)
  /\ clock (world st1) = clock (world st)
  /\ (forall q, breakers (world st1) q = breakers (world st) q)
  /\ results (resultManager st1) !! item_id item
     = Some (failureItem (item_id item) (item_imagePath item)
               (errorObject (CircuitBreaker.openError toISOString b)) None
               (clock (world st)))
  /\ failedItems (session (resultManager st1))
     = failedItems (session (resultManager st)) + 1
  /\ successfulItems (session (resultManager st1))
     = successfulItems (session (resultManager st)).
Proof.
  intros Hb Hopen Hretry Hnow Hfatal st1. subst st1.
  unfold processItem, RetryLogic.execute.
  change (Z.to_nat (RetryLogic.r_maxAttempts (RetryLogic.resolve retryOptions)))
    with 3%nat.
  cbn [RetryLogic.attemptLoop].
  assert (Hcall : breakerExecute toISOString p
                    (classifyCall classify (item_imagePath item)) (world st)
                  = (inr (CircuitBreaker.openError toISOString b),
                     setBreaker p b (setBreaker p b (world st)))).
  { unfold breakerExecute, CircuitBreaker.execute, CircuitBreaker.enter,
      CircuitBreaker.shouldAttemptReset.
    rewrite Hb. cbn [default from_option Datatypes.id]. rewrite Hopen, Hretry.
    cbn [setBreaker clock].
    replace (retryAt <=? clock (world st)) with false by (symmetry; lia).
    reflexivity. }
  rewrite Hcall, Hfatal. cbn.
  rewrite lookup_insert_eq.
  repeat split; try reflexivity.
  intros q. destruct (decide (q = p)) as [->|]; [now rewrite Hb | reflexivity].
Qed.

End BatchExtras.


(** ** ResourceManager: the graceful shutdown *)

Section ResourceManagerExtras.

Import ResourceManager.

Lemma register_callbacks {W : Type} (callbacks : list (Async W unit)) : forall m : t W,
  shutdownCallbacks (register callbacks m) = shutdownCallbacks m ++ callbacks
  /\ isShuttingDown (register callbacks m) = isShuttingDown m
  /\ monitoringInterval (register callbacks m) = monitoringInterval m
  /\ options (register callbacks m) = options m.
Proof.
  induction callbacks as [|callback callbacks IH]; intros m.
  - cbn. now rewrite app_nil_r.
  - change (register (callback :: callbacks) m)
      with (register callbacks (onShutdown callback m)).
    destruct (IH (onShutdown callback m)) as (-> & -> & -> & ->). cbn.
    now rewrite <- app_assoc.
Qed.

Lemma ran_app (t1 t2 : list Event) : ran (t1 ++ t2) = ran t1 ++ ran t2.
Proof. apply omap_app. Qed.

Lemma failuresLogged_app (t1 t2 : list Event) :
  failuresLogged (t1 ++ t2) = failuresLogged t1 ++ failuresLogged t2.
Proof. apply omap_app. Qed.

(** The loop over traced callbacks numbered from [n]. *)
Lemma traced_loop (outcomes : list (Outcome unit)) : forall (n : nat) (trace : list Event),
  let trace1 :=
    fold_left (runCallback probeLog) (imap (fun k => traced (n + k)) outcomes) trace in
  ran trace1 = ran trace ++ seq n (length outcomes)
  /\ failuresLogged trace1 = failuresLogged trace ++ errorsOf outcomes.
Proof.
  induction outcomes as [|outcome outcomes IH]; intros n trace; cbn zeta.
  - cbn. now rewrite !app_nil_r.
  - cbn [imap fold_left length seq].
    specialize (IH (S n) (runCallback probeLog trace (traced (n + 0) outcome))).
    cbn zeta in IH.
    assert (Hshift : imap ((fun k => traced (n + k)) ∘ S) outcomes
                     = imap (fun k => traced (S n + k)) outcomes).
    { apply imap_ext. intros k outcome' _. cbn. now rewrite Nat.add_succ_r. }
    rewrite Hshift. destruct IH as (-> & ->).
    unfold runCallback, traced, probeLog. rewrite Nat.add_0_r.
    destruct outcome as [[]|error];
      rewrite ?ran_app, ?failuresLogged_app; cbn; rewrite ?app_nil_r, <- ?app_assoc;
      split; reflexivity.
Qed.

(** The shutdown of a manager that is not shutting down yet. *)
Lemma initiateGracefulShutdown_idle {W : Type} (logger : LogEntry -> W -> W)
    (m : t W) (w : W) :
  isShuttingDown m = false ->
  initiateGracefulShutdown logger m w
  = ({| options := options m; monitoringInterval := false;
        shutdownCallbacks := shutdownCallbacks m; isShuttingDown := true |},
     logger GracefulShutdownComplete
       (fold_left (runCallback logger) (shutdownCallbacks m)
          (let w1 :=
             logger (StartingGracefulShutdown (Z.of_nat (length (shutdownCallbacks m)))) w in
           if monitoringInterval m then logger StoppedResourceMonitoring w1 else w1))).
Proof.
  intros Hidle. unfold initiateGracefulShutdown, stopMonitoring. rewrite Hidle.
  destruct m as [o [] callbacks down]; reflexivity.
Qed.

(** X21.  A graceful shutdown runs every registered callback once, in the
    order of registration, also when some of them throw; and it runs them
    once only.  For a manager that is not shutting down and has no callback
    yet, on which the callbacks numbered 0, 1, ... are registered: the
    first [initiateGracefulShutdown] runs the callbacks 0, 1, ... in this
    order, logs the error of each one that threw and of no other, stops the
    monitoring and ends with the entry of completion; a second call runs
    nothing and only logs that the shutdown is in progress. *)
Theorem shutdown_runs_every_callback_once (m : t (list Event))
    (outcomes : list (Outcome unit)) :
  isShuttingDown m = false ->
  shutdownCallbacks m = [] ->
  let registered := register (imap traced outcomes) m in
  let first := initiateGracefulShutdown probeLog registered [] in
  ran (snd first) = seq 0 (length outcomes)
  /\ failuresLogged (snd first) = errorsOf outcomes
  /\ last (snd first) = Some (Logged GracefulShutdownComplete)
  /\ isShuttingDown (fst first) = true
  /\ monitoringInterval (fst first) = false
  /\ shutdownCallbacks (fst first) = imap traced outcomes
  /\ forall trace,
       initiateGracefulShutdown probeLog (fst first) trace
       = (fst first, trace ++ [Logged ShutdownAlreadyInProgress]).
Proof.
  intros Hidle Hnone registered first.
  destruct (register_callbacks (imap traced outcomes) m) as (Hcb & Hdown & Hmon & Hopt).
  fold registered in Hcb, Hdown, Hmon, Hopt. rewrite Hnone in Hcb. cbn [app] in Hcb.
  rewrite Hidle in Hdown.
  subst first. rewrite (initiateGracefulShutdown_idle probeLog registered [] Hdown).
  cbn [fst snd shutdownCallbacks isShuttingDown monitoringInterval]. rewrite Hcb.
  cbv zeta.
  match goal with
  | |- context [fold_left _ _ ?trace] =>
      pose proof (traced_loop outcomes 0 trace) as (Hran & Hfailed);
      remember trace as start eqn:Hstart
  end.
  cbn zeta in Hran, Hfailed. cbn [Nat.add] in Hran, Hfailed.
  change (imap (fun k : nat => traced k) outcomes) with (imap traced outcomes)
    in Hran, Hfailed.
  assert (Hstarted : ran start = [] /\ failuresLogged start = []).
  { rewrite Hstart. destruct (monitoringInterval registered); split; reflexivity. }
  destruct Hstarted as (Hran0 & Hfailed0). rewrite Hran0 in Hran. rewrite Hfailed0 in Hfailed.
  remember (fold_left (runCallback probeLog) (imap traced outcomes) start) as final
    eqn:Hfinal.
  clear Hfinal. unfold probeLog.
  rewrite ran_app, failuresLogged_app, Hran, Hfailed, last_snoc.
  repeat split; cbn; now rewrite ?app_nil_r.
Qed.

End ResourceManagerExtras.


(** ** Clamping numbers: the confidence and the warning threshold *)

Section NormalizerExtras.

Import ResponseNormalizer.

Variable parseFloat : string -> float.

(** X22.  A normalised confidence is a number between 0 and 1, whatever
    the provider sent: a confidence that is not a number (also a string
    that [parseFloat] cannot read) becomes 0.5, which is the level medium;
    one below 0 becomes 0, the level low; one above 1 becomes 1, the level
    high; one between 0 and 1 stays the number it is; and normalising
    twice changes nothing. *)
Theorem normalizeConfidence_clamps (confidence : RawConfidence) :
  let conf := toNumber parseFloat confidence in
  let r := normalizeConfidence parseFloat confidence in
  (0 <=? r)%float = true
  /\ (r <=? 1)%float = true
  /\ normalizeConfidence parseFloat (Number r) = r
  /\ (is_nan conf = true -> r = 0.5%float /\ getConfidenceLevel r = medium)
  /\ ((conf <? 0)%float = true -> r = 0%float /\ getConfidenceLevel r = low)
  /\ ((1 <? conf)%float = true -> r = 1%float /\ getConfidenceLevel r = high)
  /\ ((0 <=? conf)%float = true -> (conf <=? 1)%float = true -> (r =? conf)%float = true).
Proof.
  intros conf r. subst r. unfold normalizeConfidence. fold conf. cbn [toNumber].
  assert (Hclamp : forall x, is_nan x = false ->
            let r := JsMath.max 0 (JsMath.min 1 x) in
            r = (if (x <? 1)%float then if (0 <? x)%float then x else 0%float
                 else 1%float)
            /\ (0 <=? r)%float = true /\ (r <=? 1)%float = true).
  { intros x Hx. apply clamp_spec; [reflexivity | reflexivity | reflexivity | exact Hx]. }
  destruct (is_nan conf) eqn:Hnan.
  - split; [reflexivity|]. split; [reflexivity|]. split; [reflexivity|].
    split; [intros _; split; reflexivity|].
    split; [|split].
    + intros Hlt. apply float_ltb_not_nan in Hlt as (Hn & _). congruence.
    + intros Hlt. apply float_ltb_not_nan in Hlt as (_ & Hn). congruence.
    + intros Hle. apply float_leb_not_nan in Hle as (_ & Hn). congruence.
  - destruct (Hclamp conf Hnan) as (Hr & Hlo & Hhi). cbn zeta in Hr, Hlo, Hhi.
    assert (Hrn : is_nan (JsMath.max 0 (JsMath.min 1 conf)) = false)
      by (apply float_leb_not_nan in Hlo as (_ & Hn); exact Hn).
    split; [exact Hlo|]. split; [exact Hhi|]. split; [|split; [|split; [|split]]].
    + rewrite Hrn. destruct (Hclamp _ Hrn) as (Hrr & _). cbn zeta in Hrr.
      rewrite Hrr. clear Hrr Hrn Hlo Hhi.
      remember (JsMath.max 0 (JsMath.min 1 conf)) as R eqn:HR. clear HR.
      destruct (conf <? 1)%float eqn:H1; [destruct (0 <? conf)%float eqn:H0|]; subst R.
      * now rewrite H1, H0.
      * reflexivity.
      * reflexivity.
    + discriminate.
    + intros Hneg. rewrite Hr.
      rewrite (float_negative_below_one conf Hneg).
      rewrite (float_ltb_total 0 conf eq_refl Hnan), (float_ltb_leb conf 0 Hneg).
      split; reflexivity.
    + intros Hbig. rewrite Hr.
      rewrite (float_ltb_total conf 1 Hnan eq_refl), (float_ltb_leb 1 conf Hbig).
      split; reflexivity.
    + intros H0 H1. rewrite Hr.
      destruct (conf <? 1)%float eqn:Hlt1; [destruct (0 <? conf)%float eqn:Hlt0|].
      * now apply float_eqb_refl.
      * rewrite float_eqb_sym. now apply float_eqb_of_leb.
      * now apply float_eqb_of_leb.
Qed.

End NormalizerExtras.

Section ThresholdExtras.

Import CostTracker BudgetManager BudgetExtras.

(** X23.  [setWarningThreshold] keeps the threshold between 0 and 100
    whatever number it is given, and a threshold that is not a number stays
    one; it leaves the limits and the alerts as they are, and it never
    changes whether a request is approved. *)
Theorem setWarningThreshold_clamps (threshold : float) (bm : BudgetManager.t) :
  let bm1 := setWarningThreshold threshold bm in
  (is_nan threshold = false ->
   (0 <=? warningThreshold bm1)%float = true
   /\ (warningThreshold bm1 <=? 100)%float = true)
  /\ (is_nan threshold = true -> is_nan (warningThreshold bm1) = true)
  /\ limits bm1 = limits bm
  /\ alerts bm1 = alerts bm
  /\ forall tracker p cost now,
       fst (canAfford bm1 tracker p cost now) = fst (canAfford bm tracker p cost now).
Proof.
  intros bm1. subst bm1. cbn [setWarningThreshold warningThreshold limits alerts].
  split; [|split; [|split; [|split]]]; try reflexivity.
  - intros Hnan.
    destruct (clamp_spec 0 100 threshold) as (_ & Hlo & Hhi);
      [reflexivity | reflexivity | reflexivity | exact Hnan |].
    split; assumption.
  - intros Hnan. unfold JsMath.min, JsMath.max. rewrite Hnan.
    change (is_nan 100 || true) with true. cbv iota.
    change (is_nan 0 || is_nan nan) with true. reflexivity.
  - intros tracker p cost now. now apply canAfford_decision.
Qed.

End ThresholdExtras.


(** ** The further properties on concrete runs *)

(** A breaker with the default thresholds: a call that returns, then one
    that throws. *)
Lemma success_forgets_failures_witness :
  let opts := CircuitBreakerManager.noOptions in
  let returning : Async Z unit := fun clock => (inl tt, clock + 1) in
  let failing : Async Z unit := fun clock => (inr (newError "ECONNRESET"), clock + 1) in
  let b1 :=
    snd (fst (CircuitBreaker.execute id (fun _ => "later") (CircuitBreaker.new opts)
                returning 0)) in
  let b2 := snd (fst (CircuitBreaker.execute id (fun _ => "later") b1 failing 1)) in
  CircuitBreaker.failures b1 = 0
  /\ CircuitBreaker.state b2 = CircuitBreaker.closed
  /\ CircuitBreaker.failures b2 = 1.
Proof.
  intros opts returning failing b1 b2.
  refine (success_forgets_failures id (fun _ => "later") opts (CircuitBreaker.new opts)
            b1 b2 1 _ _ _ _ _ _ _).
  - reflexivity.
  - reflexivity.
  - constructor.
  - reflexivity.
  - eapply CircuitBreaker.succeededRuns_S with (fn := returning) (w := 0);
      [reflexivity | apply CircuitBreaker.succeededRuns_O].
  - eapply CircuitBreaker.failedRuns_S with (fn := failing) (w := 1);
      [reflexivity | apply CircuitBreaker.failedRuns_O].
  - reflexivity.
Defined.

(** A breaker that counted a failure, then reset. *)
Lemma forceReset_is_new_witness :
  let opts := CircuitBreakerManager.noOptions in
  let failing : Async Z unit := fun clock => (inr (newError "ECONNRESET"), clock + 1) in
  CircuitBreaker.forceReset
    (snd (fst (CircuitBreaker.execute id (fun _ => "later") (CircuitBreaker.new opts)
                 failing 0)))
  = CircuitBreaker.new opts.
Proof.
  intros opts failing.
  apply (forceReset_is_new id (fun _ => "later") opts).
  apply (CircuitBreaker.reachable_onFailure id (fun _ => "later") opts
           (CircuitBreaker.new opts) 1).
  constructor.
Defined.

(** A failed call for gemini, then a call for claude. *)
Lemma breakers_are_isolated_witness :
  let failing : Async Z unit := fun clock => (inr (newError "ECONNRESET"), clock + 1) in
  let returning : Async Z unit := fun clock => (inl tt, clock + 1) in
  let m := CircuitBreakerManager.new in
  let m' :=
    snd (fst (CircuitBreakerManager.execute id (fun _ => "later") gemini failing m 0)) in
  m' claude = m claude
  /\ fst (fst (CircuitBreakerManager.execute id (fun _ => "later") claude returning m' 1))
     = fst (fst (CircuitBreakerManager.execute id (fun _ => "later") claude returning m 1)).
Proof.
  intros failing returning m m'.
  destruct (breakers_are_isolated id (fun _ => "later") gemini claude m m' returning 1)
    as (Hsame & Houtcome & _).
  - discriminate.
  - eapply CircuitBreakerManager.callsFor_cons with (fn := failing) (w := 0).
    apply CircuitBreakerManager.callsFor_nil.
  - split; [exact Hsame | exact Houtcome].
Defined.

(** A breaker made with a threshold of 2 failures, asked for again
    without options. *)
Lemma getBreaker_keeps_first_witness :
  let strict :=
    {| CircuitBreaker.failureThreshold := Some 2; CircuitBreaker.successThreshold := None;
       CircuitBreaker.timeout := None; CircuitBreaker.resetTimeoutMs := None |} in
  let made := CircuitBreakerManager.getBreaker gemini (Some strict) CircuitBreakerManager.new in
  CircuitBreaker.o_failureThreshold
    (CircuitBreaker.options
       (fst (CircuitBreakerManager.getBreaker gemini None (snd made)))) = 2.
Proof.
  intros strict made.
  destruct (getBreaker_keeps_first gemini (Some strict) None CircuitBreakerManager.new)
    as (Hmade & Hlater).
  - reflexivity.
  - fold made in Hmade, Hlater. rewrite Hlater. cbn [fst]. rewrite Hmade. reflexivity.
Defined.

(** A limit of $0 a request and a request of $1000. *)
Lemma zero_limit_is_no_limit_witness :
  let bm := BudgetManager.new (BudgetExtras.onlyPerRequest 0%float) 0 0 0 in
  BudgetManager.canAfford bm [] gemini 1000%float 10 = (true, bm).
Proof.
  intros bm. apply zero_limit_is_no_limit. right. reflexivity.
Defined.

(** $100 spent before the day began, under a limit of $10 a day. *)
Lemma spend_before_the_windows_witness :
  let older :=
    [{| CostTracker.provider := gemini; CostTracker.timestamp := -5;
        CostTracker.costUsd := 100%float |}] in
  BudgetManager.canAfford Sample.tenDollarsADay (older ++ []) gemini 1%float 10
  = BudgetManager.canAfford Sample.tenDollarsADay [] gemini 1%float 10.
Proof.
  intros older. apply spend_before_the_windows_is_ignored.
  - constructor; [cbn; lia | constructor].
  - reflexivity.
Defined.

(** The last two alerts of a budget that has raised none. *)
Lemma getRecentAlerts_witness :
  BudgetExtras.getRecentAlerts (Some 2) Sample.unlimitedBudget = [].
Proof.
  rewrite (proj1 (getRecentAlerts_spec Sample.unlimitedBudget 2 ltac:(lia))).
  reflexivity.
Defined.

(** A skip before the stream is open, then a success. *)
Lemma log_is_append_only_witness :
  let early := [BatchResultManager.SaveSkipped "a" "a.png" "not yet" 1] in
  let ops := [BatchResultManager.SaveSuccess "b" "b.png" Json.JNull 2] in
  let unopened :=
    BatchResultManager.saveAll Sample.toISOString early
      (BatchResultManager.new "out.jsonl" None "batch-1" 0) BatchResultManager.emptyDisk in
  let opened :=
    BatchResultManager.initialize Sample.toISOString 2 (fst unopened) (snd unopened) in
  let final := BatchResultManager.saveAll Sample.toISOString ops (fst opened) (snd opened) in
  BatchResultManager.files (snd unopened) !! "out.jsonl" = None
  /\ BatchResultManager.files (snd final) !! "out.jsonl"
     = Some (BatchResultManager.written Sample.toISOString
               (BatchResultManager.successItem "b" "b.png" Json.JNull 2)).
Proof.
  intros early ops unopened opened final.
  destruct (log_is_append_only Sample.toISOString "out.jsonl" None "batch-1" 0 2 early ops
              BatchResultManager.emptyDisk) as (Hearly & Hlog & _).
  - vm_compute. discriminate.
  - split; [apply Hearly; vm_compute; discriminate | exact Hlog].
Defined.


(** The first item of a batch, with the breaker of gemini open until
    60000. *)
Lemma open_breaker_witness :
  let b :=
    {| CircuitBreaker.state := CircuitBreaker.open; CircuitBreaker.failures := 5;
       CircuitBreaker.successes := 0; CircuitBreaker.lastFailureTime := Some 0;
       CircuitBreaker.nextRetryTime := Some 60000;
       CircuitBreaker.options := CircuitBreaker.options
                                   (CircuitBreaker.new Batch.noBreakerOptions) |} in
  let st :=
    {| Batch.resultManager := Batch.resultManager Sample.freshState;
       Batch.progressTracker := Batch.progressTracker Sample.freshState;
       Batch.world := Batch.setBreaker gemini b (Batch.world Sample.freshState) |} in
  Batch.requests
    (Batch.world (Batch.processItem Sample.toISOString Sample.alwaysClassifies
                    Sample.pow Sample.timer gemini Sample.itemA st))
  = [].
Proof.
  intros b st.
  refine (proj1 (open_breaker_fails_the_item_at_once Sample.toISOString
                   Sample.alwaysClassifies Sample.pow Sample.timer gemini Sample.itemA
                   st b 60000 _ _ _ _ _));
    reflexivity.
Defined.

(** Three callbacks, the second of which throws. *)
Lemma shutdown_witness :
  let outcomes : list (Outcome unit) := [inl tt; inr (newError "boom"); inl tt] in
  let registered :=
    ResourceManager.register (imap ResourceManager.traced outcomes)
      (ResourceManager.new
         {| ResourceManager.maxMemoryMB := Some 2048;
            ResourceManager.maxQueueDepth := Some 10000;
            ResourceManager.memoryWarningThresholdPercent := None;
            ResourceManager.monitoringIntervalMs := None;
            ResourceManager.enableGarbageCollection := None |}) in
  ResourceManager.ran
    (snd (ResourceManager.initiateGracefulShutdown ResourceManager.probeLog registered []))
  = [0; 1; 2]%nat.
Proof.
  intros outcomes registered.
  refine (proj1 (shutdown_runs_every_callback_once _ outcomes _ _)); reflexivity.
Defined.
